(** * nano-genie: the dynamics model's masking, loss and MaskGit decoding

    A shallow embedding of [src/models/dynamics.py]: the training-time
    masking policy and masked cross-entropy of [DynamicsModel.forward], the
    exponential unmasking schedule [exp_schedule_torch], and the iterative
    decoding loop of [DynamicsModel.forward_inference]; and of the two pure
    pieces of the training script [src/scripts/train_dynamics.py]: the
    cycling through the data loader and the pixel mask of the visualisation.

    Tensors are nested lists; Python exceptions are an error monad; the
    random number generator is an explicit state; the neural network, the
    tokenizer's index-to-latent map and the floating-point primitives are
    interfaces (type classes), as they are external collaborators of the
    file. The floats whose arithmetic matters are read without rounding: the
    mask ratio and the temperature as rationals, the loss and the per-row
    cross-entropies as rationals extended with the infinities and nan. The
    conversion of an integer to float32 keeps its rounding. *)

From Stdlib Require Import ZArith QArith Qminmax Qround Lia.
From stdpp Require Import base tactics option list list_numbers sorting.

Local Open Scope Z_scope.
Local Open Scope nat_scope.

(** ** Python exceptions as an error monad *)

Inductive exn : Type :=
  | IndexError
  | ValueError
  | ZeroDivisionError
  | AssertionError
  | RuntimeError.

Inductive result (A : Type) : Type :=
  | Ok (a : A)
  | Raise (e : exn).
Arguments Ok {A} a.
Arguments Raise {A} e.

Global Instance result_ret : MRet result := λ A a, Ok a.
Global Instance result_bind : MBind result :=
  λ A B f m, match m with Ok a => f a | Raise e => Raise e end.

(** [for x in l: s = f(s, x)] where the body may raise. *)
Fixpoint foldM {A S : Type} (f : S → A → result S) (s : S) (l : list A) : result S :=
  match l with
  | [] => Ok s
  | a :: l' => s' ← f s a; foldM f s' l'
  end.

(** [[f(x) for x in l]] where [f] may raise. *)
Fixpoint mapM_result {A B : Type} (f : A → result B) (l : list A) : result (list B) :=
  match l with
  | [] => Ok []
  | a :: l' => b ← f a; bs ← mapM_result f l'; Ok (b :: bs)
  end.

Definition of_option {A : Type} (e : exn) (o : option A) : result A :=
  match o with Some a => Ok a | None => Raise e end.

(** ** Tensors of rank 3 as nested lists, indexed [b][t][p] *)

Abbreviation tensor3 A := (list (list (list A))).

Definition get3 {A : Type} (x : tensor3 A) (b t p : nat) : option A :=
  m ← x !! b; r ← m !! t; r !! p.

Definition set3 {A : Type} (x : tensor3 A) (b t p : nat) (v : A) : tensor3 A :=
  alter (alter (<[p := v]>) t) b x.

(** [x[b, t, p]]: an integer index out of range raises [IndexError]. *)
Definition read3 {A : Type} (x : tensor3 A) (b t p : nat) : result A :=
  of_option IndexError (get3 x b t p).

(** [x[b, t, p] = v]. *)
Definition write3 {A : Type} (x : tensor3 A) (b t p : nat) (v : A) : result (tensor3 A) :=
  match get3 x b t p with
  | Some _ => Ok (set3 x b t p v)
  | None => Raise IndexError
  end.

Definition map3 {A B : Type} (f : A → B) (x : tensor3 A) : tensor3 B :=
  fmap (M:=list) (fmap (M:=list) (fmap (M:=list) f)) x.

(** [x.reshape(-1)] of a contiguous tensor. *)
Definition flatten3 {A : Type} (x : tensor3 A) : list A := mjoin (mjoin x).

Definition has_shape2 {A : Type} (T P : nat) (m : list (list A)) : bool :=
  (length m =? T) && forallb (λ r, length r =? P) m.

Definition has_shape3 {A : Type} (B T P : nat) (x : tensor3 A) : bool :=
  (length x =? B) && forallb (has_shape2 T P) x.

(** [torch.where(v)[0]] of a boolean vector: the positions holding [True],
    ascending. *)
Definition where_true (v : list bool) : list nat :=
  filter (λ i, v !! i = Some true) (seq 0 (length v)).

(** [v[idx]] with an index tensor. *)
Definition gather {A : Type} (v : list A) (idx : list nat) : result (list A) :=
  mapM_result (λ i, of_option IndexError (v !! i)) idx.

(** [x[mask]] with a boolean mask of the same length. *)
Fixpoint masked_select {A : Type} (x : list A) (mask : list bool) : list A :=
  match x, mask with
  | a :: x', m :: mask' => if m then a :: masked_select x' mask' else masked_select x' mask'
  | _, _ => []
  end.

(** [torch.unique(h, sorted=True)]. *)
Definition torch_unique (h : list nat) : list nat :=
  merge_sort Nat.le (remove_dups h).

(** Position [(b, p)] of a mask has an unmasked timestep. *)
Definition has_anchor (m : tensor3 bool) (b p : nat) : Prop :=
  ∃ t, get3 m b t p = Some false.

(** [mask.any()] of a rank-3 boolean tensor. *)
Definition any3 (m : tensor3 bool) : bool :=
  existsb (existsb (existsb (λ v : bool, v))) m.

(** ** The floating-point primitives the file uses *)

Class FloatOps (F : Type) : Type := {
  (** [torch.tensor(n, dtype=...)] and the implicit conversion of a Python
      int that meets a tensor *)
  F_of_Z : Z → F;
  (** Python's true division [a / b] of two ints, for [b ≠ 0] *)
  F_truediv : Z → Z → F;
  F_mul : F → F → F;
  (** division of tensors: IEEE, never raises *)
  F_div : F → F → F;
  (** [torch.expm1] *)
  F_expm1 : F → F;
  (** [int(torch.ceil(x).item())]: raises on nan and on infinities *)
  F_ceil_item : F → result Z;
  (** the order [torch.topk] ranks by *)
  F_ltb : F → F → bool
}.

Section Schedule.
Context {F : Type} `{!FloatOps F}.

(** Python's [a / b] on ints. *)
Definition py_truediv (a b : Z) : result F :=
  if (b =? 0)%Z then Raise ZeroDivisionError else Ok (F_truediv a b).

(** The divisor [max(T, 1)] of [x = t / max(T, 1)]. *)
Definition schedule_divisor (T : Z) : Z := Z.max T 1.

(** [exp_schedule_torch(t, T, P_total, k=schedule_k)], lines 99-105. *)
Definition exp_schedule_torch (k : F) (t T P_total : Z) : result F :=
  x ← py_truediv t (schedule_divisor T);
  let k_tensor := k in
  let result := F_div (F_mul (F_of_Z P_total) (F_expm1 (F_mul k_tensor x)))
                      (F_expm1 k_tensor) in
  if (t =? T - 1)%Z then Ok (F_of_Z P_total) else Ok result.

End Schedule.

(** The float32 nearest to the integer [n], as an integer: [n] rounded to 24
    significant bits, ties to the even significand (for [|n| ≤ 2^53], below
    the overflow of float32). *)
Definition float32_of_Z (n : Z) : Z :=
  let a := Z.abs n in
  let e := (Z.log2 a - 23)%Z in
  if (e <=? 0)%Z then n else
  let q := (a / 2 ^ e)%Z in
  let r := (a mod 2 ^ e)%Z in
  let half := (2 ^ (e - 1))%Z in
  let q' := if (r <? half)%Z then q
            else if (half <? r)%Z then (q + 1)%Z
            else if Z.even q then q else (q + 1)%Z in
  (Z.sgn n * (q' * 2 ^ e))%Z.

(** What the floats stand for: the rational value of a finite float, and
    that the float made of an integer [n] is the float32 nearest to [n]. The
    tensor [torch.tensor(P_total, dtype=result.dtype)] of line 104 is a
    float32: [result] is made of [torch.tensor(k)] and a Python float, and
    float32 is torch's default dtype. *)
Class Float32Values (F : Type) `{!FloatOps F} : Type := {
  F_value : F → option Q;
  F_of_Z_value : ∀ n : Z, (Z.abs n ≤ 2 ^ 53)%Z →
    F_value (F_of_Z n) = Some (inject_Z (float32_of_Z n))
}.

(** ** The collaborators of the dynamics model *)

(** The parameters and sub-modules of [DynamicsModel]: the mask token, the
    latent embedding, the spatial positional encoding, the ST-transformer and
    the output projection. [Latent] is one latent vector (length [L]), [Emb]
    one embedding, [Row] one row of [K] logits or probabilities, [Cond] the
    conditioning tensor. *)
Class DynamicsModel (Latent Emb Row Cond : Type) : Type := {
  (** [discrete_latents.to(dtype=torch.float32)] on one latent vector *)
  to_float32 : Latent → Latent;
  (** [self.mask_token] *)
  mask_token : Latent;
  (** [self.latent_embed] *)
  latent_embed : Latent → Emb;
  (** [self.pos_spatial_dec] at position [p], and the addition of embeddings *)
  pos_spatial_dec : nat → Emb;
  emb_add : Emb → Emb → Emb;
  (** [self.transformer(embeddings, conditioning=conditioning)] *)
  transformer : tensor3 Emb → option Cond → tensor3 Emb;
  (** [self.output_mlp] *)
  output_mlp : Emb → Row
}.

(** The floats of the loss: a rational (rounding is ignored), an infinity or
    nan. *)
Inductive xfloat : Type :=
  | Finite (q : Q)
  | PosInf
  | NegInf
  | NaN.

Definition xfinite (x : xfloat) : Prop :=
  match x with Finite _ => True | _ => False end.

(** The same float: rationals are compared by their value. *)
Definition xeq (x y : xfloat) : Prop :=
  match x, y with
  | Finite a, Finite b => (a == b)%Q
  | PosInf, PosInf | NegInf, NegInf | NaN, NaN => True
  | _, _ => False
  end.

(** The infinity of the sign of [a * s], for [s] the sign of an infinity. *)
Definition xinf_signed (positive : bool) : xfloat :=
  if positive then PosInf else NegInf.

(** IEEE addition, multiplication and division on these values. *)
Definition xadd (x y : xfloat) : xfloat :=
  match x, y with
  | NaN, _ | _, NaN => NaN
  | PosInf, NegInf | NegInf, PosInf => NaN
  | PosInf, _ | _, PosInf => PosInf
  | NegInf, _ | _, NegInf => NegInf
  | Finite a, Finite b => Finite (a + b)
  end.

Definition xmul (x y : xfloat) : xfloat :=
  match x, y with
  | NaN, _ | _, NaN => NaN
  | Finite a, Finite b => Finite (a * b)
  | Finite a, PosInf | PosInf, Finite a =>
      if Qeq_bool a 0 then NaN else xinf_signed (Qle_bool 0 a)
  | Finite a, NegInf | NegInf, Finite a =>
      if Qeq_bool a 0 then NaN else xinf_signed (negb (Qle_bool 0 a))
  | PosInf, PosInf | NegInf, NegInf => PosInf
  | PosInf, NegInf | NegInf, PosInf => NegInf
  end.

Definition xinv (x : xfloat) : xfloat :=
  match x with
  | Finite a => if Qeq_bool a 0 then PosInf else Finite (/ a)
  | PosInf | NegInf => Finite 0
  | NaN => NaN
  end.

Definition xdiv (x y : xfloat) : xfloat := xmul x (xinv y).

(** [x.sum()] *)
Definition xsum (l : list xfloat) : xfloat := foldr xadd (Finite 0) l.

(** The row-wise library functions applied to logits. *)
Class RowOps (F Row : Type) : Type := {
  (** [row.shape[-1]], the number [K] of classes *)
  num_classes : Row → nat;
  (** the value of [nn.functional.cross_entropy(row, target, reduction='none')]
      for a target below [K]: a float, which is not finite when the row
      holds a non-finite logit *)
  cross_entropy_value : Row → nat → xfloat;
  (** [row / float(temperature)] *)
  scale_row : Q → Row → Row;
  (** [torch.softmax(row, dim=-1)] *)
  softmax : Row → Row;
  (** [torch.max(row, dim=-1)]: the maximum and its index *)
  row_max : Row → F * nat
}.

(** The random number generator as a state, with the draws the file makes. *)
Class RandomSource (Rng Row : Type) : Type := {
  (** [torch.rand(())] *)
  rand_scalar : Rng → Q * Rng;
  (** [torch.rand(B, T, P)] *)
  rand3 : nat → nat → nat → Rng → tensor3 Q * Rng;
  (** [torch.randint(0, high, (B, P))], for [0 < high] *)
  randint2 : nat → nat → nat → Rng → list (list nat) * Rng;
  (** [torch.distributions.Categorical(probs=...).sample()], one draw per
      row; the constructor raises [ValueError] on probabilities that are not a
      distribution (a row with a nan) *)
  categorical_sample : tensor3 Row → Rng → result (tensor3 nat * Rng)
}.

(** [x < y] on the rationals that stand for Python floats. *)
Definition Qltb (x y : Q) : bool := negb (Qle_bool y x).

(** Sum of a list of rationals. *)
Definition Qsum (l : list Q) : Q := foldr Qplus 0%Q l.

(** [nn.functional.cross_entropy(row, target, reduction='none')] on one row:
    a target that is not below the number of classes raises [IndexError]. *)
Definition cross_entropy {F Row : Type} `{!RowOps F Row} (row : Row) (target : nat)
    : result xfloat :=
  if target <? num_classes row then Ok (cross_entropy_value row target)
  else Raise IndexError.

Section Forward.
Context {F Latent Emb Row Cond Rng : Type}.
Context `{!FloatOps F, !DynamicsModel Latent Emb Row Cond, !RowOps F Row,
          !RandomSource Rng Row}.

(** Line 48: [mask_positions[arange(B)[:, None], anchor_idx, arange(P)[None, :]] = False]. *)
Definition clear_anchors (B P : nat) (anchor_idx : list (list nat))
    (mask_positions : tensor3 bool) : result (tensor3 bool) :=
  foldM (λ m b,
    foldM (λ m p,
      t ← of_option IndexError (row ← anchor_idx !! b; row !! p);
      write3 m b t p false) m (seq 0 P))
    mask_positions (seq 0 B).

(** Line 52: [torch.where(mask_positions.unsqueeze(-1), mask_token, discrete_latents)];
    operands whose shapes differ raise. *)
Definition where_mask_token (B T P : nat) (mask_positions : tensor3 bool)
    (discrete_latents : tensor3 Latent) : result (tensor3 Latent) :=
  if has_shape3 B T P mask_positions && has_shape3 B T P discrete_latents then
    Ok (zip_with (zip_with (zip_with
          (λ (m : bool) x, if m then mask_token else x)))
          mask_positions discrete_latents)
  else Raise RuntimeError.

(** Lines 42-52: the masking policy. [torch.randint(0, T, ...)] raises for
    [T = 0]. *)
Definition random_masking (B T P : nat) (discrete_latents : tensor3 Latent) (rng : Rng)
    : result (tensor3 Latent * tensor3 bool * Rng) :=
  let '(r, rng) := rand_scalar rng in
  let mask_ratio := (0.5 + r * 0.5)%Q in
  let '(u, rng) := rand3 B T P rng in
  let mask_positions := map3 (λ x, Qltb x mask_ratio) u in
  if T =? 0 then Raise RuntimeError else
  let '(anchor_idx, rng) := randint2 T B P rng in
  mask_positions ← clear_anchors B P anchor_idx mask_positions;
  discrete_latents ← where_mask_token B T P mask_positions discrete_latents;
  Ok (discrete_latents, mask_positions, rng).

(** Lines 56-64: embedding, spatial positional encoding, transformer, logits. *)
Definition predict_logits (discrete_latents : tensor3 Latent) (conditioning : option Cond)
    : tensor3 Row :=
  let embeddings := map3 latent_embed discrete_latents in
  let embeddings :=
    fmap (M:=list) (fmap (M:=list) (imap (λ p e, emb_add e (pos_spatial_dec p)))) embeddings in
  let transformed := transformer embeddings conditioning in
  map3 output_mlp transformed.

(** Lines 70-76: the masked cross-entropy. [cross_entropy] raises when the
    numbers of rows and of targets differ and when a target is out of range,
    and the product with a mask of another length raises. The mask's floats
    are 0 and 1, so their sum is a rational; the per-row losses may be
    infinite or nan, and the product by 0 does not remove them. *)
Definition masked_cross_entropy (predicted_logits : tensor3 Row) (targets : tensor3 nat)
    (mask_positions : tensor3 bool) : result xfloat :=
  let logits_flat := flatten3 predicted_logits in
  let targets_flat := flatten3 targets in
  let mask_flat := (λ m : bool, if m then 1%Q else 0%Q) <$> flatten3 mask_positions in
  if negb (length logits_flat =? length targets_flat) then Raise ValueError else
  loss_per ← mapM_result (λ rt, cross_entropy rt.1 rt.2) (zip logits_flat targets_flat);
  let denom := Qmax (Qsum mask_flat) 1 in
  if negb (length loss_per =? length mask_flat) then Raise RuntimeError else
  Ok (xdiv (xsum (zip_with (λ l m, xmul l (Finite m)) loss_per mask_flat)) (Finite denom)).

(** [DynamicsModel.forward], lines 30-78. [self_training] is the module's
    [self.training] flag; [B], [T], [P] are [discrete_latents.shape]. In the
    second guarded block [mask_positions] is the mask of the first one. *)
Definition forward (self_training : bool) (B T P : nat)
    (discrete_latents : tensor3 Latent) (training : bool)
    (conditioning : option Cond) (targets : option (tensor3 nat)) (rng : Rng)
    : result (tensor3 Row * option (tensor3 bool) * option xfloat * Rng) :=
  let discrete_latents := map3 to_float32 discrete_latents in
  '(discrete_latents, mask_positions, rng) ←
    (if training && self_training then
       '(x, m, rng) ← random_masking B T P discrete_latents rng;
       Ok (x, Some m, rng)
     else Ok (discrete_latents, None, rng));
  let predicted_logits := predict_logits discrete_latents conditioning in
  loss ←
    (if training && self_training then
       match targets with
       | None => Raise AssertionError
       | Some targets =>
           match mask_positions with
           | Some m => l ← masked_cross_entropy predicted_logits targets m; Ok (Some l)
           | None => Raise RuntimeError
           end
       end
     else Ok None);
  Ok (predicted_logits, mask_positions, loss, rng).

(** The loss as the specification words it: the sum over all rows of the
    row's cross-entropy times the mask indicator, over the number of masked
    rows floored at 1. *)
Definition spec_masked_loss (logits_flat : list Row) (targets_flat : list nat)
    (mask_flat : list bool) : xfloat :=
  xdiv (xsum (zip_with (λ ce (m : bool), xmul ce (Finite (if m then 1 else 0)))
                (zip_with cross_entropy_value logits_flat targets_flat) mask_flat))
       (Finite (inject_Z (Z.max (Z.of_nat (length (filter (λ m, m = true) mask_flat))) 1))).

End Forward.

(** ** Iterative decoding *)

(** [torch.topk(values, k, largest=True).indices]: the positions of the [k]
    largest entries, in decreasing order of value; among equal values the
    order is the one the sort leaves (the library does not fix it). *)
Definition ranks_before {F : Type} `{!FloatOps F} (values : list F) (i j : nat) : Prop :=
  match values !! i, values !! j with
  | Some a, Some b => F_ltb a b = false
  | _, _ => True
  end.

Global Instance ranks_before_dec {F : Type} `{!FloatOps F} (values : list F) (i j : nat) :
  Decision (ranks_before values i j).
Proof.
  unfold ranks_before.
  destruct (values !! i), (values !! j); apply _.
Defined.

Definition topk {F : Type} `{!FloatOps F} (values : list F) (k : nat) : list nat :=
  take k (merge_sort (ranks_before values) (seq 0 (length values))).

(** [l[-H:]] for [H ≥ 0]: the last [H] entries, all of them for [H = 0]. *)
Definition py_last {A : Type} (H : nat) (l : list A) : list A :=
  if H =? 0 then l else drop (length l - H) l.

(** [torch.where(m)] of a boolean matrix: the coordinates holding [True], in
    row-major order. *)
Definition where2 (m : list (list bool)) : list (nat * nat) :=
  mjoin (imap (λ h row, (λ p, (h, p)) <$> where_true row) m).

(** [temperature and temperature > 0]. *)
Definition temperature_on (temperature : Q) : bool :=
  if Qeq_bool temperature 0 then false else Qltb 0 temperature.

(** The locals of [forward_inference] that the loop mutates: the working grid
    and the mask (whose trailing dimension of size 1 is dropped), with the
    log of the cells [(b, t_abs, p)] assigned so far (ghost state). *)
Record decode_state (Latent : Type) : Type := DecodeState {
  input_latents : tensor3 Latent;
  mask : tensor3 bool;
  writes : list (nat * nat * nat)
}.
Arguments DecodeState {Latent} _ _ _.
Arguments input_latents {Latent} _.
Arguments mask {Latent} _.
Arguments writes {Latent} _.

Section Inference.
Context {F Latent Emb Row Cond Rng : Type}.
Context `{!FloatOps F, !DynamicsModel Latent Emb Row Cond, !RowOps F Row,
          !RandomSource Rng Row}.

(** The module's [self.training] flag and the arguments of the call;
    [B], [T_ctx], [P] are [context_latents.shape], [H] is
    [int(prediction_horizon)], [index_to_latents_fn] is given by its action
    on one codebook index, [verify_mask] says whether the environment has
    [NG_VERIFY_MASK=1]. *)
Variables (self_training : bool) (B T_ctx P H : nat) (num_steps : Z).
Variables (index_to_latents_fn : nat → Latent) (conditioning : option Cond).
Variables (schedule_k : F) (temperature : Q) (verify_mask : bool).

(** Lines 160-169 (and 189-198): the write-back for one distinct timestep.
    The slices [b:b+1] and [t_abs:t_abs+1] select the one row [b], [t_abs];
    the assignment of line 168 stores, for each [p] of [p_list], the latent
    of the index read at [(b, t_abs, p)]. *)
Definition commit_group (b : nat) (h_sel p_sel : list nat) (predicted_indices : tensor3 nat)
    (st : decode_state Latent) (uh : nat) : result (decode_state Latent) :=
  let mask_h := (λ h, h =? uh) <$> h_sel in
  let p_list := masked_select p_sel mask_h in
  if length p_list =? 0 then Ok st else
  let t_abs := T_ctx + uh in
  idx_sel ← mapM_result (λ p, read3 predicted_indices b t_abs p) p_list;
  let pred_latents_sel := index_to_latents_fn <$> idx_sel in
  input_latents' ← foldM (λ g pv, write3 g b t_abs pv.1 pv.2) (input_latents st)
                         (zip p_list pred_latents_sel);
  mask' ← foldM (λ m p, write3 m b uh p false) (mask st) p_list;
  Ok (DecodeState input_latents' mask' (writes st ++ ((λ p, (b, t_abs, p)) <$> p_list))).

(** Lines 159-169 (and 188-198): [for uh in torch.unique(h_sel, sorted=True)]. *)
Definition commit_groups (b : nat) (h_sel p_sel : list nat) (predicted_indices : tensor3 nat)
    (st : decode_state Latent) : result (decode_state Latent) :=
  foldM (commit_group b h_sel p_sel predicted_indices) st (torch_unique h_sel).

(** The cells a write-back assigns, in the order it assigns them. *)
Definition group_writes (b : nat) (h_sel p_sel : list nat) (us : list nat)
    : list (nat * nat * nat) :=
  us ≫= (λ uh, (λ p, (b, T_ctx + uh, p)) <$> masked_select p_sel ((λ h, h =? uh) <$> h_sel)).

(** Line 144: [k_b]. *)
Definition k_floor (P_total : Z) : Z := Z.max (P_total / 16) 1.

Definition k_b (P_total target_unmasked num_masked_b : Z) : Z :=
  let prev_b := (P_total - num_masked_b)%Z in
  Z.max (k_floor P_total) (Z.min (Z.max (target_unmasked - prev_b) 0) num_masked_b).

(** Lines 146-151: the flat horizon positions to commit. *)
Definition select_flat (kb : Z) (pos_probs_flat : list F) (masked_flat_idx : list nat)
    : result (list nat) :=
  if (Z.of_nat (length pos_probs_flat) >? kb)%Z then
    let top_idx := topk pos_probs_flat (Z.to_nat kb) in
    gather masked_flat_idx top_idx
  else Ok masked_flat_idx.

(** Lines 134-169: the body of [for b in range(B)]. *)
Definition unmask_batch_element (P_total : Z) (n_tokens_raw : F) (horizon_probs : tensor3 F)
    (predicted_indices : tensor3 nat) (st : decode_state Latent) (b : nat)
    : result (decode_state Latent) :=
  masked_mask_all ← of_option IndexError (mask st !! b);
  let masked_flat := mjoin masked_mask_all in
  let masked_flat_idx := where_true masked_flat in
  if length masked_flat_idx =? 0 then Ok st else
  let num_masked_b := Z.of_nat (length masked_flat_idx) in
  target_unmasked ← F_ceil_item n_tokens_raw;
  let kb := k_b P_total target_unmasked num_masked_b in
  hp ← of_option IndexError (horizon_probs !! b);
  pos_probs_flat ← gather (mjoin hp) masked_flat_idx;
  sel_flat ← select_flat kb pos_probs_flat masked_flat_idx;
  if P =? 0 then Raise ZeroDivisionError else
  let h_sel := (λ s, s / P) <$> sel_flat in
  let p_sel := (λ s, s mod P) <$> sel_flat in
  if length h_sel =? 0 then Ok st else
  commit_groups b h_sel p_sel predicted_indices st.

(** Lines 112-127 and 177-183: one scoring pass. With [sampling] the chosen
    class is drawn from the categorical distribution, otherwise it is the
    argmax. Returns [max_probs], [predicted_indices] and the generator. *)
Definition score_pass (sampling : bool) (st : decode_state Latent) (rng : Rng)
    : result (tensor3 F * tensor3 nat * Rng) :=
  '(logits, _, _, rng) ←
    forward self_training B (T_ctx + H) P (input_latents st) false conditioning None rng;
  let scaled_logits :=
    if temperature_on temperature then map3 (scale_row temperature) logits else logits in
  let probs := map3 softmax scaled_logits in
  let max_probs := map3 (λ r, (row_max r).1) probs in
  if sampling then
    '(sampled, rng) ← categorical_sample probs rng;
    Ok (max_probs, sampled, rng)
  else Ok (max_probs, map3 (λ r, (row_max r).2) probs, rng).

Definition P_total : Z := Z.of_nat (H * P).

(** Lines 109-169: the body of [for m in range(num_steps)], up to the early
    exit test. *)
Definition decode_step (m : nat) (st : decode_state Latent) (rng : Rng)
    : result (decode_state Latent * Rng) :=
  n_tokens_raw ← exp_schedule_torch schedule_k (Z.of_nat m) num_steps P_total;
  '(max_probs, predicted_indices, rng) ← score_pass (temperature_on temperature) st rng;
  let horizon_probs := py_last H <$> max_probs in
  st ← foldM (unmask_batch_element P_total n_tokens_raw horizon_probs predicted_indices)
             st (seq 0 B);
  Ok (st, rng).

(** Lines 108-173: the loop, with its [break] when no position is masked. *)
Fixpoint decode_loop (steps : list nat) (st : decode_state Latent) (rng : Rng)
    : result (decode_state Latent * Rng) :=
  match steps with
  | [] => Ok (st, rng)
  | m :: steps' =>
      '(st, rng) ← decode_step m st rng;
      if negb (any3 (mask st)) then Ok (st, rng) else decode_loop steps' st rng
  end.

(** Lines 184-198: the body of the final [for b in range(B)]. *)
Definition complete_batch_element (predicted_indices : tensor3 nat)
    (st : decode_state Latent) (b : nat) : result (decode_state Latent) :=
  m_b ← of_option IndexError (mask st !! b);
  let hp := where2 m_b in
  let h_idx := fst <$> hp in
  let p_idx := snd <$> hp in
  if length h_idx =? 0 then Ok st else
  commit_groups b h_idx p_idx predicted_indices st.

(** Lines 176-198: the final completion. *)
Definition final_completion (st : decode_state Latent) (rng : Rng)
    : result (decode_state Latent * Rng) :=
  if any3 (mask st) then
    '(_, predicted_indices, rng) ← score_pass false st rng;
    st ← foldM (complete_batch_element predicted_indices) st (seq 0 B);
    Ok (st, rng)
  else Ok (st, rng).

(** Lines 93-97: the working grid and the mask at loop entry. *)
Definition initial_state (context_latents : tensor3 Latent) : decode_state Latent :=
  let mask_latents := replicate H (replicate P mask_token) in
  DecodeState ((λ ctx_b, ctx_b ++ mask_latents) <$> context_latents)
              (replicate B (replicate H (replicate P true)))
              [].

(** [forward_inference] up to its [return]: the final locals. *)
Definition forward_inference_state (context_latents : tensor3 Latent) (rng : Rng)
    : result (decode_state Latent * Rng) :=
  let st := initial_state context_latents in
  '(st, rng) ← decode_loop (seq 0 (Z.to_nat num_steps)) st rng;
  '(st, rng) ← final_completion st rng;
  if verify_mask && any3 (mask st) then Raise AssertionError else Ok (st, rng).

(** [DynamicsModel.forward_inference], lines 80-205. *)
Definition forward_inference (context_latents : tensor3 Latent) (rng : Rng)
    : result (tensor3 Latent) :=
  '(st, _) ← forward_inference_state context_latents rng;
  Ok (input_latents st).

(** A result with its generator replaced. *)
Definition with_rng {S : Type} (rng : Rng) (r : result (S * Rng)) : result (S * Rng) :=
  match r with
  | Ok (s, _) => Ok (s, rng)
  | Raise e => Raise e
  end.

(** The number of still-masked horizon positions of batch element [b]. *)
Definition num_masked (m : tensor3 bool) (b : nat) : nat :=
  match m !! b with
  | Some m_b => length (where_true (mjoin m_b))
  | None => 0
  end.

(** The number of positions to commit as the specification words it:
    [clamp(n - numResolved, floor = max(totalMaskable/16, 1), ceiling = numMasked)],
    the ceiling applied last. *)
Definition spec_commit_count (n totalMaskable numMasked : Z) : Z :=
  let numResolved := (totalMaskable - numMasked)%Z in
  Z.min (Z.max (n - numResolved) (Z.max (totalMaskable / 16) 1)) numMasked.

(** The effect of committing the horizon coordinates [sel] of batch element
    [b]: their mask bits become false, every other mask bit and every grid
    cell outside [(b, T_ctx + h, p)] stays, the assigned cells [new] extend
    the log, shapes stay, and the coordinates were in range. *)
Definition commits (b : nat) (sel : list (nat * nat)) (new : list (nat * nat * nat))
    (st st' : decode_state Latent) : Prop :=
  (∀ h p, (h, p) ∈ sel → get3 (mask st') b h p = Some false)
  ∧ (∀ b' h p, ¬ (b' = b ∧ (h, p) ∈ sel) → get3 (mask st') b' h p = get3 (mask st) b' h p)
  ∧ (∀ b' t p, ¬ (b' = b ∧ ∃ h, t = T_ctx + h ∧ (h, p) ∈ sel) →
       get3 (input_latents st') b' t p = get3 (input_latents st) b' t p)
  ∧ writes st' = writes st ++ new
  ∧ (∀ B' T' P', has_shape3 B' T' P' (mask st') = has_shape3 B' T' P' (mask st))
  ∧ (∀ B' T' P', has_shape3 B' T' P' (input_latents st')
                 = has_shape3 B' T' P' (input_latents st))
  ∧ (∀ h p, (h, p) ∈ sel → is_Some (get3 (mask st) b h p)).

(** Horizon cell [(b, h, p)] is committed between [st] and [st']: its mask
    bit flips from true to false. *)
Definition flips (st st' : decode_state Latent) (b h p : nat) : Prop :=
  get3 (mask st) b h p = Some true ∧ get3 (mask st') b h p = Some false.

(** One or more decode steps lead from [st] to [st']: mask bits only go
    from true to false, the mask and the grid keep their shapes, and the
    cells assigned in between are, each once, the cells of the flipped mask
    bits; every other grid cell keeps its value. *)
Definition advances (st st' : decode_state Latent) : Prop :=
  (∀ b h p, get3 (mask st) b h p = Some false → get3 (mask st') b h p = Some false)
  ∧ (∀ b h p, get3 (mask st') b h p = Some true → get3 (mask st) b h p = Some true)
  ∧ (∀ b h p, is_Some (get3 (mask st') b h p) ↔ is_Some (get3 (mask st) b h p))
  ∧ (∀ B' T' P', has_shape3 B' T' P' (mask st') = has_shape3 B' T' P' (mask st))
  ∧ (∀ B' T' P', has_shape3 B' T' P' (input_latents st')
                 = has_shape3 B' T' P' (input_latents st))
  ∧ ∃ new, writes st' = writes st ++ new
      ∧ NoDup new
      ∧ (∀ b t p, (b, t, p) ∈ new ↔ ∃ h, t = T_ctx + h ∧ flips st st' b h p)
      ∧ (∀ b t p, (b, t, p) ∉ new →
           get3 (input_latents st') b t p = get3 (input_latents st) b t p).

(** The working grid has shape [B, T_ctx + H, P] and the mask [B, H, P]. *)
Definition well_shaped (st : decode_state Latent) : Prop :=
  has_shape3 B (T_ctx + H) P (input_latents st) = true
  ∧ has_shape3 B H P (mask st) = true.

(** The states the decoding loop and the final completion go through. *)
Inductive reachable (context_latents : tensor3 Latent) : decode_state Latent → Prop :=
  | reachable_init : reachable context_latents (initial_state context_latents)
  | reachable_step m st rng st' rng' :
      reachable context_latents st →
      decode_step m st rng = Ok (st', rng') →
      reachable context_latents st'
  | reachable_final st rng st' rng' :
      reachable context_latents st →
      final_completion st rng = Ok (st', rng') →
      reachable context_latents st'.

End Inference.

(** Every cell assigned so far holds a value that satisfies [R]. *)
Definition written_cells {Latent : Type} (R : nat → nat → nat → Latent → Prop)
    (st : decode_state Latent) : Prop :=
  ∀ b t p, (b, t, p) ∈ writes st →
    ∃ v, get3 (input_latents st) b t p = Some v ∧ R b t p v.

(** The rows the final scoring pass takes its argmax of (lines 177-181):
    the logits of the grid, divided by the temperature when it is positive. *)
Definition scaled_logits_of {F Latent Emb Row Cond : Type}
    `{!DynamicsModel Latent Emb Row Cond, !RowOps F Row}
    (conditioning : option Cond) (temperature : Q) (grid : tensor3 Latent) : tensor3 Row :=
  let logits := predict_logits (map3 to_float32 grid) conditioning in
  if temperature_on temperature then map3 (scale_row temperature) logits else logits.

(** [<] is a strict weak order on the entries of [values]: of two entries
    one is not less than the other, and "not less than" is transitive (no
    entry is a nan). *)
Definition comparable {F : Type} `{!FloatOps F} (values : list F) : Prop :=
  (∀ x y, x ∈ values → y ∈ values → F_ltb x y = false ∨ F_ltb y x = false)
  ∧ (∀ x y z, x ∈ values → y ∈ values → z ∈ values →
       F_ltb x y = false → F_ltb y z = false → F_ltb x z = false).

(** ** The training script, [scripts/train_dynamics.py] *)

(** *** The pixel mask of the visualisation, lines 201-213 *)

(** Python's [a // b] and [a % b] on non-negative ints. *)
Definition py_floordiv (a b : nat) : result nat :=
  if b =? 0 then Raise ZeroDivisionError else Ok (a / b).

Definition py_mod (a b : nat) : result nat :=
  if b =? 0 then Raise ZeroDivisionError else Ok (a mod b).

(** Tensors of rank 4, indexed [b][t][y][c]. *)
Abbreviation tensor4 A := (list (list (list (list A)))).

Definition get4 {A : Type} (x : tensor4 A) (b t y c : nat) : option A :=
  m ← x !! b; g ← m !! t; r ← g !! y; r !! c.

(** [g[r0:r0+size, c0:c0+size] = 1] on a matrix [g]: a slice is clipped to
    the matrix, and an empty slice assigns nothing. *)
Definition fill_block (r0 c0 size : nat) (g : list (list Q)) : list (list Q) :=
  imap (λ y row,
    if (r0 <=? y) && (y <? r0 + size)
    then imap (λ c v, if (c0 <=? c) && (c <? c0 + size) then 1%Q else v) row
    else row) g.

(** Lines 210-213: the body of the innermost loop, for token [p] of frame
    [(b, t)]; [frame_size] is [W]. *)
Definition mark_token (frame_size patch_size : nat) (mask_positions : tensor3 bool)
    (b t : nat) (pixel_mask : tensor4 Q) (p : nat) : result (tensor4 Q) :=
  masked ← read3 mask_positions b t p;
  if masked : bool then
    n ← py_floordiv frame_size patch_size;
    q ← py_floordiv p n;
    let patch_row := q * patch_size in
    n ← py_floordiv frame_size patch_size;
    r ← py_mod p n;
    let patch_col := r * patch_size in
    Ok (alter (alter (fill_block patch_row patch_col patch_size) t) b pixel_mask)
  else Ok pixel_mask.

(** Lines 202-213: the pixel-level mask of the visualisation. [B], [T], [P]
    are [mask_positions.shape]; [frame_size] and [patch_size] are the
    configuration's sizes, non-negative ints; the floats 0 and 1 of the mask
    are rationals. *)
Definition pixel_mask_of (frame_size patch_size : nat) (B T P : nat)
    (mask_positions : tensor3 bool) : result (tensor4 Q) :=
  let H := frame_size in
  let W := frame_size in
  let pixel_mask := replicate B (replicate T (replicate H (replicate W 0%Q))) in
  foldM (λ pixel_mask b,
    foldM (λ pixel_mask t,
      foldM (mark_token W patch_size mask_positions b t) pixel_mask (seq 0 P))
    pixel_mask (seq 0 T))
  pixel_mask (seq 0 B).

(** Pixel [(y, c)] lies in the block that token [p] marks. *)
Definition in_patch (frame_size patch_size p y c : nat) : bool :=
  let n := frame_size / patch_size in
  (p / n * patch_size <=? y) && (y <? p / n * patch_size + patch_size)
  && (p mod n * patch_size <=? c) && (c <? p mod n * patch_size + patch_size).

(** Some masked token of [ps] marks pixel [(y, c)] of frame [(b, t)]. *)
Definition marked (frame_size patch_size : nat) (mask_positions : tensor3 bool)
    (ps : list nat) (b t y c : nat) : bool :=
  existsb (λ p, bool_decide (get3 mask_positions b t p = Some true)
                && in_patch frame_size patch_size p y c) ps.

(** *** The batches of the training loop, lines 144-151 *)

(** The outcome of [next]: a value, or [StopIteration]. *)
Inductive fetched (A : Type) : Type :=
  | Fetched (a : A)
  | StopIteration.
Arguments Fetched {A} a.
Arguments StopIteration {A}.

(** The local [train_iter]: what the current iterator has yet to yield, with
    the number of iterators made from the loader so far. *)
Record batch_stream (Batch : Type) : Type := BatchStream {
  passes : nat;
  train_iter : list Batch
}.
Arguments BatchStream {Batch} _ _.
Arguments passes {Batch} _.
Arguments train_iter {Batch} _.

Section Batches.
Context {Batch : Type}.

(** [training_loader], by the batches its [e]-th iterator yields. *)
Variable training_loader : nat → list Batch.

(** [iter(training_loader)] *)
Definition py_iter (st : batch_stream Batch) : batch_stream Batch :=
  BatchStream (S (passes st)) (training_loader (passes st)).

(** [next(train_iter)] *)
Definition py_next (st : batch_stream Batch) : fetched (Batch * batch_stream Batch) :=
  match train_iter st with
  | [] => StopIteration
  | x :: rest => Fetched (x, BatchStream (passes st) rest)
  end.

(** Lines 147-151: the batch of one update. The second [next] is outside
    the [try]. *)
Definition next_batch (st : batch_stream Batch) : fetched (Batch * batch_stream Batch) :=
  match py_next st with
  | Fetched r => Fetched r
  | StopIteration => py_next (py_iter st)
  end.

(** Lines 146-151: the batches of [n] successive iterations of the loop; the
    rest of its body does not touch [train_iter]. *)
Fixpoint fetch_batches (n : nat) (st : batch_stream Batch)
    : fetched (list Batch * batch_stream Batch) :=
  match n with
  | 0 => Fetched ([], st)
  | S n' =>
      match next_batch st with
      | StopIteration => StopIteration
      | Fetched (x, st') =>
          match fetch_batches n' st' with
          | StopIteration => StopIteration
          | Fetched (xs, st'') => Fetched (x :: xs, st'')
          end
      end
  end.

(** Line 144, then the batches of the updates [0 .. n_updates - 1]. *)
Definition training_batches (n_updates : nat) : fetched (list Batch * batch_stream Batch) :=
  fetch_batches n_updates (py_iter (BatchStream 0 [])).

(** The batches of the iterators made so far, in order. *)
Definition yielded (st : batch_stream Batch) : list Batch :=
  mjoin (training_loader <$> seq 0 (passes st)).

End Batches.

(** ** A small executable instance

    Rational arithmetic stands for the floats, integers for the latent
    vectors, a causal running sum for the transformer and a linear
    congruential generator for the random source. It serves to run the
    definitions above on concrete inputs. *)

Module Example.

Definition expm1_taylor (x : Q) : Q := (x + x * x / 2 + x * x * x / 6)%Q.

#[export] Instance float_ops : FloatOps Q := {
  F_of_Z n := inject_Z (float32_of_Z n);
  F_truediv a b := (inject_Z a / inject_Z b)%Q;
  F_mul := Qmult;
  F_div := Qdiv;
  F_expm1 := expm1_taylor;
  F_ceil_item x := Ok (Qceiling x);
  F_ltb := Qltb
}.

#[export] Instance float32_values : Float32Values Q := {
  F_value x := Some x;
  F_of_Z_value n _ := eq_refl
}.

(** The running sum over time of each position's embeddings: the output at
    time [t] depends on the inputs at times up to [t] only. *)
Fixpoint causal_sum (acc : list Z) (m : list (list Z)) : list (list Z) :=
  match m with
  | [] => []
  | r :: m' =>
      let r' := zip_with Z.add acc r in
      r' :: causal_sum r' m'
  end.

Definition toy_transformer (x : tensor3 Z) (conditioning : option unit) : tensor3 Z :=
  (λ m, causal_sum (replicate (length (default [] (head m))) 0%Z) m) <$> x.

Definition toy_logits (e : Z) : list Q :=
  [inject_Z (e mod 3); inject_Z ((e + 1) mod 5); inject_Z ((2 * e) mod 7)].

#[export] Instance dynamics_model : DynamicsModel Z Z (list Q) unit := {
  to_float32 x := x;
  mask_token := (-1)%Z;
  latent_embed x := x;
  pos_spatial_dec p := Z.of_nat p;
  emb_add := Z.add;
  transformer := toy_transformer;
  output_mlp := toy_logits
}.

(** Normalised positive weights, in place of the exponentials. *)
Definition toy_softmax (row : list Q) : list Q :=
  let w := (λ x, x + 1)%Q <$> row in
  (λ x, x / Qsum w)%Q <$> w.

(** The largest entry and the first position that holds it. *)
Fixpoint max_from (best : Q) (best_i i : nat) (row : list Q) : Q * nat :=
  match row with
  | [] => (best, best_i)
  | x :: row' =>
      if Qltb best x then max_from x i (S i) row' else max_from best best_i (S i) row'
  end.

Definition toy_row_max (row : list Q) : Q * nat :=
  match row with
  | [] => (0%Q, 0)
  | x :: row' => max_from x 0 1 row'
  end.

(** One minus the probability of the target; infinite, as the negative
    logarithm is, when that probability is 0. *)
Definition toy_cross_entropy (row : list Q) (target : nat) : xfloat :=
  let p := default 0%Q (toy_softmax row !! target) in
  if Qeq_bool p 0 then PosInf else Finite (1 - p).

#[export] Instance row_ops : RowOps Q (list Q) := {
  num_classes := length;
  cross_entropy_value := toy_cross_entropy;
  scale_row t row := (λ x, x / t)%Q <$> row;
  softmax := toy_softmax;
  row_max := toy_row_max
}.

Definition lcg_next (s : Z) : Z := ((s * 1103515245 + 12345) mod 2147483648)%Z.

Fixpoint lcg_draws (n : nat) (s : Z) : list Z * Z :=
  match n with
  | 0 => ([], s)
  | S n' => let '(l, s') := lcg_draws n' (lcg_next s) in (s :: l, s')
  end.

Definition lcg_rand3 (B T P : nat) (s : Z) : tensor3 Q * Z :=
  let '(l, s') := lcg_draws (B * T * P) s in
  let u := (λ z, (z mod 1000) # 1000)%Z <$> l in
  (reshape (replicate B T) (reshape (replicate (B * T) P) u), s').

Definition lcg_randint2 (high B P : nat) (s : Z) : list (list nat) * Z :=
  let '(l, s') := lcg_draws (B * P) s in
  (reshape (replicate B P) ((λ z, Z.to_nat (z mod Z.of_nat high)) <$> l), s').

Definition lcg_categorical (probs : tensor3 (list Q)) (s : Z) : tensor3 nat * Z :=
  let rows := flatten3 probs in
  let '(l, s') := lcg_draws (length rows) s in
  let idx := zip_with (λ (row : list Q) z, Z.to_nat (z mod Z.of_nat (length row))) rows l in
  (reshape (length <$> probs) (reshape (length <$> mjoin probs) idx), s').

#[export] Instance random_source : RandomSource Z (list Q) := {
  rand_scalar s := (((s mod 1000) # 1000)%Z, lcg_next s);
  rand3 := lcg_rand3;
  randint2 := lcg_randint2;
  categorical_sample probs s := Ok (lcg_categorical probs s)
}.

(** The tokenizer's index-to-latent map: codebook entry [i] is the latent [i]. *)
Definition index_to_latents (i : nat) : Z := Z.of_nat i.

(** A context of shape [B = 2], [T_ctx = 2], [P = 4]. *)
Definition context : tensor3 Z :=
  [ [ [0; 1; 2; 1]; [2; 0; 1; 1] ];
    [ [1; 1; 0; 2]; [0; 2; 2; 1] ] ]%Z.

(** Targets of shape [2, 2, 4]. *)
Definition targets : tensor3 nat :=
  [ [ [0; 1; 2; 1]; [2; 0; 1; 1] ];
    [ [1; 1; 0; 2]; [0; 2; 2; 1] ] ].

(** A decode call: horizon 3, 4 steps, steepness 5, given temperature. *)
Definition decode (temperature : Q) (verify : bool) (seed : Z)
    : result (decode_state Z * Z) :=
  forward_inference_state true 2 2 4 3 4 index_to_latents None 5%Q temperature verify
    context seed.

Definition decode_step_at (temperature : Q) (m : nat) (st : decode_state Z) (seed : Z)
    : result (decode_state Z * Z) :=
  decode_step true 2 2 4 3 4 index_to_latents None 5%Q temperature m st seed.

(** A training forward pass on the context. *)
Definition train (seed : Z) : result (tensor3 (list Q) * option (tensor3 bool) * option xfloat * Z) :=
  forward true 2 2 4 context true None (Some targets) seed.

(** The value of a run that returned. *)
Definition returned {A : Type} (d : A) (r : result A) : A :=
  match r with Ok a => a | Raise _ => d end.

(** The locals at the return of [decode 0 true 1], and the grid returned. *)
Definition decoded : decode_state Z * Z :=
  Eval vm_compute in returned (DecodeState [] [] [], 0%Z) (decode 0 true 1).

(** The state after the steps 0, 1 and 2 of a sampling run (temperature 1),
    and the state after its step 3. *)
Definition after_three_steps : decode_state Z * Z :=
  Eval vm_compute in
    returned (DecodeState [] [] [], 0%Z)
      ('(st, rng) ← decode_step_at 1 0 (initial_state 2 4 3 context) 1%Z;
       '(st, rng) ← decode_step_at 1 1 st rng;
       decode_step_at 1 2 st rng).

Definition after_one_step : decode_state Z * Z :=
  Eval vm_compute in
    returned (DecodeState [] [] [], 0%Z)
      (decode_step_at 1 0 (initial_state 2 4 3 context) 1%Z).

Definition after_four_steps : decode_state Z * Z :=
  Eval vm_compute in
    returned (DecodeState [] [] [], 0%Z)
      (decode_step_at 1 3 after_three_steps.1 after_three_steps.2).

(** The result of [train 7]. *)
Definition trained : tensor3 (list Q) * option (tensor3 bool) * option xfloat * Z :=
  Eval vm_compute in returned ([], None, None, 0%Z) (train 7).

(** The value of the schedule at step 0 of 4, for [P_total = 12]. *)
Definition schedule_at_step_0 : Q :=
  Eval vm_compute in returned 0%Q (exp_schedule_torch 5%Q 0 4 (P_total 4 3)).

(** The locals at the return of a decode call with no step, temperature 1. *)
Definition decoded_without_steps : decode_state Z * Z :=
  Eval vm_compute in
    returned (DecodeState [] [] [], 0%Z)
      (forward_inference_state true 2 2 4 3 0 index_to_latents None 5%Q 1 true context 1%Z).

(** A context and targets of one frame: shape [2, 1, 4]. *)
Definition context_one_frame : tensor3 Z :=
  [ [ [0; 1; 2; 1] ]; [ [1; 1; 0; 2] ] ]%Z.

Definition targets_one_frame : tensor3 nat :=
  [ [ [0; 1; 2; 1] ]; [ [1; 1; 0; 2] ] ].

Definition trained_one_frame : tensor3 (list Q) * option (tensor3 bool) * option xfloat * Z :=
  Eval vm_compute in
    returned ([], None, None, 0%Z)
      (forward true 2 1 4 context_one_frame true None (Some targets_one_frame) 7%Z).

(** A mask of shape [1, 1, 4] for frames of 4 x 4 pixels in patches of 2 x 2:
    the tokens 1 and 2 are masked. *)
Definition token_mask : tensor3 bool := [ [ [false; true; true; false] ] ].

Definition pixel_mask_example : tensor4 Q :=
  Eval vm_compute in returned [] (pixel_mask_of 4 2 1 1 4 token_mask).

(** A loader of two batches per pass: pass [e] yields [2e] and [2e + 1]. *)
Definition two_batches (e : nat) : list nat := [2 * e; 2 * e + 1].

(** The confidences and the indices of the scoring pass of step 0 of the
    sampling run, with the generator after it. *)
Definition scores_at_step_0 : tensor3 Q * tensor3 nat * Z :=
  Eval vm_compute in
    returned ([], [], 0%Z)
      (score_pass true 2 2 4 3 None 1 (temperature_on 1) (initial_state 2 4 3 context) 1%Z).

(** Logits, targets and a mask of shape [1, 1, 2], position 0 masked; and
    other logits and targets that differ from them at position 1 only. *)
Definition loss_logits : tensor3 (list Q) := [ [ [ [1; 2; 3]; [0; 1; 0] ] ] ]%Q.
Definition loss_targets : tensor3 nat := [ [ [0; 1] ] ].
Definition loss_logits_other : tensor3 (list Q) := [ [ [ [1; 2; 3]; [5; 5; 5] ] ] ]%Q.
Definition loss_targets_other : tensor3 nat := [ [ [0; 2] ] ].
Definition loss_mask : tensor3 bool := [ [ [true; false] ] ].

Definition loss_value : xfloat :=
  Eval vm_compute in returned NaN (masked_cross_entropy loss_logits loss_targets loss_mask).

Definition loss_value_other : xfloat :=
  Eval vm_compute in
    returned NaN (masked_cross_entropy loss_logits_other loss_targets_other loss_mask).

End Example.

(** ** An instance whose logits have overflowed

    A row of this instance holds the logit 0 at one class and minus infinity
    at the others; read as probabilities it holds 1 at that class and 0 at
    the others. Its library functions are exact: the softmax of such a row is
    the row, its cross-entropy is 0 at the class of the finite logit and
    infinite at every other target, and a draw from it is that class. *)

Module Overflow.

Record hot_row : Type := HotRow { hot_classes : nat; hot_class : nat }.

#[export] Instance dynamics_model : DynamicsModel Z Z hot_row unit := {
  to_float32 x := x;
  mask_token := (-1)%Z;
  latent_embed x := x;
  pos_spatial_dec p := Z.of_nat p;
  emb_add := Z.add;
  transformer := Example.toy_transformer;
  output_mlp e := HotRow 2 (Z.to_nat (e mod 2))
}.

#[export] Instance row_ops : RowOps Q hot_row := {
  num_classes := hot_classes;
  cross_entropy_value row target := if target =? hot_class row then Finite 0 else PosInf;
  scale_row t row := row;
  softmax row := row;
  row_max row := (1%Q, hot_class row)
}.

#[export] Instance random_source : RandomSource Z hot_row := {
  rand_scalar s := (((s mod 1000) # 1000)%Z, Example.lcg_next s);
  rand3 := Example.lcg_rand3;
  randint2 := Example.lcg_randint2;
  categorical_sample probs s :=
    Ok (map3 hot_class probs, (Example.lcg_draws (length (flatten3 probs)) s).2)
}.

(** Latents and targets of one frame, shape [1, 1, 2]: the network gives
    both rows the finite logit at class 0, and the second target is class 1. *)
Definition latents : tensor3 Z := [ [ [0; 1] ] ]%Z.
Definition targets : tensor3 nat := [ [ [0; 1] ] ].


(** The logits the network gives them, and the mask of one frame. *)
Definition logits : tensor3 hot_row := [ [ [HotRow 2 0; HotRow 2 0] ] ].
Definition mask : tensor3 bool := [ [ [false; false] ] ].

Definition train (seed : Z)
    : result (tensor3 hot_row * option (tensor3 bool) * option xfloat * Z) :=
  forward (F:=Q) true 1 1 2 latents true None (Some targets) seed.

End Overflow.

(** * Properties *)

(** ** The error monad and the tensor operations *)

Lemma bind_Ok {A B : Type} (m : result A) (f : A → result B) (b : B) :
  m ≫= f = Ok b ↔ ∃ a, m = Ok a ∧ f a = Ok b.
Proof.
  destruct m as [a|e]; simpl; split.
  - intros Hf. by exists a.
  - by intros (a' & [= ->] & Hf).
  - done.
  - by intros (a' & [=] & _).
Qed.

Lemma of_option_Ok {A : Type} (e : exn) (o : option A) (a : A) :
  of_option e o = Ok a ↔ o = Some a.
Proof. destruct o; simpl; split; congruence. Qed.

(** Invert [H : ... = Ok _] through binds, pattern-matching lets and guards. *)
Ltac inv_ok H :=
  repeat first
    [ apply bind_Ok in H as (? & ? & H)
    | apply of_option_Ok in H
    | match type of H with
      | Ok _ = Ok _ => injection H as H
      | Raise _ = Ok _ => discriminate H
      | (let '(_, _) := ?p in _) = Ok _ => destruct p eqn:?
      | (if ?c then _ else _) = Ok _ => destruct c eqn:?
      | (match ?o with Some _ => _ | None => _ end) = Ok _ => destruct o eqn:?
      end ].

Lemma foldM_inv {A S : Type} (I : S → Prop) (f : S → A → result S) (l : list A) (s s' : S) :
  (∀ s a s', a ∈ l → I s → f s a = Ok s' → I s') →
  I s → foldM f s l = Ok s' → I s'.
Proof.
  revert s. induction l as [|a l IH]; simpl; intros s Hf Hs Hrun.
  - by injection Hrun as <-.
  - apply bind_Ok in Hrun as (s1 & Ha & Hrun).
    apply (IH s1); [|by eapply Hf; [left|..]|done].
    intros ? ? ? Hin. apply Hf. by right.
Qed.

(** What the body establishes for its own element, and later iterations
    keep, holds of every element at the end. *)
Lemma foldM_post {A S : Type} (Post : A → S → Prop) (f : S → A → result S)
    (l : list A) (s s' : S) :
  (∀ s a s', a ∈ l → f s a = Ok s' → Post a s') →
  (∀ a s b s', b ∈ l → Post a s → f s b = Ok s' → Post a s') →
  foldM f s l = Ok s' → ∀ a, a ∈ l → Post a s'.
Proof.
  revert s. induction l as [|x l IH]; simpl; intros s Hest Hkeep Hrun a Ha.
  - by apply elem_of_nil in Ha.
  - apply bind_Ok in Hrun as (s1 & Hx & Hrun).
    apply elem_of_cons in Ha as [->|Ha].
    + eapply (foldM_inv (Post x)); [|by eapply Hest; [left|]|exact Hrun].
      intros ? ? ? Hin. apply Hkeep. by right.
    + eapply (IH s1); [| |done|done].
      * intros ? ? ? Hin. apply Hest. by right.
      * intros ? ? ? ? Hin. apply Hkeep. by right.
Qed.

Lemma get3_set3 {A : Type} (x : tensor3 A) (b t p : nat) (v : A) (b' t' p' : nat) :
  get3 (set3 x b t p v) b' t' p' =
    if decide (b' = b ∧ t' = t ∧ p' = p) then (λ _, v) <$> get3 x b t p else get3 x b' t' p'.
Proof.
  unfold get3, set3. rewrite list_lookup_alter.
  destruct (decide (b = b')) as [<-|Hb].
  - destruct (x !! b) as [m|] eqn:Hm; simpl.
    + rewrite list_lookup_alter.
      destruct (decide (t = t')) as [<-|Ht].
      * destruct (m !! t) as [r|] eqn:Hr; simpl.
        -- rewrite list_lookup_insert.
           destruct (decide (p = p' ∧ p < length r)) as [[<- Hp]|Hn].
           ++ rewrite decide_True by done.
              by destruct (lookup_lt_is_Some_2 r p Hp) as [? ->].
           ++ destruct (decide (b = b ∧ t = t ∧ p' = p)) as [(_ & _ & ->)|]; [|done].
              rewrite (proj2 (lookup_ge_None r p)); [done|]. lia.
        -- by case_decide.
      * rewrite decide_False; [done|]. by intros (_ & -> & _).
    + by case_decide.
  - rewrite decide_False; [done|]. by intros (-> & _).
Qed.

Lemma write3_get3 {A : Type} (x x' : tensor3 A) (b t p : nat) (v : A) (b' t' p' : nat) :
  write3 x b t p v = Ok x' →
  get3 x' b' t' p' = if decide (b' = b ∧ t' = t ∧ p' = p) then Some v else get3 x b' t' p'.
Proof.
  unfold write3. destruct (get3 x b t p) eqn:Hg; [|done].
  intros [= <-]. rewrite get3_set3, Hg. by case_decide.
Qed.

Lemma write3_defined {A : Type} (x : tensor3 A) (b t p : nat) (v : A) :
  is_Some (get3 x b t p) → ∃ x', write3 x b t p v = Ok x'.
Proof. unfold write3. intros [a ->]. eauto. Qed.

Lemma get3_Some_lt {A : Type} (B T P : nat) (x : tensor3 A) (b t p : nat) (a : A) :
  has_shape3 B T P x = true → get3 x b t p = Some a → b < B ∧ t < T ∧ p < P.
Proof.
  unfold has_shape3, has_shape2, get3.
  intros [HB Hall]%andb_prop Hget.
  apply Nat.eqb_eq in HB. rewrite forallb_forall in Hall.
  destruct (x !! b) as [m|] eqn:Hm; [|done]. simpl in Hget.
  destruct (m !! t) as [r|] eqn:Hr; [|done]. simpl in Hget.
  pose proof (lookup_lt_Some _ _ _ Hm). pose proof (lookup_lt_Some _ _ _ Hr).
  pose proof (lookup_lt_Some _ _ _ Hget).
  apply list_elem_of_lookup_2, list_elem_of_In, Hall in Hm.
  apply andb_prop in Hm as [HT Hrows]. apply Nat.eqb_eq in HT.
  rewrite forallb_forall in Hrows.
  apply list_elem_of_lookup_2, list_elem_of_In, Hrows, Nat.eqb_eq in Hr. lia.
Qed.

Lemma get3_is_Some {A : Type} (B T P : nat) (x : tensor3 A) (b t p : nat) :
  has_shape3 B T P x = true → b < B → t < T → p < P → is_Some (get3 x b t p).
Proof.
  unfold has_shape3, has_shape2, get3.
  intros [HB Hall]%andb_prop Hb Ht Hp.
  apply Nat.eqb_eq in HB. rewrite forallb_forall in Hall.
  destruct (lookup_lt_is_Some_2 x b) as [m Hm]; [lia|]. rewrite Hm. simpl.
  pose proof Hm as Hin.
  apply list_elem_of_lookup_2, list_elem_of_In, Hall in Hin.
  apply andb_prop in Hin as [HT Hrows]. apply Nat.eqb_eq in HT.
  rewrite forallb_forall in Hrows.
  destruct (lookup_lt_is_Some_2 m t) as [r Hr]; [lia|]. rewrite Hr. simpl.
  apply list_elem_of_lookup_2, list_elem_of_In, Hrows, Nat.eqb_eq in Hr.
  apply lookup_lt_is_Some_2. lia.
Qed.

Lemma any3_false_get3 (m : tensor3 bool) :
  any3 m = false ↔ ∀ b t p, get3 m b t p ≠ Some true.
Proof.
  unfold any3, get3. split.
  - intros Hany b t p Hget.
    destruct (m !! b) as [mb|] eqn:Hb; [|done]. simpl in Hget.
    destruct (mb !! t) as [r|] eqn:Ht; [|done]. simpl in Hget.
    assert (existsb (existsb (existsb (λ v : bool, v))) m = true) as Hex; [|congruence].
    apply existsb_exists. exists mb. split; [by eapply list_elem_of_In, list_elem_of_lookup_2|].
    apply existsb_exists. exists r. split; [by eapply list_elem_of_In, list_elem_of_lookup_2|].
    apply existsb_exists. exists true. split; [by eapply list_elem_of_In, list_elem_of_lookup_2|done].
  - intros Hnone. apply not_true_is_false. intros Hex.
    apply existsb_exists in Hex as (mb & [b Hb]%list_elem_of_In%list_elem_of_lookup_1 & Hex).
    apply existsb_exists in Hex as (r & [t Ht]%list_elem_of_In%list_elem_of_lookup_1 & Hex).
    apply existsb_exists in Hex as (v & [p Hp]%list_elem_of_In%list_elem_of_lookup_1 & ->).
    apply (Hnone b t p). rewrite Hb. simpl. by rewrite Ht.
Qed.

Lemma forallb_alter {A : Type} (f : A → bool) (g : A → A) (i : nat) (l : list A) :
  (∀ y, f (g y) = f y) → forallb f (alter g i l) = forallb f l.
Proof.
  intros Hfg. revert i. induction l as [|a l IH]; intros [|i]; simpl; try done.
  - by rewrite Hfg.
  - f_equal. apply IH.
Qed.

Lemma has_shape3_set3 {A : Type} (B T P : nat) (x : tensor3 A) (b t p : nat) (v : A) :
  has_shape3 B T P (set3 x b t p v) = has_shape3 B T P x.
Proof.
  unfold has_shape3, set3. rewrite length_alter. f_equal.
  apply forallb_alter. intros m. unfold has_shape2.
  rewrite length_alter. f_equal.
  apply forallb_alter. intros r. by rewrite length_insert.
Qed.

Lemma write3_shape {A : Type} (B T P : nat) (x x' : tensor3 A) (b t p : nat) (v : A) :
  write3 x b t p v = Ok x' → has_shape3 B T P x' = has_shape3 B T P x.
Proof.
  unfold write3. destruct (get3 x b t p); [|done].
  intros [= <-]. apply has_shape3_set3.
Qed.

Lemma write3_in_range {A : Type} (x x' : tensor3 A) (b t p : nat) (v : A) :
  write3 x b t p v = Ok x' → is_Some (get3 x b t p).
Proof. unfold write3. destruct (get3 x b t p); [eauto|done]. Qed.

Lemma write3_domain {A : Type} (x x' : tensor3 A) (b t p : nat) (v : A) (b' t' p' : nat) :
  write3 x b t p v = Ok x' → is_Some (get3 x' b' t' p') ↔ is_Some (get3 x b' t' p').
Proof.
  intros Hw. rewrite (write3_get3 _ _ _ _ _ _ _ _ _ Hw).
  case_decide as Hd; [|done].
  destruct Hd as (-> & -> & ->). pose proof (write3_in_range _ _ _ _ _ _ Hw).
  split; eauto.
Qed.

(** A run of assignments [x[b, t, pos a] = val a] for [a] in [l]. *)
Lemma foldM_write3 {A X : Type} (b t : nat) (pos : X → nat) (val : X → A) (l : list X)
    (x x' : tensor3 A) :
  foldM (λ g a, write3 g b t (pos a) (val a)) x l = Ok x' →
  (∀ b' t' p', ¬ (b' = b ∧ t' = t ∧ p' ∈ pos <$> l) → get3 x' b' t' p' = get3 x b' t' p')
  ∧ (∀ p', p' ∈ pos <$> l → ∃ a, a ∈ l ∧ pos a = p' ∧ get3 x' b t p' = Some (val a))
  ∧ (∀ B T P, has_shape3 B T P x' = has_shape3 B T P x)
  ∧ (∀ p', p' ∈ pos <$> l → is_Some (get3 x b t p')).
Proof.
  revert x. induction l as [|a l IH]; cbn [foldM]; intros x Hrun.
  - injection Hrun as <-. repeat split; try done.
    + by intros p' ?%elem_of_nil.
    + by intros p' ?%elem_of_nil.
  - apply bind_Ok in Hrun as (x1 & Hw & Hrun).
    destruct (IH _ Hrun) as (Hframe & Hset & Hshape & Hdom).
    repeat split.
    + intros b' t' p' Hout. rewrite Hframe.
      * rewrite (write3_get3 _ _ _ _ _ _ _ _ _ Hw).
        rewrite decide_False; [done|].
        intros (-> & -> & ->). apply Hout. repeat split. rewrite fmap_cons. by left.
      * intros (-> & -> & Hin). apply Hout. repeat split. rewrite fmap_cons. by right.
    + intros p' Hin. rewrite fmap_cons in Hin.
      destruct (decide (p' ∈ pos <$> l)) as [Hl|Hl].
      * destruct (Hset _ Hl) as (a' & Ha' & Hpos & Hget).
        exists a'. split; [by right|done].
      * apply elem_of_cons in Hin as [->|Hin]; [|done].
        exists a. split; [by left|]. split; [done|].
        rewrite Hframe by (by intros (_ & _ & ?)).
        rewrite (write3_get3 _ _ _ _ _ _ _ _ _ Hw). by rewrite decide_True.
    + intros B T P. by rewrite Hshape, (write3_shape _ _ _ _ _ _ _ _ _ Hw).
    + intros p' Hin. rewrite fmap_cons in Hin.
      apply elem_of_cons in Hin as [->|Hin].
      * by eapply write3_in_range.
      * apply (write3_domain _ _ _ _ _ _ b t p' Hw). by apply Hdom.
Qed.

Lemma where_true_spec (v : list bool) (i : nat) : i ∈ where_true v ↔ v !! i = Some true.
Proof.
  unfold where_true. rewrite list_elem_of_filter, elem_of_seq.
  split; [by intros [? _]|]. intros Hi. split; [done|].
  apply lookup_lt_Some in Hi. lia.
Qed.

Lemma where_true_NoDup (v : list bool) : NoDup (where_true v).
Proof. apply NoDup_filter, NoDup_seq. Qed.

Lemma where2_spec (m : list (list bool)) (h p : nat) :
  (h, p) ∈ where2 m ↔ (r ← m !! h; r !! p) = Some true.
Proof.
  unfold where2. rewrite list_elem_of_join. split.
  - intros (l & Hin & Hl).
    apply list_elem_of_lookup in Hl as [i Hi].
    rewrite list_lookup_imap in Hi.
    destruct (m !! i) as [row|] eqn:Hrow; [|done].
    injection Hi as <-.
    apply list_elem_of_fmap in Hin as (p' & [= -> ->] & Hp).
    rewrite Hrow. simpl. by apply where_true_spec.
  - intros Hget. destruct (m !! h) as [row|] eqn:Hrow; [|done]. simpl in Hget.
    exists ((λ p, (h, p)) <$> where_true row). split.
    + apply list_elem_of_fmap. exists p. split; [done|]. by apply where_true_spec.
    + apply list_elem_of_lookup. exists h. by rewrite list_lookup_imap, Hrow.
Qed.

(** [p_sel[h_sel == uh]] holds the positions paired with [uh]. *)
Lemma masked_select_group (h_sel p_sel : list nat) (uh p : nat) :
  p ∈ masked_select p_sel ((λ h, h =? uh) <$> h_sel) ↔ (uh, p) ∈ zip h_sel p_sel.
Proof.
  revert h_sel. induction p_sel as [|q p_sel IH]; intros [|h h_sel]; simpl.
  - rewrite !elem_of_nil. tauto.
  - rewrite !elem_of_nil. tauto.
  - rewrite !elem_of_nil. tauto.
  - rewrite elem_of_cons. destruct (Nat.eqb_spec h uh) as [->|Hne].
    + rewrite elem_of_cons, IH. split; intros [?|?]; simplify_eq; auto.
    + rewrite IH. split; [auto|]. intros [?|?]; [simplify_eq|done].
Qed.

Lemma masked_select_group_NoDup (h_sel p_sel : list nat) (uh : nat) :
  NoDup (zip h_sel p_sel) → NoDup (masked_select p_sel ((λ h, h =? uh) <$> h_sel)).
Proof.
  revert h_sel. induction p_sel as [|q p_sel IH]; intros [|h h_sel]; simpl;
    try (intros; apply NoDup_nil_2).
  intros [Hnotin Hnd]%NoDup_cons. destruct (Nat.eqb_spec h uh) as [->|Hne].
  - apply NoDup_cons. split; [|by apply IH].
    by rewrite masked_select_group.
  - by apply IH.
Qed.

Lemma torch_unique_spec (h_sel : list nat) (h : nat) : h ∈ torch_unique h_sel ↔ h ∈ h_sel.
Proof.
  unfold torch_unique. by rewrite merge_sort_Permutation, elem_of_remove_dups.
Qed.

Lemma torch_unique_NoDup (h_sel : list nat) : NoDup (torch_unique h_sel).
Proof.
  unfold torch_unique. rewrite merge_sort_Permutation. apply NoDup_remove_dups.
Qed.

Lemma mapM_result_Forall2 {A X : Type} (f : A → result X) (l : list A) (out : list X) :
  mapM_result f l = Ok out → Forall2 (λ a x, f a = Ok x) l out.
Proof.
  revert out. induction l as [|a l IH]; intros out Hrun; cbn [mapM_result] in Hrun.
  - injection Hrun as <-. constructor.
  - apply bind_Ok in Hrun as (x & Hx & Hrun).
    apply bind_Ok in Hrun as (xs & Hxs & [= <-]).
    constructor; [done|by apply IH].
Qed.

Lemma get3_map3 {A X : Type} (g : A → X) (x : tensor3 A) (b t p : nat) :
  get3 (map3 g x) b t p = g <$> get3 x b t p.
Proof.
  unfold get3, map3. rewrite list_lookup_fmap.
  destruct (x !! b) as [m|]; [|done]. simpl. rewrite list_lookup_fmap.
  destruct (m !! t) as [r|]; [|done]. simpl. by rewrite list_lookup_fmap.
Qed.

Lemma get3_zip_with3 {A X Y : Type} (g : A → X → Y) (m : tensor3 A) (x : tensor3 X)
    (b t p : nat) :
  get3 (zip_with (zip_with (zip_with g)) m x) b t p
  = match get3 m b t p, get3 x b t p with
    | Some a, Some v => Some (g a v)
    | _, _ => None
    end.
Proof.
  unfold get3. rewrite lookup_zip_with.
  destruct (m !! b) as [mb|]; [|done]. simpl.
  destruct (x !! b) as [xb|]; simpl; [|by destruct (mb !! t ≫= _)].
  rewrite lookup_zip_with.
  destruct (mb !! t) as [mr|]; [|done]. simpl.
  destruct (xb !! t) as [xr|]; simpl; [|by destruct (mr !! p)].
  rewrite lookup_zip_with.
  destruct (mr !! p) as [a|]; [|done]. simpl.
  by destruct (xr !! p).
Qed.

(** ** [DynamicsModel.forward] *)

Lemma Qsum_indicator (l : list bool) :
  Qsum ((λ m : bool, if m then 1%Q else 0%Q) <$> l)
  == inject_Z (Z.of_nat (length (filter (λ m, m = true) l))).
Proof.
  induction l as [|v l IH]; [reflexivity|].
  rewrite fmap_cons. change (Qsum (?x :: ?xs)) with (x + Qsum xs)%Q. rewrite IH.
  destruct v.
  - rewrite filter_cons_True by done. cbn [length].
    rewrite Nat2Z.inj_succ, <- Z.add_1_l, inject_Z_plus. reflexivity.
  - rewrite filter_cons_False by done. ring.
Qed.

Lemma Qmax_inject_Z (a b : Z) : Qmax (inject_Z a) (inject_Z b) == inject_Z (Z.max a b).
Proof.
  destruct (Z.le_ge_cases a b) as [Hab|Hab].
  - rewrite Z.max_r by done. apply Q.max_r. by rewrite <- Zle_Qle.
  - rewrite Z.max_l by done. apply Q.max_l. by rewrite <- Zle_Qle.
Qed.

Lemma Qsum_all_zero (l : list Q) : Forall (λ x, x == 0) l → Qsum l == 0.
Proof.
  induction 1 as [|x l Hx _ IH]; simpl; [reflexivity|].
  fold (Qsum l). rewrite Hx, IH. ring.
Qed.

(** *** The floats of the loss *)

Lemma xeq_refl (x : xfloat) : xeq x x.
Proof. by destruct x. Qed.

Lemma xeq_sym (x y : xfloat) : xeq x y → xeq y x.
Proof. destruct x, y; simpl; intros H; try done; by symmetry. Qed.

Lemma xeq_trans (x y z : xfloat) : xeq x y → xeq y z → xeq x z.
Proof. destruct x, y, z; simpl; intros H1 H2; try done; by rewrite H1. Qed.

Lemma xadd_xeq (x x' y y' : xfloat) : xeq x x' → xeq y y' → xeq (xadd x y) (xadd x' y').
Proof.
  destruct x, x', y, y'; simpl; intros Hx Hy; try done; by rewrite Hx, Hy.
Qed.

Lemma xmul_xeq (x x' y y' : xfloat) : xeq x x' → xeq y y' → xeq (xmul x y) (xmul x' y').
Proof.
  destruct x, x', y, y'; simpl; intros Hx Hy; try done;
    rewrite ?Hx, ?Hy; try apply xeq_refl; reflexivity.
Qed.

Lemma xinv_xeq (x x' : xfloat) : xeq x x' → xeq (xinv x) (xinv x').
Proof.
  destruct x, x'; simpl; intros Hx; try done. rewrite Hx.
  destruct (Qeq_bool q0 0); simpl; [done|]. by rewrite Hx.
Qed.

Lemma xdiv_xeq (x x' y y' : xfloat) : xeq x x' → xeq y y' → xeq (xdiv x y) (xdiv x' y').
Proof. intros Hx Hy. by apply xmul_xeq, xinv_xeq. Qed.

Lemma xsum_xeq (l l' : list xfloat) : Forall2 xeq l l' → xeq (xsum l) (xsum l').
Proof.
  induction 1 as [|x x' l l' Hx _ IH]; simpl; [reflexivity|]. by apply xadd_xeq.
Qed.

Lemma xdiv_one (x : xfloat) (d : Q) : d == 1 → xeq (xdiv x (Finite d)) x.
Proof.
  intros Hd. apply xeq_trans with (xdiv x (Finite 1)).
  - apply xdiv_xeq; [apply xeq_refl|done].
  - destruct x; try done. simpl. field.
Qed.

(** A finite float times [0.0] is 0; an infinity or a nan times [0.0] is nan. *)
Lemma xmul_zero_finite (x : xfloat) : xfinite x → xeq (xmul x (Finite 0)) (Finite 0).
Proof. destruct x; simpl; try done. intros _. ring. Qed.

Lemma xmul_zero_not_finite (x : xfloat) : ¬ xfinite x → xmul x (Finite 0) = NaN.
Proof. destruct x; simpl; try done; by intros []. Qed.

Lemma xadd_NaN_r (x : xfloat) : xadd x NaN = NaN.
Proof. by destruct x. Qed.

Lemma xsum_NaN (l : list xfloat) : NaN ∈ l → xsum l = NaN.
Proof.
  induction l as [|x l IH]; [by intros ?%elem_of_nil|].
  intros [<-|Hin]%elem_of_cons; simpl; [done|].
  change (foldr xadd (Finite 0) l) with (xsum l). rewrite IH by done. apply xadd_NaN_r.
Qed.

Lemma xsum_zero (l : list xfloat) :
  Forall (λ x, xeq x (Finite 0)) l → xeq (xsum l) (Finite 0).
Proof.
  induction 1 as [|x l Hx _ IH]; simpl; [reflexivity|].
  change (foldr xadd (Finite 0) l) with (xsum l).
  apply xeq_trans with (xadd (Finite 0) (Finite 0)); [by apply xadd_xeq|]. simpl. ring.
Qed.

Lemma unmasked_terms_zero (ces : list xfloat) (vs : list bool) :
  Forall (λ v, v = false) vs →
  Forall xfinite ces →
  Forall (λ x, xeq x (Finite 0))
    (zip_with (λ (x : xfloat) (z : bool), xmul x (Finite (if z then 1 else 0))) ces vs).
Proof.
  intros Hall. revert ces.
  induction Hall as [|v vs -> _ IH]; intros [|ce ces] Hfin; simpl; constructor.
  - apply xmul_zero_finite. by inversion Hfin.
  - apply IH. by inversion Hfin.
Qed.

Lemma unmasked_terms_nan (ces : list xfloat) (vs : list bool) :
  length ces = length vs →
  Forall (λ v, v = false) vs →
  Exists (λ x, ¬ xfinite x) ces →
  NaN ∈ zip_with (λ (x : xfloat) (z : bool), xmul x (Finite (if z then 1 else 0))) ces vs.
Proof.
  intros Hlen Hall. revert ces Hlen.
  induction Hall as [|v vs -> _ IH]; intros [|ce ces] Hlen Hex; try done.
  - by apply Exists_nil in Hex.
  - simpl. apply Exists_cons in Hex as [Hce|Hex].
    + rewrite (xmul_zero_not_finite _ Hce). left.
    + right. apply IH; [by injection Hlen|done].
Qed.

Lemma xsum_masked_ext (ces1 ces2 : list xfloat) (ms : list bool) :
  length ces1 = length ces2 →
  (∀ i c1 c2, ms !! i = Some true → ces1 !! i = Some c1 → ces2 !! i = Some c2 → c1 = c2) →
  (∀ i c, ms !! i = Some false → ces1 !! i = Some c → xfinite c) →
  (∀ i c, ms !! i = Some false → ces2 !! i = Some c → xfinite c) →
  xeq (xsum (zip_with (λ (x : xfloat) (z : bool), xmul x (Finite (if z then 1 else 0))) ces1 ms))
      (xsum (zip_with (λ (x : xfloat) (z : bool), xmul x (Finite (if z then 1 else 0))) ces2 ms)).
Proof.
  revert ces1 ces2. induction ms as [|m ms IH]; intros ces1 ces2 Hlen Hext Hfin1 Hfin2.
  - destruct ces1, ces2; try done.
  - destruct ces1 as [|c1 ces1], ces2 as [|c2 ces2]; try done.
    cbn [zip_with xsum foldr]. change (foldr xadd (Finite 0) ?l) with (xsum l).
    apply xadd_xeq.
    + destruct m.
      * rewrite (Hext 0 c1 c2) by done. apply xeq_refl.
      * apply xeq_trans with (Finite 0).
        -- apply xmul_zero_finite. by apply (Hfin1 0).
        -- apply xeq_sym, xmul_zero_finite. by apply (Hfin2 0).
    + apply IH; [by injection Hlen|..].
      * intros i x1 x2 Hm H1 H2. by apply (Hext (S i)).
      * intros i x Hm Hx. by apply (Hfin1 (S i)).
      * intros i x Hm Hx. by apply (Hfin2 (S i)).
Qed.


Lemma any3_false_flatten (m : tensor3 bool) :
  any3 m = false → Forall (λ v, v = false) (flatten3 m).
Proof.
  intros Hany. apply Forall_forall. intros v Hv.
  destruct v; [|done]. exfalso.
  unfold flatten3 in Hv.
  apply list_elem_of_join in Hv as (r & Hv & Hr).
  apply list_elem_of_join in Hr as (mb & Hr & Hmb).
  assert (any3 m = true) as Habs; [|congruence].
  unfold any3. apply existsb_exists. exists mb. split; [by apply list_elem_of_In|].
  apply existsb_exists. exists r. split; [by apply list_elem_of_In|].
  apply existsb_exists. exists true. split; [by apply list_elem_of_In|done].
Qed.

Section LossFacts.
Context {F Row : Type} `{!RowOps F Row}.

(** The per-row losses of a call that returned are the cross-entropy values,
    and every target is below the number of classes of its row. *)
Lemma cross_entropy_rows (rows : list Row) (ts : list nat) (loss_per : list xfloat) :
  mapM_result (λ rt, cross_entropy rt.1 rt.2) (zip rows ts) = Ok loss_per →
  loss_per = zip_with cross_entropy_value rows ts.
Proof.
  revert ts loss_per. induction rows as [|r rows IH]; intros [|t ts] loss_per;
    cbn [zip zip_with mapM_result]; try by intros [= <-].
  intros Hrun. apply bind_Ok in Hrun as (ce & Hce & Hrun).
  apply bind_Ok in Hrun as (rest & Hrest & [= <-]).
  unfold cross_entropy in Hce. cbn [fst snd] in Hce.
  destruct (t <? num_classes r); [|done]. injection Hce as <-.
  by rewrite (IH _ _ Hrest).
Qed.

Lemma masked_cross_entropy_Ok (logits : tensor3 Row) (targets : tensor3 nat)
    (m : tensor3 bool) (loss : xfloat) :
  masked_cross_entropy logits targets m = Ok loss →
  loss = xdiv (xsum (zip_with (λ (x : xfloat) (z : bool), xmul x (Finite (if z then 1 else 0)))
                       (zip_with cross_entropy_value (flatten3 logits) (flatten3 targets))
                       (flatten3 m)))
              (Finite (Qmax (Qsum ((λ v : bool, if v then 1%Q else 0%Q) <$> flatten3 m)) 1))
  ∧ length (flatten3 logits) = length (flatten3 targets)
  ∧ length (flatten3 targets) = length (flatten3 m).
Proof.
  unfold masked_cross_entropy. intros Hrun.
  destruct (length (flatten3 logits) =? length (flatten3 targets)) eqn:E1; [|done].
  cbn [negb] in Hrun. apply bind_Ok in Hrun as (loss_per & Hper & Hrun).
  apply cross_entropy_rows in Hper as ->.
  destruct (length (zip_with cross_entropy_value _ _) =? _) eqn:E2; [|done].
  cbn [negb] in Hrun. injection Hrun as <-.
  apply Nat.eqb_eq in E1, E2.
  rewrite length_zip_with, length_fmap in E2.
  split_and!; [by rewrite zip_with_fmap_r|done|lia].
Qed.

Lemma masked_cross_entropy_spec (logits : tensor3 Row) (targets : tensor3 nat)
    (m : tensor3 bool) (loss : xfloat) :
  masked_cross_entropy logits targets m = Ok loss →
  xeq loss (spec_masked_loss (flatten3 logits) (flatten3 targets) (flatten3 m)).
Proof.
  intros (-> & _ & _)%masked_cross_entropy_Ok. unfold spec_masked_loss.
  apply xdiv_xeq; [apply xeq_refl|]. simpl.
  rewrite Qsum_indicator. apply (Qmax_inject_Z _ 1).
Qed.

Lemma masked_cross_entropy_unmasked (logits : tensor3 Row) (targets : tensor3 nat)
    (m : tensor3 bool) (loss : xfloat) :
  masked_cross_entropy logits targets m = Ok loss →
  any3 m = false →
  Qmax (Qsum ((λ v : bool, if v then 1%Q else 0%Q) <$> flatten3 m)) 1 == 1
  ∧ (Forall xfinite (zip_with cross_entropy_value (flatten3 logits) (flatten3 targets)) →
       xeq loss (Finite 0))
  ∧ (Exists (λ ce, ¬ xfinite ce)
       (zip_with cross_entropy_value (flatten3 logits) (flatten3 targets)) →
       loss = NaN).
Proof.
  intros (-> & Hlen1 & Hlen2)%masked_cross_entropy_Ok Hany.
  pose proof (any3_false_flatten _ Hany) as Hall.
  assert (Qsum ((λ v : bool, if v then 1%Q else 0%Q) <$> flatten3 m) == 0) as Hden.
  { apply Qsum_all_zero, Forall_fmap. eapply Forall_impl; [exact Hall|].
    by intros ? ->. }
  assert (Qmax (Qsum ((λ v : bool, if v then 1%Q else 0%Q) <$> flatten3 m)) 1 == 1) as Hone
    by (by rewrite Hden).
  split_and!; [done| |].
  - intros Hfin. eapply xeq_trans; [by apply xdiv_one|].
    by apply xsum_zero, unmasked_terms_zero.
  - intros Hex. rewrite xsum_NaN; [done|].
    apply unmasked_terms_nan; [|done..]. rewrite length_zip_with. lia.
Qed.

End LossFacts.

Section ForwardFacts.
Context {F Latent Emb Row Cond Rng : Type}.
Context `{!FloatOps F, !DynamicsModel Latent Emb Row Cond, !RowOps F Row,
          !RandomSource Rng Row}.

Lemma write_false_keeps_anchor (m m' : tensor3 bool) (b t p b0 p0 : nat) :
  write3 m b t p false = Ok m' → has_anchor m b0 p0 → has_anchor m' b0 p0.
Proof.
  intros Hw [t0 Ht0]. exists t0. rewrite (write3_get3 _ _ _ _ _ _ _ _ _ Hw).
  by case_decide.
Qed.

Lemma clear_anchors_row_keeps (anchor_idx : list (list nat)) (b : nat) (ps : list nat)
    (m m' : tensor3 bool) (b0 p0 : nat) :
  foldM (λ m p,
      t ← of_option IndexError (row ← anchor_idx !! b; row !! p);
      write3 m b t p false) m ps = Ok m' →
  has_anchor m b0 p0 → has_anchor m' b0 p0.
Proof.
  intros Hrun Hm. revert Hm Hrun. apply (foldM_inv (λ s, has_anchor s b0 p0)).
  intros s p s' _ Hs Hstep. inv_ok Hstep.
  by eapply write_false_keeps_anchor.
Qed.

Lemma clear_anchors_anchor (B P : nat) (anchor_idx : list (list nat)) (m m' : tensor3 bool) :
  clear_anchors B P anchor_idx m = Ok m' →
  ∀ b p, b < B → p < P → has_anchor m' b p.
Proof.
  unfold clear_anchors. intros Hrun b p Hb Hp.
  assert (b ∈ seq 0 B) as Hbin by (apply elem_of_seq; lia).
  clear Hb. revert b Hbin p Hp.
  refine (foldM_post (λ b s, ∀ p, p < P → has_anchor s b p) _ _ _ _ _ _ Hrun).
  - intros s b s' _ Hinner p Hp.
    assert (p ∈ seq 0 P) as Hpin by (apply elem_of_seq; lia).
    clear Hp. revert p Hpin.
    refine (foldM_post (λ p s, has_anchor s b p) _ _ _ _ _ _ Hinner).
    + intros s0 p s0' _ Hstep. inv_ok Hstep.
      eexists. rewrite (write3_get3 _ _ _ _ _ _ _ _ _ Hstep). by rewrite decide_True.
    + intros p s0 p' s0' _ Hpost Hstep. inv_ok Hstep.
      by eapply write_false_keeps_anchor.
  - intros b s b' s' _ Hpost Hinner p Hp.
    eapply clear_anchors_row_keeps; [done|]. by apply Hpost.
Qed.

Lemma random_masking_anchor (B T P : nat) (x x' : tensor3 Latent) (m : tensor3 bool)
    (rng rng' : Rng) :
  random_masking B T P x rng = Ok (x', m, rng') →
  ∀ b p, b < B → p < P → ∃ t, t < T ∧ get3 m b t p = Some false.
Proof.
  unfold random_masking, where_mask_token. intros Hrun b p Hb Hp.
  inv_ok Hrun. simplify_eq.
  match goal with Hc : clear_anchors _ _ _ _ = Ok _ |- _ =>
    destruct (clear_anchors_anchor _ _ _ _ _ Hc b p Hb Hp) as [t Ht] end.
  exists t. split; [|done].
  match goal with Hw : (if ?c then _ else _) = Ok _ |- _ =>
    destruct c eqn:Hs; [|done] end.
  apply andb_prop in Hs as [Hs _].
  by destruct (get3_Some_lt _ _ _ _ _ _ _ _ Hs Ht) as (_ & ? & _).
Qed.

(** C3. In training mode, when [forward] returns, it returns a mask, and for
    every batch element [b < B] and position [p < P] some timestep [t < T]
    has its mask bit false: no position has all its timesteps masked. *)
Theorem forward_training_anchor_invariant (B T P : nat) (discrete_latents : tensor3 Latent)
    (conditioning : option Cond) (targets : option (tensor3 nat)) (rng rng' : Rng)
    (logits : tensor3 Row) (mask_positions : option (tensor3 bool)) (loss : option xfloat) :
  forward true B T P discrete_latents true conditioning targets rng
    = Ok (logits, mask_positions, loss, rng') →
  ∃ m, mask_positions = Some m
     ∧ ∀ b p, b < B → p < P → ∃ t, t < T ∧ get3 m b t p = Some false.
Proof.
  unfold forward. simpl andb. cbv iota. intros Hrun.
  apply bind_Ok in Hrun as ([[x mo] rng1] & Hmask & Hrun).
  apply bind_Ok in Hmask as ([[x1 m] rng2] & Hmask & Heq).
  injection Heq as -> <- ->.
  apply bind_Ok in Hrun as (l & _ & Hrun). injection Hrun as _ <- _ _.
  exists m. split; [done|]. by eapply random_masking_anchor.
Qed.

(** C10. With [training=False] the forward pass makes no random draw,
    substitutes no mask token, and returns the logits of the input latents
    with [None] for the mask and [None] for the loss; so it does on a module
    in evaluation mode, whatever the [training] argument. *)
Theorem forward_eval_returns_logits_only (self_training training : bool) (B T P : nat)
    (discrete_latents : tensor3 Latent) (conditioning : option Cond)
    (targets : option (tensor3 nat)) (rng : Rng) :
  forward self_training B T P discrete_latents false conditioning targets rng
  = Ok (predict_logits (map3 to_float32 discrete_latents) conditioning, None, None, rng)
  ∧ forward false B T P discrete_latents training conditioning targets rng
    = Ok (predict_logits (map3 to_float32 discrete_latents) conditioning, None, None, rng).
Proof.
  split; [reflexivity|].
  unfold forward. by rewrite andb_false_r.
Qed.

(** C9 (amended). With the [training] argument true on a module that is
    itself in training mode ([self.training]), and [targets=None], [forward]
    raises; once the masking went through, the exception is the
    [AssertionError] of line 69. And whenever [forward] returns with a loss
    of [None], the guard [training and self.training] was off. *)
Theorem forward_training_without_targets_raises (self_training training : bool) (B T P : nat)
    (discrete_latents : tensor3 Latent) (conditioning : option Cond) (rng : Rng) :
  (∃ e, forward true B T P discrete_latents true conditioning None rng = Raise e)
  ∧ (∀ x m rng', random_masking B T P (map3 to_float32 discrete_latents) rng = Ok (x, m, rng') →
       forward true B T P discrete_latents true conditioning None rng = Raise AssertionError)
  ∧ (∀ targets logits m rng',
       forward self_training B T P discrete_latents training conditioning targets rng
         = Ok (logits, m, None, rng') →
       training && self_training = false).
Proof.
  split; [|split].
  - unfold forward. simpl andb. cbv iota.
    destruct (random_masking B T P (map3 to_float32 discrete_latents) rng)
      as [[[x m] rng1]|e]; simpl; eauto.
  - intros x m rng' Hmask. unfold forward. simpl andb. cbv iota.
    by rewrite Hmask.
  - intros targets logits m rng' Hrun. unfold forward in Hrun.
    destruct (training && self_training); [|done].
    apply bind_Ok in Hrun as ([[x mo] rng1] & Hmask & Hrun).
    apply bind_Ok in Hrun as (l & Hloss & Hrun). injection Hrun as _ _ -> _.
    destruct targets; [|done]. destruct mo; [|done].
    apply bind_Ok in Hloss as (q & _ & Hq). done.
Qed.

(** C5. The loss [forward] returns in training mode is the sum over all
    rows of the row's cross-entropy times its mask indicator, divided by the
    number of masked rows floored at 1. With a mask that is false everywhere
    the denominator is 1, and the loss is 0 when every row's cross-entropy is
    finite; a row whose cross-entropy is infinite or nan makes it nan, the
    product with the indicator 0.0 of line 76 not being 0 then. *)
Theorem forward_loss_is_masked_mean (B T P : nat) (discrete_latents : tensor3 Latent)
    (conditioning : option Cond) (targets : tensor3 nat) (rng rng' : Rng)
    (logits : tensor3 Row) (mask_positions : option (tensor3 bool)) (loss : option xfloat) :
  forward true B T P discrete_latents true conditioning (Some targets) rng
    = Ok (logits, mask_positions, loss, rng') →
  ∃ m l, mask_positions = Some m ∧ loss = Some l
    ∧ xeq l (spec_masked_loss (flatten3 logits) (flatten3 targets) (flatten3 m))
    ∧ (any3 m = false →
         Qmax (Qsum ((λ v : bool, if v then 1%Q else 0%Q) <$> flatten3 m)) 1 == 1
         ∧ (Forall xfinite
              (zip_with cross_entropy_value (flatten3 logits) (flatten3 targets)) →
              xeq l (Finite 0))
         ∧ (Exists (λ ce, ¬ xfinite ce)
              (zip_with cross_entropy_value (flatten3 logits) (flatten3 targets)) →
              l = NaN)).
Proof.
  unfold forward. simpl andb. cbv iota. intros Hrun.
  apply bind_Ok in Hrun as ([[x mo] rng1] & Hmask & Hrun).
  apply bind_Ok in Hmask as ([[x1 m] rng2] & Hmask & Heq).
  injection Heq as -> <- ->.
  apply bind_Ok in Hrun as (lo & Hloss & Hrun). injection Hrun as <- <- <- _.
  apply bind_Ok in Hloss as (l & Hl & Heq). injection Heq as <-.
  exists m, l. split_and!; [done..| |].
  - by apply masked_cross_entropy_spec.
  - by apply masked_cross_entropy_unmasked.
Qed.

End ForwardFacts.

Section ForwardMore.
Context {F Latent Emb Row Cond Rng : Type}.
Context `{!FloatOps F, !DynamicsModel Latent Emb Row Cond, !RowOps F Row,
          !RandomSource Rng Row}.

Lemma random_masking_input (B T P : nat) (x x' : tensor3 Latent) (m : tensor3 bool)
    (rng rng' : Rng) :
  random_masking B T P x rng = Ok (x', m, rng') →
  has_shape3 B T P m = true ∧ has_shape3 B T P x = true
  ∧ ∀ b t p, get3 x' b t p
      = match get3 m b t p, get3 x b t p with
        | Some v, Some a => Some (if v then mask_token else a)
        | _, _ => None
        end.
Proof.
  unfold random_masking. intros Hrun.
  destruct (rand_scalar rng) as [r rng1]. destruct (rand3 B T P rng1) as [u rng2].
  destruct (T =? 0); [done|].
  destruct (randint2 T B P rng2) as [anchor_idx rng3].
  apply bind_Ok in Hrun as (m1 & Hclear & Hrun).
  apply bind_Ok in Hrun as (x1 & Hwhere & [= <- <- <-]).
  unfold where_mask_token in Hwhere.
  destruct (has_shape3 B T P m1) eqn:Hm; [|done].
  destruct (has_shape3 B T P x) eqn:Hx; [|done].
  injection Hwhere as <-. split_and!; [done..|].
  intros b t p. by rewrite get3_zip_with3.
Qed.

(** X2. What the network is given in a training pass (line 52): the mask
    token at the masked positions and the latent, converted to float32, at
    the others; the mask has the shape [B, T, P] of the latents; and every
    position [(b, p)] shows the network its true latent at one timestep at
    least, its anchor. *)
Theorem forward_training_network_input (B T P : nat) (discrete_latents : tensor3 Latent)
    (conditioning : option Cond) (targets : option (tensor3 nat)) (rng rng' : Rng)
    (logits : tensor3 Row) (mask_positions : option (tensor3 bool)) (loss : option xfloat) :
  forward true B T P discrete_latents true conditioning targets rng
    = Ok (logits, mask_positions, loss, rng') →
  ∃ m x',
    mask_positions = Some m
    ∧ logits = predict_logits x' conditioning
    ∧ has_shape3 B T P m = true
    ∧ (∀ b t p, get3 m b t p = Some true → get3 x' b t p = Some mask_token)
    ∧ (∀ b t p, get3 m b t p = Some false →
         ∃ v, get3 discrete_latents b t p = Some v ∧ get3 x' b t p = Some (to_float32 v))
    ∧ (∀ b p, b < B → p < P →
         ∃ t v, t < T ∧ get3 discrete_latents b t p = Some v
              ∧ get3 x' b t p = Some (to_float32 v)).
Proof.
  intros Hrun. unfold forward in Hrun. simpl in Hrun.
  apply bind_Ok in Hrun as ([[x1 m1] rng1] & Hmask & Hrun).
  apply bind_Ok in Hmask as ([[x' m] rng2] & Hmask & [= <- <- <-]).
  apply bind_Ok in Hrun as (l & _ & [= <- <- _ _]).
  destruct (random_masking_input _ _ _ _ _ _ _ _ Hmask) as (Hm & Hx & Hcells).
  assert (∀ b t p, get3 m b t p = Some false →
            ∃ v, get3 discrete_latents b t p = Some v
               ∧ get3 x' b t p = Some (to_float32 v)) as Hkept.
  { intros b t p Hfalse. rewrite Hcells, Hfalse, get3_map3.
    destruct (get3_Some_lt _ _ _ _ _ _ _ _ Hm Hfalse) as (Hb & Ht & Hp).
    destruct (get3_is_Some _ _ _ _ b t p Hx Hb Ht Hp) as [a Ha].
    rewrite get3_map3 in Ha.
    destruct (get3 discrete_latents b t p) as [v|]; [|done]. by exists v. }
  exists m, x'. split_and!; [done..| | |].
  - intros b t p Htrue. rewrite Hcells, Htrue.
    destruct (get3_Some_lt _ _ _ _ _ _ _ _ Hm Htrue) as (Hb & Ht & Hp).
    by destruct (get3_is_Some _ _ _ _ b t p Hx Hb Ht Hp) as [a ->].
  - done.
  - intros b p Hb Hp.
    destruct (random_masking_anchor _ _ _ _ _ _ _ _ Hmask b p Hb Hp) as (t & Ht & Hfalse).
    destruct (Hkept _ _ _ Hfalse) as (v & Hv & Hx'). by exists t, v.
Qed.

(** X3. A training pass on sequences of one frame ([T = 1]) masks nothing:
    the one timestep of every position is its anchor (lines 47-48), so the
    mask is all false. Its loss (lines 75-76) is 0 when the cross-entropy of
    every row is finite, and nan when that of some row is not. *)
Theorem forward_training_single_frame_loss (B P : nat) (discrete_latents : tensor3 Latent)
    (conditioning : option Cond) (targets : tensor3 nat) (rng rng' : Rng)
    (logits : tensor3 Row) (mask_positions : option (tensor3 bool)) (loss : option xfloat) :
  forward true B 1 P discrete_latents true conditioning (Some targets) rng
    = Ok (logits, mask_positions, loss, rng') →
  ∃ m l, mask_positions = Some m ∧ loss = Some l ∧ any3 m = false
    ∧ (Forall xfinite
         (zip_with cross_entropy_value (flatten3 logits) (flatten3 targets)) →
         xeq l (Finite 0))
    ∧ (Exists (λ ce, ¬ xfinite ce)
         (zip_with cross_entropy_value (flatten3 logits) (flatten3 targets)) →
         l = NaN).
Proof.
  intros Hrun. unfold forward in Hrun. simpl in Hrun.
  apply bind_Ok in Hrun as ([[x1 m1] rng1] & Hmask & Hrun).
  apply bind_Ok in Hmask as ([[x' m] rng2] & Hmask & [= <- <- <-]).
  apply bind_Ok in Hrun as (lo & Hloss & [= <- <- <- _]).
  apply bind_Ok in Hloss as (l & Hloss & [= <-]).
  destruct (random_masking_input _ _ _ _ _ _ _ _ Hmask) as (Hm & _ & _).
  assert (any3 m = false) as Hany.
  { apply any3_false_get3. intros b t p Htrue.
    destruct (get3_Some_lt _ _ _ _ _ _ _ _ Hm Htrue) as (Hb & Ht & Hp).
    destruct (random_masking_anchor _ _ _ _ _ _ _ _ Hmask b p Hb Hp) as (t' & Ht' & Hfalse).
    replace t' with t in Hfalse by lia. congruence. }
  exists m, l. split_and!; [done..| |];
    by apply (masked_cross_entropy_unmasked _ _ _ _ Hloss).
Qed.

(** X4. A training pass on sequences with no frame ([T = 0]) raises: the
    anchor draw [torch.randint(0, 0, (B, P))] of line 47 has an empty range. *)
Theorem forward_training_no_frame_raises (B P : nat) (discrete_latents : tensor3 Latent)
    (conditioning : option Cond) (targets : option (tensor3 nat)) (rng : Rng) :
  forward true B 0 P discrete_latents true conditioning targets rng = Raise RuntimeError.
Proof.
  unfold forward, random_masking. simpl.
  destruct (rand_scalar rng) as [r rng1]. by destruct (rand3 B 0 P rng1) as [u rng2].
Qed.

End ForwardMore.

(** *** The loss looks at masked positions only *)

Section LossFrame.
Context {F Row : Type} `{!RowOps F Row}.

(** X5. The masked cross-entropy (lines 70-76) looks at the masked
    positions only, as long as the cross-entropy of every unmasked row is
    finite: two calls that return, with the same mask, with logits and
    targets that agree wherever the mask is true, and with finite
    cross-entropies wherever it is false, give the same loss. (An unmasked
    row with an infinite or nan cross-entropy is not ignored: its product
    with 0.0 is nan; and a target out of range raises wherever it is.) *)
Theorem masked_cross_entropy_ignores_unmasked (logits1 logits2 : tensor3 Row)
    (targets1 targets2 : tensor3 nat) (m : tensor3 bool) (l1 l2 : xfloat) :
  masked_cross_entropy logits1 targets1 m = Ok l1 →
  masked_cross_entropy logits2 targets2 m = Ok l2 →
  (∀ i, flatten3 m !! i = Some true →
     flatten3 logits1 !! i = flatten3 logits2 !! i
     ∧ flatten3 targets1 !! i = flatten3 targets2 !! i) →
  (∀ i r t, flatten3 m !! i = Some false →
     flatten3 logits1 !! i = Some r → flatten3 targets1 !! i = Some t →
     xfinite (cross_entropy_value r t)) →
  (∀ i r t, flatten3 m !! i = Some false →
     flatten3 logits2 !! i = Some r → flatten3 targets2 !! i = Some t →
     xfinite (cross_entropy_value r t)) →
  xeq l1 l2.
Proof.
  intros (-> & Hl1 & Hm1)%masked_cross_entropy_Ok (-> & Hl2 & Hm2)%masked_cross_entropy_Ok
    Hagree Hfin1 Hfin2.
  apply xdiv_xeq; [|apply xeq_refl].
  apply xsum_masked_ext.
  - rewrite !length_zip_with. lia.
  - intros i c1 c2 Hm Hc1 Hc2.
    apply lookup_zip_with_Some in Hc1 as (r1 & t1 & -> & Hr1 & Ht1).
    apply lookup_zip_with_Some in Hc2 as (r2 & t2 & -> & Hr2 & Ht2).
    destruct (Hagree i Hm) as [Hr Ht].
    rewrite Hr1, Hr2 in Hr. rewrite Ht1, Ht2 in Ht. by injection Hr as ->; injection Ht as ->.
  - intros i c Hm (r & t & -> & Hr & Ht)%lookup_zip_with_Some. by apply (Hfin1 i).
  - intros i c Hm (r & t & -> & Hr & Ht)%lookup_zip_with_Some. by apply (Hfin2 i).
Qed.

End LossFrame.

(** ** Index tensors, [topk] and flat indices *)

Lemma gather_Ok {A : Type} (v : list A) (idx : list nat) (out : list A) :
  gather v idx = Ok out ↔ Forall2 (λ i a, v !! i = Some a) idx out.
Proof.
  unfold gather. revert out. induction idx as [|i idx IH]; cbn [mapM_result]; intros out.
  - split; [intros [= <-]; constructor|by intros ->%Forall2_nil_inv_l].
  - split.
    + intros Hrun. apply bind_Ok in Hrun as (a & Ha%of_option_Ok & Hrun).
      apply bind_Ok in Hrun as (out' & Hout & [= <-]).
      constructor; [done|by apply IH].
    + intros (a & out' & Ha & Hout & ->)%Forall2_cons_inv_l.
      rewrite Ha. simpl. apply IH in Hout. by rewrite Hout.
Qed.


Lemma gather_elem {A : Type} (v : list A) (idx : list nat) (out : list A) (a : A) :
  gather v idx = Ok out → a ∈ out → ∃ i, i ∈ idx ∧ v !! i = Some a.
Proof.
  intros Hg%gather_Ok Ha. induction Hg as [|i b idx out Hi _ IH].
  - by apply elem_of_nil in Ha.
  - apply elem_of_cons in Ha as [->|Ha].
    + exists i. split; [by left|done].
    + destruct (IH Ha) as (j & Hj & Hv). exists j. split; [by right|done].
Qed.

Lemma gather_NoDup {A : Type} (v : list A) (idx : list nat) (out : list A) :
  gather v idx = Ok out → NoDup v → NoDup idx → NoDup out.
Proof.
  intros Hg Hv Hidx. pose proof Hg as Hg2. apply gather_Ok in Hg2.
  clear Hg. induction Hg2 as [|i a idx out Hi Hrest IH].
  - apply NoDup_nil_2.
  - apply NoDup_cons in Hidx as [Hnotin Hidx].
    apply NoDup_cons. split; [|by apply IH].
    intros Ha. destruct (gather_elem v idx out a) as (j & Hj & Hja); [by apply gather_Ok|done|].
    assert (i = j) as -> by exact (NoDup_lookup v i j a Hv Hi Hja). done.
Qed.

Lemma gather_length {A : Type} (v : list A) (idx : list nat) (out : list A) :
  gather v idx = Ok out → length out = length idx.
Proof. intros Hg%gather_Ok. symmetry. by eapply Forall2_length. Qed.

Section TopK.
Context {F : Type} `{!FloatOps F}.

Lemma topk_NoDup (values : list F) (k : nat) : NoDup (topk values k).
Proof.
  unfold topk. eapply sublist_NoDup; [|apply sublist_take].
  rewrite merge_sort_Permutation. apply NoDup_seq.
Qed.


Lemma topk_length (values : list F) (k : nat) :
  length (topk values k) = k `min` length values.
Proof.
  unfold topk. rewrite length_take. f_equal.
  by rewrite merge_sort_Permutation, length_seq.
Qed.

Lemma select_flat_spec (kb : Z) (pos_probs_flat : list F) (masked_flat_idx sel : list nat) :
  select_flat kb pos_probs_flat masked_flat_idx = Ok sel →
  length pos_probs_flat = length masked_flat_idx →
  NoDup masked_flat_idx →
  (0 ≤ kb)%Z →
  NoDup sel
  ∧ (∀ s, s ∈ sel → s ∈ masked_flat_idx)
  ∧ Z.of_nat (length sel) = Z.min kb (Z.of_nat (length masked_flat_idx)).
Proof.
  unfold select_flat. intros Hrun Hlen Hnd Hkb.
  destruct (Z.gtb_spec (Z.of_nat (length pos_probs_flat)) kb) as [Hgt|Hle].
  - split_and!.
    + eapply gather_NoDup; [done|done|apply topk_NoDup].
    + intros s Hs. destruct (gather_elem _ _ _ _ Hrun Hs) as (i & _ & Hi).
      by eapply list_elem_of_lookup_2.
    + rewrite (gather_length _ _ _ Hrun), topk_length. lia.
  - injection Hrun as <-. split_and!; [done|done|lia].
Qed.


End TopK.

Section Confidence.
Context {F : Type} `{!FloatOps F}.

Lemma ranks_before_total (values : list F) :
  comparable values → Total (ranks_before values).
Proof.
  intros [Htotal _] i j. unfold ranks_before.
  destruct (values !! i) as [a|] eqn:Hi; [|by left].
  destruct (values !! j) as [b|] eqn:Hj; [|by left].
  apply Htotal; by eapply list_elem_of_lookup_2.
Qed.

Lemma Sorted_ranks_strong (values : list F) (l : list nat) :
  comparable values →
  Forall (λ i, i < length values) l →
  Sorted (ranks_before values) l → StronglySorted (ranks_before values) l.
Proof.
  intros [_ Htrans] Hrange Hsorted.
  induction Hsorted as [|i l Hsorted IH Hhd]; [constructor|].
  apply Forall_cons in Hrange as [Hi Hrange]. specialize (IH Hrange).
  constructor; [done|].
  destruct Hhd as [|j l Hij]; [constructor|].
  apply StronglySorted_inv in IH as [_ Hall].
  apply Forall_cons in Hrange as [Hj Hrange].
  constructor; [done|].
  rewrite Forall_forall in Hall. rewrite Forall_forall in Hrange.
  apply Forall_forall. intros k Hk. specialize (Hall k Hk). specialize (Hrange k Hk).
  unfold ranks_before in *.
  destruct (lookup_lt_is_Some_2 values i Hi) as [a Ha].
  destruct (lookup_lt_is_Some_2 values j Hj) as [b Hb].
  destruct (lookup_lt_is_Some_2 values k Hrange) as [c Hc].
  rewrite Ha, Hb, Hc in *.
  eapply (Htrans a b c); by eauto using list_elem_of_lookup_2.
Qed.

(** An entry [topk] selects is not less than an entry it leaves out. *)
Lemma topk_largest (values : list F) (k i j : nat) (a b : F) :
  comparable values →
  i ∈ topk values k → j ∉ topk values k →
  values !! i = Some a → values !! j = Some b →
  F_ltb a b = false.
Proof.
  intros Hcmp Hi Hj Ha Hb. unfold topk in *.
  set (s := merge_sort (ranks_before values) (seq 0 (length values))) in *.
  assert (StronglySorted (ranks_before values) (take k s ++ drop k s)) as Hsorted.
  { rewrite take_drop. apply Sorted_ranks_strong; [done| |].
    - apply Forall_forall. intros x Hx. unfold s in Hx.
      rewrite merge_sort_Permutation in Hx. apply elem_of_seq in Hx. lia.
    - pose proof (ranks_before_total values Hcmp). apply Sorted_merge_sort; apply _. }
  assert (j ∈ drop k s) as Hjd.
  { assert (j ∈ s) as Hjs.
    { unfold s. rewrite merge_sort_Permutation. apply elem_of_seq.
      apply lookup_lt_Some in Hb. lia. }
    rewrite <- (take_drop k s) in Hjs. by apply elem_of_app in Hjs as [?|?]. }
  pose proof (StronglySorted_app_1_elem_of _ _ _ _ _ Hsorted Hi Hjd) as Hrel.
  unfold ranks_before in Hrel. by rewrite Ha, Hb in Hrel.
Qed.

(** A masked position that is selected has a confidence not less than that
    of a masked position that is left out. *)
Lemma select_flat_confident (kb : Z) (pos_probs_flat : list F)
    (masked_flat_idx sel_flat : list nat) (i j s s' : nat) (a b : F) :
  select_flat kb pos_probs_flat masked_flat_idx = Ok sel_flat →
  comparable pos_probs_flat →
  NoDup masked_flat_idx →
  masked_flat_idx !! i = Some s → pos_probs_flat !! i = Some a →
  masked_flat_idx !! j = Some s' → pos_probs_flat !! j = Some b →
  s ∈ sel_flat → s' ∉ sel_flat →
  F_ltb a b = false.
Proof.
  unfold select_flat. intros Hrun Hcmp Hnd Hs Ha Hs' Hb Hin Hout.
  destruct (Z.of_nat (length pos_probs_flat) >? kb)%Z.
  - apply gather_Ok in Hrun.
    apply (topk_largest pos_probs_flat (Z.to_nat kb) i j); [done| | |done..].
    + apply list_elem_of_lookup in Hin as [n Hn].
      destruct (Forall2_lookup_r _ _ _ _ _ Hrun Hn) as (i' & Hi' & Hlook).
      rewrite (NoDup_lookup _ _ _ _ Hnd Hs Hlook). by eapply list_elem_of_lookup_2.
    + intros [n Hn]%list_elem_of_lookup. apply Hout.
      destruct (Forall2_lookup_l _ _ _ _ _ Hrun Hn) as (s0 & Hs0 & Hlook).
      assert (s0 = s') as -> by congruence. by eapply list_elem_of_lookup_2.
  - injection Hrun as <-. destruct Hout. by eapply list_elem_of_lookup_2.
Qed.

Lemma comparable_subseteq (values values' : list F) :
  values' ⊆ values → comparable values → comparable values'.
Proof.
  intros Hsub [Htotal Htrans]. split.
  - intros x y Hx Hy. apply Htotal; by apply Hsub.
  - intros x y z Hx Hy Hz. apply Htrans; by apply Hsub.
Qed.

End Confidence.

Lemma k_b_floor (Pt n nm : Z) : (1 ≤ k_b Pt n nm)%Z.
Proof. unfold k_b, k_floor. lia. Qed.

Lemma commit_count_arith (Pt n nm : Z) :
  Z.min (k_b Pt n nm) nm = spec_commit_count n Pt nm.
Proof.
  unfold k_b, k_floor, spec_commit_count. generalize (Pt / 16)%Z. lia.
Qed.

Lemma join_lookup_div_mod {A : Type} (P : nat) (m : list (list A)) (s : nat) :
  0 < P → Forall (λ r, length r = P) m →
  mjoin m !! s = (r ← m !! (s / P); r !! (s mod P)).
Proof.
  intros HP Hrows. apply option_eq. intros x.
  rewrite (join_lookup_Some_same_length P) by done. split.
  - intros (j & l & i & Hj & Hi & ->).
    assert (i < P).
    { apply lookup_lt_Some in Hi.
      by rewrite (proj1 (Forall_forall _ _) Hrows l (list_elem_of_lookup_2 _ _ _ Hj)) in Hi. }
    rewrite Nat.div_add_l, Nat.div_small, Nat.add_0_r by lia.
    rewrite Nat.add_comm, Nat.Div0.mod_add, Nat.mod_small by lia.
    by rewrite Hj.
  - intros Hget. destruct (m !! (s / P)) as [r|] eqn:Hr; [|done].
    exists (s / P), r, (s mod P). split_and!; [done|done|].
    rewrite Nat.mul_comm. apply Nat.div_mod_eq.
Qed.

Lemma where2_NoDup (m : list (list bool)) : NoDup (where2 m).
Proof.
  unfold where2.
  assert (∀ k, NoDup (mjoin (imap (λ h row, (λ p, (k + h, p)) <$> where_true row) m))) as Hk;
    [|apply (Hk 0)].
  induction m as [|row m IH]; intros k; [apply NoDup_nil_2|].
  cbn [imap]. rewrite (imap_ext _ (λ h row, (λ p, (S k + h, p)) <$> where_true row)); last first.
  { intros i x _. simpl. apply list_fmap_ext. intros _ p _. f_equal. lia. }
  change (mjoin (?l :: ?ls)) with (l ++ mjoin ls).
  apply NoDup_app. split_and!.
  - apply NoDup_fmap_2_strong; [|apply where_true_NoDup]. by intros p1 p2 _ _ [= ->].
  - intros [h p] (p' & [= -> ->] & _)%list_elem_of_fmap (l & Hin & Hl)%list_elem_of_join.
    apply list_elem_of_lookup in Hl as [i Hi]. rewrite list_lookup_imap in Hi.
    destruct (m !! i); [|done]. injection Hi as <-.
    apply list_elem_of_fmap in Hin as (p'' & [= Hk _] & _). lia.
  - apply IH.
Qed.

(** ** Shapes and the count of masked positions *)

Lemma shape3_length {A : Type} (B T P : nat) (x : tensor3 A) :
  has_shape3 B T P x = true → length x = B.
Proof. unfold has_shape3. intros [HB _]%andb_prop. by apply Nat.eqb_eq. Qed.

Lemma shape3_row {A : Type} (B T P : nat) (x : tensor3 A) (b : nat) (m : list (list A)) :
  has_shape3 B T P x = true → x !! b = Some m →
  length m = T ∧ Forall (λ r, length r = P) m.
Proof.
  unfold has_shape3, has_shape2. intros [_ Hall]%andb_prop Hm.
  rewrite forallb_forall in Hall.
  apply list_elem_of_lookup_2, list_elem_of_In, Hall in Hm.
  apply andb_prop in Hm as [HT Hrows]. apply Nat.eqb_eq in HT. split; [done|].
  apply Forall_forall. intros r Hr. rewrite forallb_forall in Hrows.
  by apply list_elem_of_In, Hrows, Nat.eqb_eq in Hr.
Qed.

Lemma length_join_same {A : Type} (P : nat) (m : list (list A)) :
  Forall (λ r, length r = P) m → length (mjoin m) = length m * P.
Proof. intros Hrows. by rewrite length_join, (sum_list_fmap_same P). Qed.

Lemma get3_row {A : Type} (x : tensor3 A) (b t p : nat) (m : list (list A)) :
  x !! b = Some m → get3 x b t p = (r ← m !! t; r !! p).
Proof. unfold get3. by intros ->. Qed.

Lemma where_true_filter (v v' : list bool) (sel : list nat) :
  length v' = length v →
  (∀ i, v' !! i = Some true ↔ v !! i = Some true ∧ i ∉ sel) →
  where_true v' = filter (λ i, i ∉ sel) (where_true v).
Proof.
  intros Hlen Hiff. unfold where_true. rewrite Hlen, list_filter_filter.
  apply list_filter_iff. intros i. rewrite Hiff. tauto.
Qed.

Lemma length_filter_remove (l sel : list nat) :
  NoDup l → NoDup sel → (∀ s, s ∈ sel → s ∈ l) →
  length (filter (λ i, i ∉ sel) l) + length sel = length l.
Proof.
  intros Hl Hsel Hsub.
  rewrite <- (Permutation_length (filter_app_complement (λ i, i ∉ sel) l)), length_app.
  f_equal. apply Permutation_length. symmetry.
  apply NoDup_Permutation; [by apply NoDup_filter|done|].
  intros s. rewrite list_elem_of_filter. split.
  - intros [Hin _]. by apply dec_stable.
  - intros Hin. split; [tauto|auto].
Qed.

(** Clearing the mask bits of the flat positions [sel] of a row of the
    mask lowers its count of masked positions by their number. *)
Lemma masked_count_after (P : nat) (mb mb' : list (list bool)) (sel : list nat) :
  Forall (λ r, length r = P) mb → Forall (λ r, length r = P) mb' →
  length mb' = length mb →
  NoDup sel →
  (∀ s, s ∈ sel → mjoin mb !! s = Some true) →
  (∀ h p, (h, p) ∈ (λ s, (s / P, s mod P)) <$> sel → (r ← mb' !! h; r !! p) = Some false) →
  (∀ h p, (h, p) ∉ (λ s, (s / P, s mod P)) <$> sel →
     (r ← mb' !! h; r !! p) = (r ← mb !! h; r !! p)) →
  length (where_true (mjoin mb')) + length sel = length (where_true (mjoin mb)).
Proof.
  intros Hrows Hrows' Hlen Hnd Hmasked Hset Hkeep.
  destruct (decide (P = 0)) as [->|HP].
  { assert (mjoin mb = []) as Hnil by (by apply nil_length_inv; rewrite (length_join_same 0), Nat.mul_0_r).
    assert (mjoin mb' = []) as -> by (by apply nil_length_inv; rewrite (length_join_same 0), Nat.mul_0_r).
    rewrite Hnil in *. destruct sel as [|s sel]; [done|].
    specialize (Hmasked s (list_elem_of_here _ _)). done. }
  rewrite (where_true_filter (mjoin mb) (mjoin mb') sel).
  - apply length_filter_remove; [apply where_true_NoDup|done|].
    intros s Hs. by apply where_true_spec, Hmasked.
  - by rewrite !(length_join_same P), Hlen.
  - intros i. rewrite !(join_lookup_div_mod P) by (done || lia).
    assert ((i / P, i mod P) ∈ (λ s, (s / P, s mod P)) <$> sel ↔ i ∈ sel) as Hin.
    { rewrite list_elem_of_fmap. split; [|by eauto].
      intros (s & [= Hd Hm] & Hs).
      pose proof (Nat.div_mod_eq i P). pose proof (Nat.div_mod_eq s P).
      assert (i = s) as -> by congruence. done. }
    destruct (decide (i ∈ sel)) as [Hi|Hi].
    + rewrite Hset by (by apply Hin). split; [done|tauto].
    + rewrite Hkeep by (by rewrite Hin). tauto.
Qed.

Lemma has_shape2_spec {A : Type} (T P : nat) (m : list (list A)) :
  has_shape2 T P m = true ↔ length m = T ∧ Forall (λ r, length r = P) m.
Proof.
  unfold has_shape2. rewrite andb_true_iff, Nat.eqb_eq, forallb_forall, Forall_forall.
  split; intros [HT Hrows]; (split; [done|]); intros r Hr.
  - by apply Nat.eqb_eq, Hrows, list_elem_of_In.
  - by apply Nat.eqb_eq, Hrows, list_elem_of_In.
Qed.

Lemma has_shape3_spec {A : Type} (B T P : nat) (x : tensor3 A) :
  has_shape3 B T P x = true
  ↔ length x = B ∧ Forall (λ m, length m = T ∧ Forall (λ r, length r = P) m) x.
Proof.
  unfold has_shape3. rewrite andb_true_iff, Nat.eqb_eq, forallb_forall, Forall_forall.
  split; intros [HB Hall]; (split; [done|]); intros m Hm.
  - by apply has_shape2_spec, Hall, list_elem_of_In.
  - by apply has_shape2_spec, Hall, list_elem_of_In.
Qed.

Lemma has_shape3_map3 {A X : Type} (f : A → X) (B T P : nat) (x : tensor3 A) :
  has_shape3 B T P x = true → has_shape3 B T P (map3 f x) = true.
Proof.
  rewrite !has_shape3_spec. unfold map3. intros [HB Hall].
  rewrite length_fmap. split; [done|].
  apply Forall_fmap. eapply Forall_impl; [exact Hall|].
  intros m [HT Hrows]. simpl. rewrite length_fmap. split; [done|].
  apply Forall_fmap. eapply Forall_impl; [exact Hrows|].
  intros r Hr. simpl. by rewrite length_fmap.
Qed.



Lemma foldM_defined {A S : Type} (I : S → Prop) (f : S → A → result S) (l : list A) (s : S) :
  (∀ s a, a ∈ l → I s → ∃ s', f s a = Ok s' ∧ I s') →
  I s → ∃ s', foldM f s l = Ok s' ∧ I s'.
Proof.
  revert s. induction l as [|a l IH]; cbn [foldM]; intros s Hf Hs; [by exists s|].
  destruct (Hf s a) as (s1 & Ha & Hs1); [by left|done|].
  destruct (IH s1) as (s' & Hrun & Hs'); [|done|].
  { intros ? ? Hin. apply Hf. by right. }
  exists s'. split; [|done]. apply bind_Ok. eauto.
Qed.

Lemma mapM_result_defined {A X : Type} (f : A → result X) (l : list A) :
  (∀ a, a ∈ l → ∃ x, f a = Ok x) → ∃ xs, mapM_result f l = Ok xs.
Proof.
  induction l as [|a l IH]; cbn [mapM_result]; intros Hf; [by eexists|].
  destruct (Hf a) as [x Hx]; [by left|].
  destruct IH as [xs Hxs]; [intros ? Hin; apply Hf; by right|].
  exists (x :: xs). apply bind_Ok. exists x. split; [done|].
  apply bind_Ok. by exists xs.
Qed.


Lemma tensor3_ext {A : Type} (B T P : nat) (x y : tensor3 A) :
  has_shape3 B T P x = true → has_shape3 B T P y = true →
  (∀ b t p, get3 x b t p = get3 y b t p) → x = y.
Proof.
  intros Hx Hy Hget. apply list_eq. intros b.
  destruct (x !! b) as [mx|] eqn:Hmx; last first.
  { apply lookup_ge_None in Hmx. symmetry. apply lookup_ge_None.
    by rewrite (shape3_length _ _ _ _ Hy); rewrite (shape3_length _ _ _ _ Hx) in Hmx. }
  destruct (lookup_lt_is_Some_2 y b) as [my Hmy].
  { apply lookup_lt_Some in Hmx.
    by rewrite (shape3_length _ _ _ _ Hy); rewrite (shape3_length _ _ _ _ Hx) in Hmx. }
  rewrite Hmy. f_equal.
  destruct (shape3_row _ _ _ _ _ _ Hx Hmx) as [HTx Hrx].
  destruct (shape3_row _ _ _ _ _ _ Hy Hmy) as [HTy Hry].
  apply list_eq. intros t.
  destruct (mx !! t) as [rx|] eqn:Hrxt; last first.
  { apply lookup_ge_None in Hrxt. symmetry. apply lookup_ge_None. lia. }
  destruct (lookup_lt_is_Some_2 my t) as [ry Hryt].
  { apply lookup_lt_Some in Hrxt. lia. }
  rewrite Hryt. f_equal. apply list_eq. intros p.
  specialize (Hget b t p).
  by rewrite (get3_row _ _ _ _ _ Hmx), (get3_row _ _ _ _ _ Hmy), Hrxt, Hryt in Hget.
Qed.

Lemma get3_take {A : Type} (T : nat) (x : tensor3 A) (b t p : nat) :
  get3 (take T <$> x) b t p = if decide (t < T) then get3 x b t p else None.
Proof.
  unfold get3. rewrite list_lookup_fmap.
  destruct (x !! b) as [m|]; simpl; [|by case_decide].
  case_decide.
  - by rewrite lookup_take_lt.
  - by rewrite lookup_take_ge by lia.
Qed.

Lemma has_shape3_take {A : Type} (B T H P : nat) (x : tensor3 A) :
  has_shape3 B (T + H) P x = true → has_shape3 B T P (take T <$> x) = true.
Proof.
  rewrite !has_shape3_spec. intros [HB Hall].
  rewrite length_fmap. split; [done|].
  apply Forall_fmap. eapply Forall_impl; [exact Hall|].
  intros m [HT Hrows]. simpl. rewrite length_take. split; [lia|]. by apply Forall_take.
Qed.

(** ** [DynamicsModel.forward_inference] *)

Section InferenceFacts.
Context {F Latent Emb Row Cond Rng : Type}.
Context `{!FloatOps F, !DynamicsModel Latent Emb Row Cond, !RowOps F Row,
          !RandomSource Rng Row}.
Variables (self_training : bool) (B T_ctx P H : nat) (num_steps : Z).
Variables (index_to_latents_fn : nat → Latent) (conditioning : option Cond).
Variables (schedule_k : F) (temperature : Q) (verify_mask : bool).

Local Abbreviation commit_group' := (commit_group T_ctx index_to_latents_fn).
Local Abbreviation commit_groups' := (commit_groups T_ctx index_to_latents_fn).
Local Abbreviation group_writes' := (group_writes T_ctx).
Local Abbreviation commits' := (commits T_ctx).

Lemma commits_refl (b : nat) (st : decode_state Latent) : commits' b [] [] st st.
Proof.
  unfold commits. repeat split; try done.
  - by intros ? ? ?%elem_of_nil.
  - by rewrite app_nil_r.
  - by intros ? ? ?%elem_of_nil.
Qed.

Lemma commits_sel_ext (b : nat) (sel sel' : list (nat * nat)) new (st st' : decode_state Latent) :
  (∀ hp, hp ∈ sel ↔ hp ∈ sel') → commits' b sel new st st' → commits' b sel' new st st'.
Proof.
  intros Heq (Hset & Hkeep & Hgrid & Hlog & Hsm & Hsg & Hdom).
  unfold commits. repeat split; try done.
  - intros h p Hs. apply Hset. by rewrite Heq.
  - intros b' h p Hn. apply Hkeep. by rewrite Heq.
  - intros b' t p Hn. apply Hgrid. intros [-> (h & -> & Hs)]. apply Hn.
    split; [done|]. exists h. by rewrite <- Heq.
  - intros h p Hs. apply Hdom. by rewrite Heq.
Qed.

Lemma commits_domain (b : nat) sel new (st st' : decode_state Latent) (b' h p : nat) :
  commits' b sel new st st' →
  is_Some (get3 (mask st') b' h p) ↔ is_Some (get3 (mask st) b' h p).
Proof.
  intros (Hset & Hkeep & _ & _ & _ & _ & Hdom).
  destruct (decide (b' = b ∧ (h, p) ∈ sel)) as [[-> Hs]|Hn].
  - rewrite Hset by done. split; [intros _; by apply Hdom|eauto].
  - by rewrite Hkeep.
Qed.

Lemma commits_trans (b : nat) sel1 sel2 new1 new2 (st st1 st2 : decode_state Latent) :
  commits' b sel1 new1 st st1 → commits' b sel2 new2 st1 st2 →
  commits' b (sel1 ++ sel2) (new1 ++ new2) st st2.
Proof.
  intros H1 H2.
  pose proof (λ b' h p, commits_domain b sel1 new1 st st1 b' h p H1) as Hd1.
  destruct H1 as (Hset1 & Hkeep1 & Hgrid1 & Hlog1 & Hsm1 & Hsg1 & Hdom1).
  destruct H2 as (Hset2 & Hkeep2 & Hgrid2 & Hlog2 & Hsm2 & Hsg2 & Hdom2).
  unfold commits. repeat split.
  - intros h p Hs.
    destruct (decide ((h, p) ∈ sel2)) as [H2|H2]; [by apply Hset2|].
    rewrite Hkeep2 by (by intros [_ ?]).
    apply elem_of_app in Hs as [Hs|Hs]; [by apply Hset1|done].
  - intros b' h p Hn. rewrite Hkeep2, Hkeep1; [done|..];
      intros [-> Hs]; apply Hn; (split; [done|]); apply elem_of_app; auto.
  - intros b' t p Hn. rewrite Hgrid2, Hgrid1; [done|..];
      intros [-> (h & -> & Hs)]; apply Hn; (split; [done|]); exists h;
      (split; [done|]); apply elem_of_app; auto.
  - by rewrite Hlog2, Hlog1, app_assoc.
  - intros. by rewrite Hsm2, Hsm1.
  - intros. by rewrite Hsg2, Hsg1.
  - intros h p [Hs|Hs]%elem_of_app; [by apply Hdom1|].
    apply Hd1. by apply Hdom2.
Qed.

Lemma commit_group_commits (b : nat) (h_sel p_sel : list nat) (predicted_indices : tensor3 nat)
    (st st' : decode_state Latent) (uh : nat) :
  commit_group' b h_sel p_sel predicted_indices st uh = Ok st' →
  commits' b ((λ p, (uh, p)) <$> masked_select p_sel ((λ h, h =? uh) <$> h_sel))
            (group_writes' b h_sel p_sel [uh]) st st'.
Proof.
  unfold commit_group, group_writes.
  rewrite bind_singleton.
  set (G := masked_select p_sel ((λ h, h =? uh) <$> h_sel)).
  destruct (Nat.eqb_spec (length G) 0) as [HG|HG].
  { intros [= <-]. apply nil_length_inv in HG. rewrite HG. apply commits_refl. }
  intros Hrun.
  apply bind_Ok in Hrun as (idx_sel & Hidx & Hrun).
  apply bind_Ok in Hrun as (g' & Hg & Hrun).
  apply bind_Ok in Hrun as (m' & Hm & Hrun).
  injection Hrun as <-. unfold commits. simpl.
  destruct (foldM_write3 b (T_ctx + uh) fst snd _ _ _ Hg) as (Hgf & _ & Hgs & _).
  destruct (foldM_write3 b uh id (λ _, false) _ _ _ Hm) as (Hmf & Hms & Hmsh & Hmd).
  rewrite list_fmap_id in Hmf, Hms, Hmd.
  repeat split; try done.
  - intros h p (p' & [= -> ->] & Hp)%list_elem_of_fmap.
    by destruct (Hms _ Hp) as (_ & _ & _ & ->).
  - intros b' h p Hn. apply Hmf. intros (-> & -> & Hp). apply Hn.
    split; [done|]. apply list_elem_of_fmap. eauto.
  - intros b' t p Hn. apply Hgf. intros (-> & -> & Hp). apply Hn.
    split; [done|]. exists uh. split; [done|].
    apply list_elem_of_fmap. exists p. split; [done|].
    apply list_elem_of_fmap in Hp as ([p1 v] & -> & Hin).
    by apply elem_of_zip_l in Hin.
  - intros h p (p' & [= -> ->] & Hp)%list_elem_of_fmap. by apply Hmd.
Qed.

Lemma commit_groups_fold (b : nat) (h_sel p_sel : list nat) (predicted_indices : tensor3 nat)
    (us : list nat) (st st' : decode_state Latent) :
  foldM (commit_group' b h_sel p_sel predicted_indices) st us = Ok st' →
  commits' b (us ≫= λ uh, (λ p, (uh, p)) <$> masked_select p_sel ((λ h, h =? uh) <$> h_sel))
            (group_writes' b h_sel p_sel us) st st'.
Proof.
  revert st. induction us as [|uh us IH]; cbn [foldM]; intros st Hrun.
  - injection Hrun as <-. apply commits_refl.
  - apply bind_Ok in Hrun as (st1 & Hg & Hrun).
    unfold group_writes. rewrite !bind_cons.
    eapply commits_trans; [|by apply IH].
    apply commit_group_commits in Hg.
    unfold group_writes in Hg. by rewrite bind_singleton in Hg.
Qed.

Lemma commit_groups_commits (b : nat) (h_sel p_sel : list nat) (predicted_indices : tensor3 nat)
    (st st' : decode_state Latent) :
  commit_groups' b h_sel p_sel predicted_indices st = Ok st' →
  commits' b (zip h_sel p_sel) (group_writes' b h_sel p_sel (torch_unique h_sel)) st st'.
Proof.
  intros Hrun%commit_groups_fold. revert Hrun. apply commits_sel_ext.
  intros [h p]. rewrite list_elem_of_bind. split.
  - intros (uh & (p' & [= -> ->] & Hp)%list_elem_of_fmap & _).
    by apply masked_select_group.
  - intros Hin. exists h. split.
    + apply list_elem_of_fmap. exists p. split; [done|]. by apply masked_select_group.
    + apply torch_unique_spec. by apply elem_of_zip_l in Hin.
Qed.

Local Abbreviation advances' := (advances T_ctx).

Lemma group_writes_elem (b : nat) (h_sel p_sel us : list nat) (b' t p : nat) :
  (b', t, p) ∈ group_writes' b h_sel p_sel us
  ↔ b' = b ∧ ∃ h, t = T_ctx + h ∧ h ∈ us ∧ (h, p) ∈ zip h_sel p_sel.
Proof.
  unfold group_writes. rewrite list_elem_of_bind. split.
  - intros (uh & (p' & [= -> -> ->] & Hp)%list_elem_of_fmap & Hu).
    split; [done|]. exists uh. by rewrite <- masked_select_group.
  - intros (-> & h & -> & Hu & Hin). exists h. split; [|done].
    apply list_elem_of_fmap. exists p. by rewrite masked_select_group.
Qed.

Lemma group_writes_NoDup (b : nat) (h_sel p_sel us : list nat) :
  NoDup us → NoDup (zip h_sel p_sel) → NoDup (group_writes' b h_sel p_sel us).
Proof.
  intros Hus Hsel. unfold group_writes. apply NoDup_bind; [| |done].
  - intros u1 u2 [[b' t] p] _ _ (p1 & [= -> -> ->] & _)%list_elem_of_fmap
      (p2 & [= Ht _] & _)%list_elem_of_fmap. lia.
  - intros uh _. apply NoDup_fmap_2_strong; [|by apply masked_select_group_NoDup].
    by intros p1 p2 _ _ [= ->].
Qed.

Lemma advances_refl (st : decode_state Latent) : advances' st st.
Proof.
  unfold advances. split_and!; try done. exists []. split_and!.
  - by rewrite app_nil_r.
  - apply NoDup_nil_2.
  - intros b t p. split; [by intros ?%elem_of_nil|].
    intros (h & _ & Ht & Hf). congruence.
  - done.
Qed.

Lemma advances_trans (st st1 st2 : decode_state Latent) :
  advances' st st1 → advances' st1 st2 → advances' st st2.
Proof.
  intros (Hf1 & Ht1 & Hd1 & Hsm1 & Hsg1 & new1 & Hlog1 & Hnd1 & Hnew1 & Hgrid1)
         (Hf2 & Ht2 & Hd2 & Hsm2 & Hsg2 & new2 & Hlog2 & Hnd2 & Hnew2 & Hgrid2).
  unfold advances. split_and!.
  - eauto.
  - eauto.
  - intros b h p. by rewrite Hd2, Hd1.
  - intros. by rewrite Hsm2, Hsm1.
  - intros. by rewrite Hsg2, Hsg1.
  - exists (new1 ++ new2). split_and!.
    + by rewrite Hlog2, Hlog1, app_assoc.
    + apply NoDup_app. split_and!; [done| |done].
      intros [[b t] p] (h1 & -> & _ & Hfalse)%Hnew1 (h2 & Heq & Htrue & _)%Hnew2.
      assert (h2 = h1) as -> by lia. congruence.
    + intros b t p. split.
      * intros [(h & -> & Htrue & Hfalse)%Hnew1|(h & -> & Htrue & Hfalse)%Hnew2]%elem_of_app;
          exists h; (split; [done|]); split; auto.
      * intros (h & -> & Htrue & Hfalse). apply elem_of_app.
        destruct (proj2 (Hd1 b h p)) as [[] Hv]; [eauto| |].
        -- right. apply Hnew2. exists h. by split_and!.
        -- left. apply Hnew1. exists h. by split_and!.
    + intros b t p Hn. rewrite Hgrid2, Hgrid1; [done|..];
        intros ?; apply Hn, elem_of_app; auto.
Qed.

Lemma commits_advances (b : nat) (sel : list (nat * nat)) (new : list (nat * nat * nat))
    (st st' : decode_state Latent) :
  commits' b sel new st st' →
  (∀ h p, (h, p) ∈ sel → get3 (mask st) b h p = Some true) →
  NoDup new →
  (∀ b' t p, (b', t, p) ∈ new ↔ b' = b ∧ ∃ h, t = T_ctx + h ∧ (h, p) ∈ sel) →
  advances' st st'.
Proof.
  intros Hc Hmasked Hnd Hnew.
  pose proof (λ b' h p, commits_domain b sel new st st' b' h p Hc) as Hd.
  destruct Hc as (Hset & Hkeep & Hgrid & Hlog & Hsm & Hsg & Hdom).
  unfold advances. split_and!; try done.
  - intros b' h p Hfalse.
    destruct (decide (b' = b ∧ (h, p) ∈ sel)) as [[-> Hs]|Hn]; [by apply Hset|].
    by rewrite Hkeep.
  - intros b' h p Htrue.
    destruct (decide (b' = b ∧ (h, p) ∈ sel)) as [[-> Hs]|Hn].
    + rewrite Hset in Htrue by done. done.
    + by rewrite Hkeep in Htrue.
  - exists new. split_and!; try done.
    + intros b' t p. split.
      * intros (-> & h & -> & Hs)%Hnew. exists h. split; [done|]. split; auto.
      * intros (h & -> & Htrue & Hfalse). apply Hnew.
        destruct (decide (b' = b ∧ (h, p) ∈ sel)) as [[-> Hs]|Hn]; [eauto|].
        rewrite Hkeep in Hfalse by done. congruence.
    + intros b' t p Hn. apply Hgrid. intros Hin. by apply Hn, Hnew.
Qed.

Local Abbreviation unmask_batch_element' :=
  (unmask_batch_element T_ctx P index_to_latents_fn).
Local Abbreviation complete_batch_element' :=
  (complete_batch_element T_ctx index_to_latents_fn).

Lemma zip_fmap_same {A X Y : Type} (f : A → X) (g : A → Y) (l : list A) :
  zip (f <$> l) (g <$> l) = (λ a, (f a, g a)) <$> l.
Proof. induction l as [|a l IH]; [done|]. rewrite !fmap_cons. simpl. by rewrite IH. Qed.

Lemma unmask_batch_element_commits (Pt : Z) (raw : F) (horizon_probs : tensor3 F)
    (predicted_indices : tensor3 nat) (st st' : decode_state Latent) (b : nat) :
  unmask_batch_element' Pt raw horizon_probs predicted_indices st b = Ok st' →
  ∃ m_b sel_flat,
    mask st !! b = Some m_b
    ∧ commits' b ((λ s, (s / P, s mod P)) <$> sel_flat)
        (group_writes' b ((λ s, s / P) <$> sel_flat) ((λ s, s mod P) <$> sel_flat)
           (torch_unique ((λ s, s / P) <$> sel_flat))) st st'
    ∧ NoDup sel_flat
    ∧ (∀ s, s ∈ sel_flat → mjoin m_b !! s = Some true)
    ∧ (∀ n, F_ceil_item raw = Ok n →
         Z.of_nat (length sel_flat)
         = spec_commit_count n Pt (Z.of_nat (length (where_true (mjoin m_b))))).
Proof.
  unfold unmask_batch_element. intros Hrun.
  apply bind_Ok in Hrun as (m_b & Hmb%of_option_Ok & Hrun).
  exists m_b.
  destruct (Nat.eqb_spec (length (where_true (mjoin m_b))) 0) as [Hz|Hnz].
  { injection Hrun as <-. exists []. split_and!; [done|apply commits_refl|apply NoDup_nil_2| |].
    - by intros s ?%elem_of_nil.
    - intros n _. rewrite Hz. unfold spec_commit_count. simpl length.
      generalize (Pt / 16)%Z. lia. }
  apply bind_Ok in Hrun as (n0 & Hceil & Hrun).
  apply bind_Ok in Hrun as (hp & Hhp%of_option_Ok & Hrun).
  apply bind_Ok in Hrun as (pos_probs_flat & Hpos & Hrun).
  apply bind_Ok in Hrun as (sel_flat & Hsel & Hrun).
  destruct (P =? 0); [done|].
  exists sel_flat.
  destruct (select_flat_spec _ _ _ _ Hsel) as (Hnd & Hsub & Hlen).
  { by apply gather_length in Hpos. }
  { apply where_true_NoDup. }
  { pose proof (k_b_floor Pt n0 (Z.of_nat (length (where_true (mjoin m_b))))). lia. }
  assert (commits' b ((λ s, (s / P, s mod P)) <$> sel_flat)
        (group_writes' b ((λ s, s / P) <$> sel_flat) ((λ s, s mod P) <$> sel_flat)
           (torch_unique ((λ s, s / P) <$> sel_flat))) st st') as Hc.
  { destruct (Nat.eqb_spec (length ((λ s, s / P) <$> sel_flat)) 0) as [Hz|Hnz'].
    - injection Hrun as <-. rewrite length_fmap in Hz. apply nil_length_inv in Hz.
      subst sel_flat. apply commits_refl.
    - apply commit_groups_commits in Hrun. by rewrite zip_fmap_same in Hrun. }
  split_and!; [done|done|done| |].
  - intros s Hs. by apply where_true_spec, Hsub.
  - intros n Hn. rewrite Hlen, <- commit_count_arith. congruence.
Qed.

Lemma complete_batch_element_commits (predicted_indices : tensor3 nat)
    (st st' : decode_state Latent) (b : nat) :
  complete_batch_element' predicted_indices st b = Ok st' →
  ∃ m_b,
    mask st !! b = Some m_b
    ∧ commits' b (where2 m_b)
        (group_writes' b (where2 m_b).*1 (where2 m_b).*2 (torch_unique (where2 m_b).*1)) st st'.
Proof.
  unfold complete_batch_element. intros Hrun.
  apply bind_Ok in Hrun as (m_b & Hmb%of_option_Ok & Hrun).
  exists m_b. split; [done|].
  destruct (Nat.eqb_spec (length (where2 m_b).*1) 0) as [Hz|Hnz].
  - injection Hrun as <-. rewrite length_fmap in Hz. apply nil_length_inv in Hz.
    rewrite Hz. apply commits_refl.
  - apply commit_groups_commits in Hrun. by rewrite zip_fst_snd in Hrun.
Qed.

Lemma div_mod_pair_NoDup (sel : list nat) :
  NoDup sel → NoDup ((λ s, (s / P, s mod P)) <$> sel).
Proof.
  apply NoDup_fmap_2_strong. intros s1 s2 _ _ [= Hd Hm].
  pose proof (Nat.div_mod_eq s1 P). pose proof (Nat.div_mod_eq s2 P). congruence.
Qed.

Lemma advances_num_masked (st st' : decode_state Latent) (b : nat) :
  advances' st st' → has_shape3 B H P (mask st) = true →
  num_masked (mask st') b ≤ num_masked (mask st) b.
Proof.
  intros (_ & Htrue & _ & Hsm & _) Hshape.
  pose proof Hshape as Hshape'. rewrite <- Hsm in Hshape'.
  unfold num_masked.
  destruct (mask st' !! b) as [mb'|] eqn:Hmb'; [|lia].
  destruct (lookup_lt_is_Some_2 (mask st) b) as [mb Hmb].
  { apply lookup_lt_Some in Hmb'.
    by rewrite (shape3_length _ _ _ _ Hshape') in Hmb'; rewrite (shape3_length _ _ _ _ Hshape). }
  rewrite Hmb.
  destruct (shape3_row _ _ _ _ _ _ Hshape Hmb) as [HH Hrows].
  destruct (shape3_row _ _ _ _ _ _ Hshape' Hmb') as [HH' Hrows'].
  apply submseteq_length, NoDup_submseteq; [apply where_true_NoDup|].
  intros i Hi%where_true_spec. apply where_true_spec.
  destruct (decide (P = 0)) as [HP|HP].
  { subst P. apply lookup_lt_Some in Hi.
    rewrite (length_join_same 0) in Hi by done. lia. }
  rewrite (join_lookup_div_mod P) in Hi |- * by (done || lia).
  rewrite <- (get3_row _ b _ _ _ Hmb). apply Htrue. by rewrite (get3_row _ b _ _ _ Hmb').
Qed.

Lemma unmask_batch_element_effect (Pt : Z) (raw : F) (horizon_probs : tensor3 F)
    (predicted_indices : tensor3 nat) (st st' : decode_state Latent) (b : nat) :
  unmask_batch_element' Pt raw horizon_probs predicted_indices st b = Ok st' →
  has_shape3 B H P (mask st) = true →
  advances' st st'
  ∧ (∀ b' h p, b' ≠ b → get3 (mask st') b' h p = get3 (mask st) b' h p)
  ∧ ∃ k, num_masked (mask st') b + k = num_masked (mask st) b
       ∧ ∀ n, F_ceil_item raw = Ok n →
           Z.of_nat k = spec_commit_count n Pt (Z.of_nat (num_masked (mask st) b)).
Proof.
  intros (m_b & sel_flat & Hmb & Hc & Hnd & Hmasked & Hcount)%unmask_batch_element_commits
    Hshape.
  destruct (shape3_row _ _ _ _ _ _ Hshape Hmb) as [HH Hrows].
  assert (∀ h p, (h, p) ∈ (λ s, (s / P, s mod P)) <$> sel_flat →
            get3 (mask st) b h p = Some true) as Hsel_masked.
  { intros h p (s & [= -> ->] & Hs)%list_elem_of_fmap.
    specialize (Hmasked s Hs).
    destruct (decide (P = 0)) as [HP|HP].
    { subst P. apply lookup_lt_Some in Hmasked.
      rewrite (length_join_same 0) in Hmasked by done. lia. }
    rewrite (join_lookup_div_mod P) in Hmasked by (done || lia).
    by rewrite (get3_row _ b _ _ _ Hmb). }
  split_and!.
  - eapply commits_advances; [exact Hc|done| |].
    + apply group_writes_NoDup; [apply torch_unique_NoDup|].
      rewrite zip_fmap_same. by apply div_mod_pair_NoDup.
    + intros b' t p. rewrite group_writes_elem, zip_fmap_same.
      split; intros (-> & h & -> & Hin); (split; [done|]); exists h.
      * by destruct Hin.
      * split_and!; [done| |done]. apply torch_unique_spec.
        apply list_elem_of_fmap in Hin as (s & [= -> ->] & Hs).
        by apply (list_elem_of_fmap_2 (λ s, s / P)).
  - intros b' h p Hne. destruct Hc as (_ & Hkeep & _). apply Hkeep. by intros [? _].
  - exists (length sel_flat). unfold num_masked at 2 3. rewrite Hmb. split; [|done].
    destruct Hc as (Hset & Hkeep & _ & _ & Hsm & _).
    pose proof Hshape as Hshape'. rewrite <- Hsm in Hshape'.
    destruct (lookup_lt_is_Some_2 (mask st') b) as [mb' Hmb'].
    { apply lookup_lt_Some in Hmb.
      by rewrite (shape3_length _ _ _ _ Hshape) in Hmb; rewrite (shape3_length _ _ _ _ Hshape'). }
    destruct (shape3_row _ _ _ _ _ _ Hshape' Hmb') as [HH' Hrows'].
    unfold num_masked. rewrite Hmb'.
    apply (masked_count_after P); try done; [congruence| |].
    + intros h p Hin. rewrite <- (get3_row _ b _ _ _ Hmb'). by apply Hset.
    + intros h p Hin. rewrite <- (get3_row _ b _ _ _ Hmb'), <- (get3_row _ b _ _ _ Hmb).
      apply Hkeep. by intros [_ ?].
Qed.

Lemma complete_batch_element_effect (predicted_indices : tensor3 nat)
    (st st' : decode_state Latent) (b : nat) :
  complete_batch_element' predicted_indices st b = Ok st' →
  advances' st st' ∧ ∀ h p, get3 (mask st') b h p ≠ Some true.
Proof.
  intros (m_b & Hmb & Hc)%complete_batch_element_commits.
  assert (∀ h p, (h, p) ∈ where2 m_b ↔ get3 (mask st) b h p = Some true) as Hwhere.
  { intros h p. by rewrite where2_spec, (get3_row _ b _ _ _ Hmb). }
  split.
  - eapply commits_advances; [exact Hc|by intros h p ?%Hwhere| |].
    + apply group_writes_NoDup; [apply torch_unique_NoDup|].
      rewrite zip_fst_snd. apply where2_NoDup.
    + intros b' t p. rewrite group_writes_elem, zip_fst_snd.
      split; intros (-> & h & -> & Hin); (split; [done|]); exists h.
      * by destruct Hin.
      * split_and!; [done| |done]. apply torch_unique_spec.
        by apply (list_elem_of_fmap_2 fst) in Hin.
  - intros h p Htrue. destruct Hc as (Hset & Hkeep & _).
    destruct (decide ((h, p) ∈ where2 m_b)) as [Hin|Hin].
    + rewrite Hset in Htrue by done. done.
    + rewrite Hkeep in Htrue by (by intros [_ ?]). by apply Hin, Hwhere.
Qed.

Lemma num_masked_same (m m' : tensor3 bool) (b : nat) :
  has_shape3 B H P m = true → has_shape3 B H P m' = true →
  (∀ h p, get3 m' b h p = get3 m b h p) →
  num_masked m' b = num_masked m b.
Proof.
  intros Hshape Hshape' Hsame. unfold num_masked.
  destruct (m !! b) as [mb|] eqn:Hmb.
  - destruct (lookup_lt_is_Some_2 m' b) as [mb' Hmb'].
    { apply lookup_lt_Some in Hmb.
      by rewrite (shape3_length _ _ _ _ Hshape) in Hmb; rewrite (shape3_length _ _ _ _ Hshape'). }
    rewrite Hmb'.
    destruct (shape3_row _ _ _ _ _ _ Hshape Hmb) as [HH Hrows].
    destruct (shape3_row _ _ _ _ _ _ Hshape' Hmb') as [HH' Hrows'].
    assert (length (where_true (mjoin mb')) + length (@nil nat)
            = length (where_true (mjoin mb))) as Heq; [|simpl in Heq; lia].
    apply (masked_count_after P); [done|done|congruence|apply NoDup_nil_2| | |].
    + by intros s ?%elem_of_nil.
    + by intros h p ?%elem_of_nil.
    + intros h p _. by rewrite <- (get3_row _ b _ _ _ Hmb'), <- (get3_row _ b _ _ _ Hmb).
  - rewrite (proj2 (lookup_ge_None m' b)); [done|].
    apply lookup_ge_None in Hmb.
    by rewrite (shape3_length _ _ _ _ Hshape) in Hmb; rewrite (shape3_length _ _ _ _ Hshape').
Qed.

Lemma advances_mask_shape (st st' : decode_state Latent) :
  advances' st st' → has_shape3 B H P (mask st) = true → has_shape3 B H P (mask st') = true.
Proof. intros (_ & _ & _ & Hsm & _) Hshape. by rewrite Hsm. Qed.

Lemma unmask_batches_effect (Pt : Z) (raw : F) (horizon_probs : tensor3 F)
    (predicted_indices : tensor3 nat) (l : list nat) (st st' : decode_state Latent) :
  foldM (unmask_batch_element' Pt raw horizon_probs predicted_indices) st l = Ok st' →
  has_shape3 B H P (mask st) = true → NoDup l →
  advances' st st'
  ∧ (∀ b h p, b ∉ l → get3 (mask st') b h p = get3 (mask st) b h p)
  ∧ (∀ b, b ∈ l →
       ∃ k, num_masked (mask st') b + k = num_masked (mask st) b
          ∧ ∀ n, F_ceil_item raw = Ok n →
              Z.of_nat k = spec_commit_count n Pt (Z.of_nat (num_masked (mask st) b))).
Proof.
  revert st. induction l as [|b0 l IH]; cbn [foldM]; intros st Hrun Hshape Hnd.
  - injection Hrun as <-. split_and!; [apply advances_refl|done|].
    by intros b ?%elem_of_nil.
  - apply bind_Ok in Hrun as (st1 & Hb0 & Hrun).
    apply NoDup_cons in Hnd as [Hb0l Hnd].
    destruct (unmask_batch_element_effect _ _ _ _ _ _ _ Hb0 Hshape)
      as (Hadv1 & Hother1 & k0 & Hk0 & Hcount0).
    pose proof (advances_mask_shape _ _ Hadv1 Hshape) as Hshape1.
    destruct (IH _ Hrun Hshape1 Hnd) as (Hadv2 & Hother2 & Hcount2).
    pose proof (advances_mask_shape _ _ Hadv2 Hshape1) as Hshape2.
    split_and!.
    + by eapply advances_trans.
    + intros b h p [Hne Hnotin]%not_elem_of_cons. by rewrite Hother2, Hother1.
    + intros b [->|Hin]%elem_of_cons.
      * exists k0. split; [|done].
        rewrite (num_masked_same (mask st1) (mask st')); [done..|].
        intros h p. by apply Hother2.
      * assert (b ≠ b0) as Hne by (by intros ->).
        destruct (Hcount2 b Hin) as (k & Hk & Hcount).
        rewrite (num_masked_same (mask st) (mask st1)) in Hk, Hcount
          by (done || intros h p; by apply Hother1).
        eauto.
Qed.

Local Abbreviation decode_step' :=
  (decode_step self_training B T_ctx P H num_steps index_to_latents_fn conditioning
     schedule_k temperature).
Local Abbreviation decode_loop' :=
  (decode_loop self_training B T_ctx P H num_steps index_to_latents_fn conditioning
     schedule_k temperature).
Local Abbreviation final_completion' :=
  (final_completion self_training B T_ctx P H index_to_latents_fn conditioning temperature).
Local Abbreviation P_total' := (P_total P H).

Lemma decode_step_effect (m : nat) (st st' : decode_state Latent) (rng rng' : Rng) :
  decode_step' m st rng = Ok (st', rng') →
  has_shape3 B H P (mask st) = true →
  advances' st st'
  ∧ ∀ b, b < B →
      ∃ k, num_masked (mask st') b + k = num_masked (mask st) b
         ∧ ∀ raw n,
             exp_schedule_torch schedule_k (Z.of_nat m) num_steps P_total' = Ok raw →
             F_ceil_item raw = Ok n →
             Z.of_nat k = spec_commit_count n P_total' (Z.of_nat (num_masked (mask st) b)).
Proof.
  unfold decode_step. intros Hrun Hshape.
  apply bind_Ok in Hrun as (raw & Hraw & Hrun).
  apply bind_Ok in Hrun as ([[max_probs predicted_indices] rng1] & Hscore & Hrun).
  apply bind_Ok in Hrun as (st1 & Hfold & [= -> ->]).
  destruct (unmask_batches_effect _ _ _ _ _ _ _ Hfold Hshape (NoDup_seq 0 B))
    as (Hadv & _ & Hcount).
  split; [done|]. intros b Hb.
  destruct (Hcount b) as (k & Hk & Hn); [apply elem_of_seq; lia|].
  exists k. split; [done|]. intros raw' n Hraw' Hceil. apply Hn. congruence.
Qed.

Lemma final_completion_effect (st st' : decode_state Latent) (rng rng' : Rng) :
  final_completion' st rng = Ok (st', rng') →
  has_shape3 B H P (mask st) = true →
  advances' st st' ∧ any3 (mask st') = false.
Proof.
  unfold final_completion. intros Hrun Hshape.
  destruct (any3 (mask st)) eqn:Hany.
  - apply bind_Ok in Hrun as ([[max_probs predicted_indices] rng1] & Hscore & Hrun).
    apply bind_Ok in Hrun as (st1 & Hfold & [= -> ->]).
    assert (advances' st st') as Hadv.
    { revert Hfold. apply (foldM_inv (λ s, advances' st s)); [|apply advances_refl].
      intros s b s' _ Hs Hstep. eapply advances_trans; [done|].
      by apply complete_batch_element_effect in Hstep as [? _]. }
    split; [done|]. apply any3_false_get3. intros b h p Htrue.
    destruct (decide (b < B)) as [Hb|Hb].
    + revert h p Htrue.
      assert (b ∈ seq 0 B) as Hin by (apply elem_of_seq; lia).
      clear Hb. revert b Hin.
      refine (foldM_post (λ b s, ∀ h p, get3 (mask s) b h p ≠ Some true) _ _ _ _ _ _ Hfold).
      * intros s b s' _ Hstep. by apply complete_batch_element_effect in Hstep as [_ ?].
      * intros b s b' s' _ Hpost Hstep h p Htrue.
        apply complete_batch_element_effect in Hstep as [(_ & Hmono & _) _].
        by apply (Hpost h p), Hmono.
    + destruct Hadv as (_ & Hmono & _). apply Hmono in Htrue.
      apply (get3_Some_lt _ _ _ _ _ _ _ _ Hshape) in Htrue. lia.
  - injection Hrun as <- <-. split; [apply advances_refl|done].
Qed.

Lemma decode_loop_effect (steps : list nat) (st st' : decode_state Latent) (rng rng' : Rng) :
  decode_loop' steps st rng = Ok (st', rng') →
  has_shape3 B H P (mask st) = true →
  advances' st st'.
Proof.
  revert st rng. induction steps as [|m steps IH]; cbn [decode_loop]; intros st rng Hrun Hshape.
  - injection Hrun as <- <-. apply advances_refl.
  - apply bind_Ok in Hrun as ([st1 rng1] & Hstep & Hrun).
    apply decode_step_effect in Hstep as [Hadv _]; [|done].
    destruct (negb (any3 (mask st1))).
    + by injection Hrun as <- <-.
    + eapply advances_trans; [done|].
      eapply IH; [done|]. by eapply advances_mask_shape.
Qed.

Local Abbreviation initial_state' := (initial_state B P H).
Local Abbreviation forward_inference_state' :=
  (forward_inference_state self_training B T_ctx P H num_steps index_to_latents_fn
     conditioning schedule_k temperature verify_mask).
Local Abbreviation forward_inference' :=
  (forward_inference self_training B T_ctx P H num_steps index_to_latents_fn
     conditioning schedule_k temperature verify_mask).
Local Abbreviation reachable' :=
  (reachable self_training B T_ctx P H num_steps index_to_latents_fn conditioning
     schedule_k temperature).

Lemma has_shape3_replicate {A : Type} (B' T' P' : nat) (x : A) :
  has_shape3 B' T' P' (replicate B' (replicate T' (replicate P' x))) = true.
Proof.
  unfold has_shape3, has_shape2. rewrite length_replicate, Nat.eqb_refl. simpl.
  apply forallb_forall. intros m ->%list_elem_of_In%elem_of_replicate_inv.
  rewrite length_replicate, Nat.eqb_refl. simpl.
  apply forallb_forall. intros r ->%list_elem_of_In%elem_of_replicate_inv.
  rewrite length_replicate. apply Nat.eqb_refl.
Qed.

Lemma initial_mask_shape (context_latents : tensor3 Latent) :
  has_shape3 B H P (mask (initial_state' context_latents)) = true.
Proof. apply has_shape3_replicate. Qed.

Lemma initial_mask_true (context_latents : tensor3 Latent) (b h p : nat) (v : bool) :
  get3 (mask (initial_state' context_latents)) b h p = Some v → v = true.
Proof.
  unfold initial_state, get3. simpl. intros Hget.
  destruct (replicate B (replicate H (replicate P true)) !! b) as [m|] eqn:Hm; [|done].
  apply lookup_replicate in Hm as [-> _]. simpl in Hget.
  destruct (replicate H (replicate P true) !! h) as [r|] eqn:Hr; [|done].
  apply lookup_replicate in Hr as [-> _]. simpl in Hget.
  by apply lookup_replicate in Hget as [-> _].
Qed.

Lemma initial_grid_context (context_latents : tensor3 Latent) (b t p : nat) :
  has_shape3 B T_ctx P context_latents = true → t < T_ctx →
  get3 (input_latents (initial_state' context_latents)) b t p = get3 context_latents b t p.
Proof.
  intros Hshape Ht. unfold initial_state, get3. simpl.
  rewrite list_lookup_fmap.
  destruct (context_latents !! b) as [ctx_b|] eqn:Hb; [|done]. simpl.
  destruct (shape3_row _ _ _ _ _ _ Hshape Hb) as [HT _].
  by rewrite lookup_app_l by lia.
Qed.

Lemma initial_state_well_shaped (context_latents : tensor3 Latent) :
  has_shape3 B T_ctx P context_latents = true →
  well_shaped B T_ctx P H (initial_state' context_latents).
Proof.
  intros Hctx. split; [|apply has_shape3_replicate].
  unfold initial_state. simpl. apply has_shape3_spec in Hctx as [HB Hall].
  apply has_shape3_spec. rewrite length_fmap. split; [done|].
  apply Forall_fmap. eapply Forall_impl; [exact Hall|].
  intros m [HT Hrows]. simpl. rewrite length_app, length_replicate. split; [lia|].
  apply Forall_app. split; [done|].
  apply Forall_replicate, length_replicate.
Qed.

Lemma forward_inference_state_effect (context_latents : tensor3 Latent) (rng rng' : Rng)
    (st : decode_state Latent) :
  forward_inference_state' context_latents rng = Ok (st, rng') →
  advances' (initial_state' context_latents) st ∧ any3 (mask st) = false.
Proof.
  unfold forward_inference_state. intros Hrun.
  apply bind_Ok in Hrun as ([st1 rng1] & Hloop & Hrun).
  apply bind_Ok in Hrun as ([st2 rng2] & Hfinal & Hrun).
  pose proof (decode_loop_effect _ _ _ _ _ Hloop (initial_mask_shape _)) as Hadv1.
  pose proof (advances_mask_shape _ _ Hadv1 (initial_mask_shape _)) as Hshape1.
  destruct (final_completion_effect _ _ _ _ Hfinal Hshape1) as [Hadv2 Hany].
  destruct (verify_mask && any3 (mask st2)); [done|].
  injection Hrun as <- <-. split; [by eapply advances_trans|done].
Qed.

Lemma reachable_advances (context_latents : tensor3 Latent) (st : decode_state Latent) :
  reachable' context_latents st → advances' (initial_state' context_latents) st.
Proof.
  induction 1 as [|m st rng st' rng' _ IH Hstep|st rng st' rng' _ IH Hfinal].
  - apply advances_refl.
  - eapply advances_trans; [done|].
    eapply decode_step_effect; [done|].
    by eapply advances_mask_shape; [|apply initial_mask_shape].
  - eapply advances_trans; [done|].
    eapply final_completion_effect; [done|].
    by eapply advances_mask_shape; [|apply initial_mask_shape].
Qed.

(** From the initial state on, the log holds exactly the cells of the mask
    bits that are false, each once. *)
Lemma advances_initial_log (context_latents : tensor3 Latent) (st : decode_state Latent) :
  advances' (initial_state' context_latents) st →
  NoDup (writes st)
  ∧ ∀ b t p, (b, t, p) ∈ writes st ↔ ∃ h, t = T_ctx + h ∧ get3 (mask st) b h p = Some false.
Proof.
  intros (_ & _ & Hdom & _ & _ & new & Hlog & Hnd & Hnew & _).
  simpl in Hlog. subst new. split; [done|].
  intros b t p. rewrite Hnew. split.
  - intros (h & -> & _ & Hfalse). eauto.
  - intros (h & -> & Hfalse). exists h. split; [done|]. split; [|done].
    destruct (proj1 (Hdom b h p)) as [v Hv]; [eauto|].
    by rewrite Hv, (initial_mask_true _ _ _ _ _ Hv).
Qed.

(** C1. When [forward_inference] reaches its [return], no horizon position
    is masked: [mask.any()] is false, every horizon position [(b, h, p)] has
    its mask bit false, and its cell [(b, T_ctx + h, p)] has been assigned,
    in a scheduled step or by the final completion. *)
Theorem forward_inference_leaves_nothing_masked (context_latents : tensor3 Latent)
    (rng rng' : Rng) (st : decode_state Latent) :
  forward_inference_state' context_latents rng = Ok (st, rng') →
  forward_inference' context_latents rng = Ok (input_latents st)
  ∧ any3 (mask st) = false
  ∧ ∀ b h p, b < B → h < H → p < P →
      get3 (mask st) b h p = Some false ∧ (b, T_ctx + h, p) ∈ writes st.
Proof.
  intros Hrun. split; [unfold forward_inference; by rewrite Hrun|].
  destruct (forward_inference_state_effect _ _ _ _ Hrun) as [Hadv Hany].
  split; [done|]. intros b h p Hb Hh Hp.
  assert (get3 (mask st) b h p = Some false) as Hfalse.
  { destruct Hadv as (_ & _ & Hdom & _).
    destruct (proj2 (Hdom b h p)) as [[] Hv]; [|by apply any3_false_get3 in Hv|done].
    eapply get3_is_Some; [apply initial_mask_shape|done..]. }
  split; [done|]. apply (advances_initial_log _ _ Hadv). eauto.
Qed.

(** C2. In a decode step, for each batch element the number of positions
    committed (the drop of its count of masked positions) is
    [clamp(n - numResolved, floor = max(totalMaskable/16, 1), ceiling = numMasked)],
    with [n] the ceiling of the schedule's value for the step; it is the
    code's [k_b] capped by the count of masked positions, and never exceeds
    that count. *)
Theorem decode_step_commit_count (m : nat) (st st' : decode_state Latent) (rng rng' : Rng)
    (b : nat) (raw : F) (n : Z) :
  has_shape3 B H P (mask st) = true →
  decode_step' m st rng = Ok (st', rng') →
  b < B →
  exp_schedule_torch schedule_k (Z.of_nat m) num_steps P_total' = Ok raw →
  F_ceil_item raw = Ok n →
  let numMasked := Z.of_nat (num_masked (mask st) b) in
  let committed := (numMasked - Z.of_nat (num_masked (mask st') b))%Z in
  committed = spec_commit_count n P_total' numMasked
  ∧ committed = Z.min (k_b P_total' n numMasked) numMasked
  ∧ (0 ≤ committed ≤ numMasked)%Z.
Proof.
  intros Hshape Hstep Hb Hraw Hceil numMasked committed.
  destruct (decode_step_effect _ _ _ _ _ Hstep Hshape) as [_ Hcount].
  destruct (Hcount b Hb) as (k & Hk & Hn). specialize (Hn raw n Hraw Hceil).
  assert (committed = Z.of_nat k) as -> by (unfold committed, numMasked; lia).
  split_and!; [done|by rewrite commit_count_arith|lia|].
  unfold numMasked. lia.
Qed.

(** C4. In every state [st] the decoding goes through: the cells assigned
    so far are the cells of the mask bits that are false, each assigned once;
    and a decode step or the final completion from [st] only turns mask bits
    from true to false, does not raise any batch element's count of masked
    positions, and assigns, each once, exactly the cells whose mask bit it
    flips, leaving every other grid cell as it was. *)
Theorem decode_mask_shrinks_and_cells_written_once (context_latents : tensor3 Latent)
    (st : decode_state Latent) :
  reachable' context_latents st →
  NoDup (writes st)
  ∧ (∀ b t p, (b, t, p) ∈ writes st
       ↔ ∃ h, t = T_ctx + h ∧ get3 (mask st) b h p = Some false)
  ∧ ∀ st',
      (∃ m rng rng', decode_step' m st rng = Ok (st', rng'))
      ∨ (∃ rng rng', final_completion' st rng = Ok (st', rng')) →
      (∀ b h p, get3 (mask st) b h p = Some false → get3 (mask st') b h p = Some false)
      ∧ (∀ b, num_masked (mask st') b ≤ num_masked (mask st) b)
      ∧ ∃ new, writes st' = writes st ++ new
          ∧ NoDup new
          ∧ (∀ b t p, (b, t, p) ∈ new
               ↔ ∃ h, t = T_ctx + h
                    ∧ get3 (mask st) b h p = Some true
                    ∧ get3 (mask st') b h p = Some false)
          ∧ (∀ b t p, (b, t, p) ∉ new →
               get3 (input_latents st') b t p = get3 (input_latents st) b t p).
Proof.
  intros Hreach. pose proof (reachable_advances _ _ Hreach) as Hinit.
  pose proof (advances_mask_shape _ _ Hinit (initial_mask_shape _)) as Hshape.
  destruct (advances_initial_log _ _ Hinit) as [Hnd Hlog].
  split; [done|]. split; [done|]. intros st' Hnext.
  assert (advances' st st') as Hadv.
  { destruct Hnext as [(m & rng & rng' & Hstep)|(rng & rng' & Hfinal)].
    - by eapply decode_step_effect.
    - by eapply final_completion_effect. }
  split_and!.
  - by destruct Hadv as (? & _).
  - intros b. by apply advances_num_masked.
  - by destruct Hadv as (_ & _ & _ & _ & _ & ?).
Qed.

(** C6. The context part of the grid [forward_inference] returns is the
    input: its first [T_ctx] timesteps are the context, cell by cell and as
    a whole, and every assignment of the call was at a time index in
    [T_ctx .. T_ctx + H - 1]. *)
Theorem forward_inference_keeps_context (context_latents : tensor3 Latent)
    (rng : Rng) (out : tensor3 Latent) :
  has_shape3 B T_ctx P context_latents = true →
  forward_inference' context_latents rng = Ok out →
  (∀ b t p, t < T_ctx → get3 out b t p = get3 context_latents b t p)
  ∧ take T_ctx <$> out = context_latents
  ∧ ∃ st rng', forward_inference_state' context_latents rng = Ok (st, rng')
      ∧ out = input_latents st
      ∧ ∀ b t p, (b, t, p) ∈ writes st → T_ctx ≤ t < T_ctx + H.
Proof.
  intros Hshape Hrun. unfold forward_inference in Hrun.
  apply bind_Ok in Hrun as ([st rng'] & Hstate & [= <-]).
  destruct (forward_inference_state_effect _ _ _ _ Hstate) as [Hadv _].
  pose proof Hadv as (_ & _ & _ & _ & Hsg & new & Hlog & _ & Hnew & Hgrid).
  simpl in Hlog. subst new.
  assert (∀ b t p, (b, t, p) ∈ writes st → T_ctx ≤ t < T_ctx + H) as Hrange.
  { intros b t p (h & -> & Htrue & _)%Hnew.
    apply (get3_Some_lt _ _ _ _ _ _ _ _ (initial_mask_shape _)) in Htrue. lia. }
  assert (∀ b t p, t < T_ctx →
            get3 (input_latents st) b t p = get3 context_latents b t p) as Hcells.
  { intros b t p Ht. rewrite Hgrid; [by apply initial_grid_context|].
    intros Hin%Hrange. lia. }
  split_and!; [done| |by exists st, rng'].
  apply (tensor3_ext B T_ctx P); [|done|].
  - apply (has_shape3_take _ _ H). rewrite Hsg.
    by apply initial_state_well_shaped.
  - intros b t p. rewrite get3_take. case_decide; [by apply Hcells|].
    destruct (get3 context_latents b t p) eqn:Hget; [|done].
    apply (get3_Some_lt _ _ _ _ _ _ _ _ Hshape) in Hget. lia.
Qed.

(** *** Independence of the random number generator *)

Lemma decode_step_rng (m : nat) (st : decode_state Latent) (rng1 rng2 : Rng) :
  temperature_on temperature = false →
  decode_step' m st rng1 = with_rng rng1 (decode_step' m st rng2).
Proof.
  intros Htemp. unfold decode_step, score_pass. rewrite Htemp.
  destruct (exp_schedule_torch schedule_k (Z.of_nat m) num_steps P_total') as [raw|e];
    [|done].
  simpl.
  match goal with |- context [foldM ?f st ?l] => destruct (foldM f st l) as [st1|e] end;
    done.
Qed.

Lemma decode_loop_rng (steps : list nat) (st : decode_state Latent) (rng1 rng2 : Rng) :
  temperature_on temperature = false →
  decode_loop' steps st rng1 = with_rng rng1 (decode_loop' steps st rng2).
Proof.
  intros Htemp. revert st rng1 rng2.
  induction steps as [|m steps IH]; intros st rng1 rng2; cbn [decode_loop]; [done|].
  rewrite (decode_step_rng m st rng1 rng2 Htemp).
  destruct (decode_step' m st rng2) as [[st1 rng3]|e]; [|done]. simpl.
  destruct (negb (any3 (mask st1))); [done|]. apply IH.
Qed.

Lemma final_completion_rng (st : decode_state Latent) (rng1 rng2 : Rng) :
  final_completion' st rng1 = with_rng rng1 (final_completion' st rng2).
Proof.
  unfold final_completion, score_pass.
  destruct (any3 (mask st)); [|done]. simpl.
  match goal with |- context [foldM ?f st ?l] => destruct (foldM f st l) as [st1|e] end;
    done.
Qed.

Lemma forward_inference_rng (context_latents : tensor3 Latent) (rng1 rng2 : Rng) :
  temperature_on temperature = false →
  forward_inference' context_latents rng1 = forward_inference' context_latents rng2.
Proof.
  intros Htemp. unfold forward_inference, forward_inference_state.
  rewrite (decode_loop_rng _ _ rng1 rng2 Htemp).
  destruct (decode_loop' _ _ rng2) as [[st1 rng3]|e]; [|done]. simpl.
  rewrite (final_completion_rng st1 rng1 rng3).
  destruct (final_completion' st1 rng3) as [[st2 rng4]|e]; [|done]. simpl.
  by destruct (verify_mask && any3 (mask st2)).
Qed.

End InferenceFacts.


(** *** The call returns *)

Section ScoringReturns.
Context {F Latent Emb Row Cond Rng : Type}.
Context `{!FloatOps F, !DynamicsModel Latent Emb Row Cond, !RowOps F Row,
          !RandomSource Rng Row}.
Variables (self_training : bool) (B T_ctx P H : nat).
Variables (conditioning : option Cond) (temperature : Q).

(** The transformer returns a tensor of the shape it is given and, when the
    temperature calls for sampling, the sampler accepts the probabilities of
    the softmax and returns one index per row. *)
Hypothesis transformer_shape : ∀ x c B' T' P',
  has_shape3 B' T' P' x = true → has_shape3 B' T' P' (transformer x c) = true.
Hypothesis sample_returns : temperature_on temperature = true →
  ∀ (logits : tensor3 Row) (rng : Rng) B' T' P',
    has_shape3 B' T' P' logits = true →
    ∃ sampled rng',
      categorical_sample (map3 softmax logits) rng = Ok (sampled, rng')
      ∧ has_shape3 B' T' P' sampled = true.


End ScoringReturns.

Section InferenceReturns.
Context {F Latent Emb Row Cond Rng : Type}.
Context `{!FloatOps F, !DynamicsModel Latent Emb Row Cond, !RowOps F Row,
          !RandomSource Rng Row}.
Variables (self_training : bool) (B T_ctx P H : nat) (num_steps : Z).
Variables (index_to_latents_fn : nat → Latent) (conditioning : option Cond).
Variables (schedule_k : F) (temperature : Q) (verify_mask : bool).

(** The scoring of lines 113-127 (the network pass, the softmax and the
    draw of the indices) returns, on a grid of the shape [B, T_ctx + H, P],
    confidences and indices of that shape; and [math.ceil(... .item())]
    returns on the values the schedule takes at the steps of the call. *)
Hypothesis scores_return : ∀ (sampling : bool) (st : decode_state Latent) (rng : Rng),
  (sampling = true → temperature_on temperature = true) →
  well_shaped B T_ctx P H st →
  ∃ max_probs predicted_indices rng',
    score_pass self_training B T_ctx P H conditioning temperature sampling st rng
      = Ok (max_probs, predicted_indices, rng')
    ∧ has_shape3 B (T_ctx + H) P max_probs = true
    ∧ has_shape3 B (T_ctx + H) P predicted_indices = true.
Hypothesis ceil_defined : ∀ (m : nat) (raw : F),
  m < Z.to_nat num_steps →
  exp_schedule_torch schedule_k (Z.of_nat m) num_steps (P_total P H) = Ok raw →
  ∃ n, F_ceil_item raw = Ok n.

Local Abbreviation well_shaped' := (well_shaped B T_ctx P H).
Local Abbreviation commits' := (commits T_ctx).










End InferenceReturns.

(** *** The training pass returns *)

Lemma length_flatten3 {A : Type} (B T P : nat) (x : tensor3 A) :
  has_shape3 B T P x = true → length (flatten3 x) = B * T * P.
Proof.
  intros [HB Hall]%has_shape3_spec. unfold flatten3.
  rewrite (length_join_same P), (length_join_same T), HB; [done| |].
  - eapply Forall_impl; [exact Hall|]. by intros m [? _].
  - apply Forall_forall. intros r (m & Hr & Hm)%list_elem_of_join.
    rewrite Forall_forall in Hall. destruct (Hall m Hm) as [_ Hrows].
    rewrite Forall_forall in Hrows. by apply Hrows.
Qed.

Section ForwardReturns.
Context {F Latent Emb Row Cond Rng : Type}.
Context `{!FloatOps F, !DynamicsModel Latent Emb Row Cond, !RowOps F Row,
          !RandomSource Rng Row}.

(** The draws have the shapes asked for, and the drawn timesteps are below
    their bound. *)
Hypothesis rand3_shape : ∀ B T P (rng : Rng),
  has_shape3 B T P (rand3 (Row:=Row) B T P rng).1 = true.
Hypothesis randint2_range : ∀ high B P (rng : Rng) b p,
  0 < high → b < B → p < P →
  ∃ t, (row ← (randint2 (Row:=Row) high B P rng).1 !! b; row !! p) = Some t ∧ t < high.

Lemma clear_anchors_returns (B T P : nat) (anchor_idx : list (list nat)) (m : tensor3 bool) :
  has_shape3 B T P m = true →
  (∀ b p, b < B → p < P → ∃ t, (row ← anchor_idx !! b; row !! p) = Some t ∧ t < T) →
  ∃ m', clear_anchors B P anchor_idx m = Ok m' ∧ has_shape3 B T P m' = true.
Proof.
  intros Hm Hanchor. unfold clear_anchors.
  apply (foldM_defined (λ m, has_shape3 B T P m = true)); [|done].
  intros m1 b Hb%elem_of_seq Hm1.
  apply (foldM_defined (λ m, has_shape3 B T P m = true)); [|done].
  intros m2 p Hp%elem_of_seq Hm2.
  destruct (Hanchor b p) as (t & Ht & HtT); [lia..|].
  destruct (write3_defined m2 b t p false) as [m3 Hw].
  { apply (get3_is_Some _ _ _ _ _ _ _ Hm2); lia. }
  exists m3. split.
  - rewrite Ht. exact Hw.
  - by rewrite (write3_shape _ _ _ _ _ _ _ _ _ Hw).
Qed.

Lemma masked_cross_entropy_returns (B T P K : nat) (logits : tensor3 Row)
    (targets : tensor3 nat) (m : tensor3 bool) :
  has_shape3 B T P logits = true →
  has_shape3 B T P targets = true →
  has_shape3 B T P m = true →
  Forall (λ r, num_classes r = K) (flatten3 logits) →
  Forall (λ c, c < K) (flatten3 targets) →
  ∃ l, masked_cross_entropy logits targets m = Ok l.
Proof.
  intros Hlogits Htargets Hm Hrows Hcs. unfold masked_cross_entropy.
  rewrite (length_flatten3 _ _ _ _ Hlogits), (length_flatten3 _ _ _ _ Htargets).
  rewrite Nat.eqb_refl. cbn [negb].
  destruct (mapM_result_defined (λ rt : Row * nat, cross_entropy rt.1 rt.2)
              (zip (flatten3 logits) (flatten3 targets))) as [loss_per Hper].
  { intros [r c] Hin. unfold cross_entropy. cbn [fst snd].
    pose proof (elem_of_zip_l _ _ _ _ Hin) as Hr.
    pose proof (elem_of_zip_r _ _ _ _ Hin) as Hc.
    rewrite Forall_forall in Hrows. rewrite Forall_forall in Hcs.
    rewrite (Hrows _ Hr). destruct (Nat.ltb_spec c K) as [_|Hge]; [by eexists|].
    specialize (Hcs _ Hc). lia. }
  rewrite Hper. cbn [mbind result_bind].
  apply mapM_result_Forall2, Forall2_length in Hper.
  rewrite length_zip_with in Hper.
  rewrite <- Hper, length_fmap,
    (length_flatten3 _ _ _ _ Hlogits), (length_flatten3 _ _ _ _ Htargets),
    (length_flatten3 _ _ _ _ Hm).
  rewrite Nat.min_id, Nat.eqb_refl. by eexists.
Qed.

(** X1. The two stages of a training pass that [forward] carries out
    itself raise nothing on tensors of the shape [B, T, P] with [T > 0]:
    the masking of lines 40-52 returns masked latents and a mask of that
    shape, when the draws have the shapes asked for; and the loss of lines
    70-76 returns on logits of that shape with [K] classes per row, that
    mask, and targets of that shape which are all below [K]. (A target that
    is not below [K] raises [IndexError]; the network pass of lines 56-64
    between the two stages is not covered.) *)
Theorem forward_training_stages_return (B T P K : nat) (discrete_latents : tensor3 Latent)
    (rng : Rng) :
  0 < T →
  has_shape3 B T P discrete_latents = true →
  ∃ x m rng',
    random_masking B T P discrete_latents rng = Ok (x, m, rng')
    ∧ has_shape3 B T P x = true
    ∧ has_shape3 B T P m = true
    ∧ ∀ (logits : tensor3 Row) (targets : tensor3 nat),
        has_shape3 B T P logits = true →
        has_shape3 B T P targets = true →
        Forall (λ r, num_classes r = K) (flatten3 logits) →
        Forall (λ c, c < K) (flatten3 targets) →
        ∃ l, masked_cross_entropy logits targets m = Ok l.
Proof.
  intros HT Hx. unfold random_masking.
  destruct (rand_scalar rng) as [r rng1].
  pose proof (rand3_shape B T P rng1) as Hu.
  destruct (rand3 B T P rng1) as [u rng2]. simpl in Hu.
  destruct (Nat.eqb_spec T 0) as [?|_]; [lia|].
  pose proof (randint2_range T B P rng2) as Hanchor.
  destruct (randint2 T B P rng2) as [anchor_idx rng3]. simpl in Hanchor.
  destruct (clear_anchors_returns B T P anchor_idx
              (map3 (λ x, Qltb x (0.5 + r * 0.5)) u)) as (m & Hclear & Hm).
  { by apply has_shape3_map3. }
  { intros b p Hb Hp. by apply Hanchor. }
  rewrite Hclear. cbn [mbind result_bind].
  unfold where_mask_token. rewrite Hm, Hx. cbn [andb mbind result_bind].
  set (masked := zip_with _ m _).
  assert (has_shape3 B T P masked = true) as Hmasked.
  { apply has_shape3_spec in Hm as [HBm Hallm].
    apply has_shape3_spec in Hx as [HBx Hallx].
    apply has_shape3_spec. unfold masked. rewrite length_zip_with. split; [lia|].
    apply Forall_forall. intros mm (mb & xb & -> & Hmb & Hxb)%elem_of_zip_with.
    rewrite Forall_forall in Hallm. rewrite Forall_forall in Hallx.
    destruct (Hallm _ Hmb) as [HTm Hrm]. destruct (Hallx _ Hxb) as [HTx Hrx].
    rewrite length_zip_with. split; [lia|].
    apply Forall_forall. intros rr (rm & rx & -> & Hrm' & Hrx')%elem_of_zip_with.
    rewrite Forall_forall in Hrm. rewrite Forall_forall in Hrx.
    rewrite length_zip_with, (Hrm _ Hrm'), (Hrx _ Hrx'). lia. }
  exists masked, m, rng3. split_and!; [done..|].
  intros logits targets Hlogits Htargets Hrows Hcs.
  by apply (masked_cross_entropy_returns B T P K).
Qed.

End ForwardReturns.

Section Determinism.
Context {F Latent Emb Row Cond Rng : Type}.
Context `{!FloatOps F, !DynamicsModel Latent Emb Row Cond, !RowOps F Row,
          !RandomSource Rng Row}.

(** C8. With temperature 0 the grid [forward_inference] returns (or the
    exception it raises) does not depend on the state of the random number
    generator: two calls with the same arguments give the same result. *)
Theorem forward_inference_temperature_zero_deterministic
    (self_training : bool) (B T_ctx P H : nat) (num_steps : Z)
    (index_to_latents_fn : nat → Latent) (conditioning : option Cond)
    (schedule_k : F) (verify_mask : bool)
    (context_latents : tensor3 Latent) (rng1 rng2 : Rng) :
  forward_inference self_training B T_ctx P H num_steps index_to_latents_fn
    conditioning schedule_k 0 verify_mask context_latents rng1
  = forward_inference self_training B T_ctx P H num_steps index_to_latents_fn
      conditioning schedule_k 0 verify_mask context_latents rng2.
Proof. by apply forward_inference_rng. Qed.

End Determinism.

Section ScheduleFacts.
Context {F : Type} `{!FloatOps F}.

Lemma schedule_divisor_pos (T : Z) : (1 ≤ schedule_divisor T)%Z.
Proof. unfold schedule_divisor. lia. Qed.

Lemma py_truediv_divisor (t T : Z) :
  py_truediv t (schedule_divisor T) = Ok (F_truediv t (schedule_divisor T)).
Proof.
  unfold py_truediv.
  destruct (Z.eqb_spec (schedule_divisor T) 0) as [E|_]; [|done].
  pose proof (schedule_divisor_pos T). lia.
Qed.


Context `{!Float32Values F}.


End ScheduleFacts.

(** ** More on [DynamicsModel.forward_inference] *)

Section InferenceValues.
Context {F Latent Emb Row Cond Rng : Type}.
Context `{!FloatOps F, !DynamicsModel Latent Emb Row Cond, !RowOps F Row,
          !RandomSource Rng Row}.
Variables (self_training : bool) (B T_ctx P H : nat) (num_steps : Z).
Variables (index_to_latents_fn : nat → Latent) (conditioning : option Cond).
Variables (schedule_k : F) (temperature : Q).

Local Abbreviation commit_group' := (commit_group T_ctx index_to_latents_fn).
Local Abbreviation commit_groups' := (commit_groups T_ctx index_to_latents_fn).
Local Abbreviation group_writes' := (group_writes T_ctx).
Local Abbreviation commits' := (commits T_ctx).
Local Abbreviation advances' := (advances T_ctx).
Local Abbreviation unmask_batch_element' :=
  (unmask_batch_element T_ctx P index_to_latents_fn).
Local Abbreviation complete_batch_element' :=
  (complete_batch_element T_ctx index_to_latents_fn).
Local Abbreviation score_pass' :=
  (score_pass self_training B T_ctx P H conditioning temperature).
Local Abbreviation decode_step' :=
  (decode_step self_training B T_ctx P H num_steps index_to_latents_fn conditioning
     schedule_k temperature).
Local Abbreviation decode_loop' :=
  (decode_loop self_training B T_ctx P H num_steps index_to_latents_fn conditioning
     schedule_k temperature).
Local Abbreviation final_completion' :=
  (final_completion self_training B T_ctx P H index_to_latents_fn conditioning temperature).
Local Abbreviation P_total' := (P_total P H).
Local Abbreviation initial_state' := (initial_state B P H).
Local Abbreviation forward_inference_state' :=
  (forward_inference_state self_training B T_ctx P H num_steps index_to_latents_fn
     conditioning schedule_k temperature).
Local Abbreviation forward_inference' :=
  (forward_inference self_training B T_ctx P H num_steps index_to_latents_fn
     conditioning schedule_k temperature).

(** *** The values written *)

Lemma commit_group_written (R : nat → nat → nat → Latent → Prop) (b : nat)
    (h_sel p_sel : list nat) (predicted_indices : tensor3 nat)
    (st st' : decode_state Latent) (uh : nat) :
  (∀ t p i, get3 predicted_indices b t p = Some i → R b t p (index_to_latents_fn i)) →
  commit_group' b h_sel p_sel predicted_indices st uh = Ok st' →
  written_cells R st → written_cells R st'.
Proof.
  intros HR Hrun Hinv.
  pose proof (commit_group_commits _ _ _ _ _ _ _ _ _ Hrun) as (_ & _ & Hgrid & Hw & _).
  intros b' t p Hin. rewrite Hw in Hin.
  destruct (decide ((b', t, p) ∈ group_writes' b h_sel p_sel [uh])) as [Hnew|Hold].
  - clear Hin. apply group_writes_elem in Hnew as (-> & h & -> & ->%list_elem_of_singleton & Hp).
    apply masked_select_group in Hp.
    unfold commit_group in Hrun.
    set (p_list := masked_select p_sel ((λ h, h =? uh) <$> h_sel)) in *.
    destruct (length p_list =? 0) eqn:Hlen.
    { apply Nat.eqb_eq in Hlen. destruct p_list; [by apply elem_of_nil in Hp|done]. }
    apply bind_Ok in Hrun as (idx_sel & Hidx & Hrun).
    apply bind_Ok in Hrun as (g' & Hg' & Hrun).
    apply bind_Ok in Hrun as (m' & Hm' & [= <-]). simpl.
    apply mapM_result_Forall2 in Hidx.
    pose proof (Forall2_length _ _ _ Hidx) as Hlens.
    destruct (foldM_write3 b (T_ctx + uh) fst snd _ _ _ Hg') as (_ & Hval & _).
    destruct (Hval p) as ([p' v] & Ha & Hp' & Hget).
    { rewrite fst_zip; [done|]. rewrite length_fmap. lia. }
    simpl in Hp'. subst p'. simpl in Hget.
    apply list_elem_of_lookup in Ha as [j Hj].
    apply lookup_zip_with_Some in Hj as (p0 & v0 & [= <- <-] & Hpj & Hvj).
    rewrite list_lookup_fmap in Hvj.
    destruct (idx_sel !! j) as [i|] eqn:Hi; [|done]. injection Hvj as <-.
    pose proof (Forall2_lookup_lr _ _ _ _ _ _ Hidx Hpj Hi) as Hread.
    apply of_option_Ok in Hread.
    exists (index_to_latents_fn i). split; [done|by apply HR].
  - apply elem_of_app in Hin as [Hin|Hin]; [|done].
    destruct (Hinv _ _ _ Hin) as (v & Hv & HRv).
    exists v. split; [|done]. rewrite Hgrid; [done|].
    intros (-> & h & -> & Hsel). apply Hold.
    apply group_writes_elem. split; [done|]. exists h. split; [done|].
    apply list_elem_of_fmap in Hsel as (p0 & [= -> ->] & Hp0).
    split; [by apply list_elem_of_singleton|by apply masked_select_group].
Qed.

Lemma commit_groups_written (R : nat → nat → nat → Latent → Prop) (b : nat)
    (h_sel p_sel : list nat) (predicted_indices : tensor3 nat)
    (st st' : decode_state Latent) :
  (∀ t p i, get3 predicted_indices b t p = Some i → R b t p (index_to_latents_fn i)) →
  commit_groups' b h_sel p_sel predicted_indices st = Ok st' →
  written_cells R st → written_cells R st'.
Proof.
  intros HR Hrun Hinv. unfold commit_groups in Hrun.
  refine (foldM_inv (written_cells R) _ _ _ _ _ Hinv Hrun).
  intros s uh s' _ Hs Hstep. by eapply commit_group_written.
Qed.

Lemma unmask_batch_element_written (R : nat → nat → nat → Latent → Prop) (Pt : Z) (raw : F)
    (horizon_probs : tensor3 F) (predicted_indices : tensor3 nat)
    (st st' : decode_state Latent) (b : nat) :
  (∀ t p i, get3 predicted_indices b t p = Some i → R b t p (index_to_latents_fn i)) →
  unmask_batch_element' Pt raw horizon_probs predicted_indices st b = Ok st' →
  written_cells R st → written_cells R st'.
Proof.
  intros HR Hrun Hinv. unfold unmask_batch_element in Hrun.
  apply bind_Ok in Hrun as (m_b & _ & Hrun).
  destruct (length (where_true (mjoin m_b)) =? 0); [by injection Hrun as <-|].
  apply bind_Ok in Hrun as (n & _ & Hrun).
  apply bind_Ok in Hrun as (hp & _ & Hrun).
  apply bind_Ok in Hrun as (pos & _ & Hrun).
  apply bind_Ok in Hrun as (sel & _ & Hrun).
  destruct (P =? 0); [done|].
  destruct (length _ =? 0); [by injection Hrun as <-|].
  by eapply commit_groups_written.
Qed.

Lemma complete_batch_element_written (R : nat → nat → nat → Latent → Prop)
    (predicted_indices : tensor3 nat) (st st' : decode_state Latent) (b : nat) :
  (∀ t p i, get3 predicted_indices b t p = Some i → R b t p (index_to_latents_fn i)) →
  complete_batch_element' predicted_indices st b = Ok st' →
  written_cells R st → written_cells R st'.
Proof.
  intros HR Hrun Hinv. unfold complete_batch_element in Hrun.
  apply bind_Ok in Hrun as (m_b & _ & Hrun).
  destruct (length _ =? 0); [by injection Hrun as <-|].
  by eapply commit_groups_written.
Qed.

Lemma decode_step_written (R : nat → nat → nat → Latent → Prop) (m : nat)
    (st st' : decode_state Latent) (rng rng' : Rng) :
  (∀ b t p i, R b t p (index_to_latents_fn i)) →
  decode_step' m st rng = Ok (st', rng') →
  written_cells R st → written_cells R st'.
Proof.
  intros HR Hrun Hinv. unfold decode_step in Hrun.
  apply bind_Ok in Hrun as (raw & _ & Hrun).
  apply bind_Ok in Hrun as ([[max_probs pred] rng1] & _ & Hrun).
  apply bind_Ok in Hrun as (st1 & Hfold & [= <- <-]).
  refine (foldM_inv (written_cells R) _ _ _ _ _ Hinv Hfold).
  intros s b s' _ Hs Hstep. eapply unmask_batch_element_written; [|done..]. eauto.
Qed.

Lemma decode_loop_written (R : nat → nat → nat → Latent → Prop) (steps : list nat)
    (st st' : decode_state Latent) (rng rng' : Rng) :
  (∀ b t p i, R b t p (index_to_latents_fn i)) →
  decode_loop' steps st rng = Ok (st', rng') →
  written_cells R st → written_cells R st'.
Proof.
  intros HR. revert st rng.
  induction steps as [|m steps IH]; intros st rng Hrun Hinv; cbn [decode_loop] in Hrun.
  - by injection Hrun as <- <-.
  - apply bind_Ok in Hrun as ([st1 rng1] & Hstep & Hrun).
    pose proof (decode_step_written R _ _ _ _ _ HR Hstep Hinv) as Hinv1.
    destruct (negb (any3 (mask st1))); [by injection Hrun as <- <-|by eapply IH].
Qed.

Lemma final_completion_written (R : nat → nat → nat → Latent → Prop)
    (st st' : decode_state Latent) (rng rng' : Rng) :
  (∀ max_probs predicted_indices rng1,
     score_pass' false st rng = Ok (max_probs, predicted_indices, rng1) →
     ∀ b t p i, get3 predicted_indices b t p = Some i → R b t p (index_to_latents_fn i)) →
  final_completion' st rng = Ok (st', rng') →
  written_cells R st → written_cells R st'.
Proof.
  intros HR Hrun Hinv. unfold final_completion in Hrun.
  destruct (any3 (mask st)); [|by injection Hrun as <- <-].
  apply bind_Ok in Hrun as ([[max_probs pred] rng1] & Hscore & Hrun).
  apply bind_Ok in Hrun as (st1 & Hfold & [= <- <-]).
  refine (foldM_inv (written_cells R) _ _ _ _ _ Hinv Hfold).
  intros s b s' _ Hs Hstep. eapply complete_batch_element_written; [|done..].
  intros t p i. by eapply HR.
Qed.

(** At the return every horizon cell has been assigned. *)
Lemma horizon_cells_written (verify_mask : bool) (context_latents : tensor3 Latent)
    (rng rng' : Rng) (st : decode_state Latent) (b h p : nat) :
  forward_inference_state' verify_mask context_latents rng = Ok (st, rng') →
  b < B → h < H → p < P →
  (b, T_ctx + h, p) ∈ writes st.
Proof.
  intros Hrun Hb Hh Hp.
  destruct (forward_inference_state_effect _ _ _ _ _ _ _ _ _ _ _ _ _ _ _ Hrun) as [Hadv Hany].
  apply (advances_initial_log _ _ _ _ _ _ Hadv). exists h. split; [done|].
  destruct Hadv as (_ & _ & Hdom & _).
  destruct (proj2 (Hdom b h p)) as [[] Hv]; [|by apply any3_false_get3 in Hv|done].
  eapply get3_is_Some; [apply initial_mask_shape|done..].
Qed.


(** *** The grid returned *)

(** X7. The grid [forward_inference] returns has the shape
    [B, T_ctx + H, P] (line 205), for a context of the shape [B, T_ctx, P]. *)
Theorem forward_inference_output_shape (verify_mask : bool)
    (context_latents : tensor3 Latent) (rng : Rng) (out : tensor3 Latent) :
  has_shape3 B T_ctx P context_latents = true →
  forward_inference' verify_mask context_latents rng = Ok out →
  has_shape3 B (T_ctx + H) P out = true.
Proof.
  intros Hctx Hrun. unfold forward_inference in Hrun.
  apply bind_Ok in Hrun as ([st rng'] & Hstate & [= <-]).
  destruct (forward_inference_state_effect _ _ _ _ _ _ _ _ _ _ _ _ _ _ _ Hstate)
    as [(_ & _ & _ & _ & Hsg & _) _].
  rewrite Hsg. by apply initial_state_well_shaped.
Qed.

(** X8. Every horizon cell of the grid [forward_inference] returns holds
    [index_to_latents_fn] of a codebook index (lines 166-168 and 195-197):
    no mask token and no other value is left in the horizon. *)
Theorem forward_inference_horizon_is_codebook (verify_mask : bool)
    (context_latents : tensor3 Latent) (rng : Rng) (out : tensor3 Latent) (b h p : nat) :
  forward_inference' verify_mask context_latents rng = Ok out →
  b < B → h < H → p < P →
  ∃ i, get3 out b (T_ctx + h) p = Some (index_to_latents_fn i).
Proof.
  intros Hrun Hb Hh Hp. unfold forward_inference in Hrun.
  apply bind_Ok in Hrun as ([st rng'] & Hstate & [= <-]).
  pose proof (horizon_cells_written _ _ _ _ _ _ _ _ Hstate Hb Hh Hp) as Hin.
  set (R := λ (_ _ _ : nat) (v : Latent), ∃ i, v = index_to_latents_fn i).
  assert (written_cells R st) as Hinv.
  { unfold forward_inference_state in Hstate.
    apply bind_Ok in Hstate as ([st1 rng1] & Hloop & Hstate).
    apply bind_Ok in Hstate as ([st2 rng2] & Hfinal & Hstate).
    destruct (verify_mask && any3 (mask st2)); [done|]. injection Hstate as <- <-.
    eapply final_completion_written; [|exact Hfinal|].
    { intros. by eexists. }
    eapply decode_loop_written; [|exact Hloop|].
    { intros. by eexists. }
    by intros ? ? ? ?%elem_of_nil. }
  destruct (Hinv _ _ _ Hin) as (v & Hv & i & ->). by exists i.
Qed.

(** X9. With [num_steps ≤ 0] the loop body never runs and the final
    completion (lines 175-198) decodes in one pass: every horizon cell of the
    grid returned is the latent of the argmax class at that cell, for the
    logits of the context followed by mask tokens; no random draw is made,
    whatever the temperature. *)
Theorem forward_inference_without_steps (verify_mask : bool)
    (context_latents : tensor3 Latent) (rng : Rng) (out : tensor3 Latent) (b h p : nat) :
  (num_steps ≤ 0)%Z →
  forward_inference' verify_mask context_latents rng = Ok out →
  b < B → h < H → p < P →
  ∃ row,
    get3 (scaled_logits_of conditioning temperature
            (input_latents (initial_state' context_latents))) b (T_ctx + h) p
      = Some row
    ∧ get3 out b (T_ctx + h) p = Some (index_to_latents_fn (row_max (softmax row)).2).
Proof.
  intros Hsteps Hrun Hb Hh Hp. unfold forward_inference in Hrun.
  apply bind_Ok in Hrun as ([st rng'] & Hstate & [= <-]).
  pose proof (horizon_cells_written _ _ _ _ _ _ _ _ Hstate Hb Hh Hp) as Hin.
  set (grid0 := input_latents (initial_state' context_latents)).
  set (R := λ (b t p : nat) (v : Latent),
         ∃ row, get3 (scaled_logits_of conditioning temperature grid0) b t p = Some row
              ∧ v = index_to_latents_fn (row_max (softmax row)).2).
  assert (written_cells R st) as Hinv.
  { unfold forward_inference_state in Hstate.
    replace (Z.to_nat num_steps) with 0 in Hstate by lia. cbn [seq decode_loop] in Hstate.
    apply bind_Ok in Hstate as ([st1 rng1] & [= <- <-] & Hstate).
    apply bind_Ok in Hstate as ([st2 rng2] & Hfinal & Hstate).
    destruct (verify_mask && any3 (mask st2)); [done|]. injection Hstate as <- <-.
    eapply final_completion_written; [|exact Hfinal|].
    - intros max_probs pred rng1 Hscore b' t' p' i Hi.
      unfold score_pass, forward in Hscore. simpl in Hscore.
      injection Hscore as _ <- _.
      rewrite !get3_map3 in Hi. unfold R, scaled_logits_of, grid0.
      destruct (get3 (if temperature_on temperature then _ else _) b' t' p') as [row|] eqn:Hrow;
        [|done].
      injection Hi as <-. by exists row.
    - by intros ? ? ? ?%elem_of_nil. }
  destruct (Hinv _ _ _ Hin) as (v & Hv & row & Hrow & ->). by exists row.
Qed.

(** *** The final completion and the verification flag *)

Lemma final_completion_unmasked (st : decode_state Latent) (rng : Rng) :
  any3 (mask st) = false → final_completion' st rng = Ok (st, rng).
Proof. intros Hany. unfold final_completion. by rewrite Hany. Qed.

(** X10. The assertion behind [NG_VERIFY_MASK=1] (lines 200-203) never
    fires: with the flag on, the call has the same outcome, value or
    exception, as with the flag off. *)
Theorem forward_inference_verification_never_fires
    (context_latents : tensor3 Latent) (rng : Rng) :
  forward_inference_state self_training B T_ctx P H num_steps index_to_latents_fn
    conditioning schedule_k temperature true context_latents rng
  = forward_inference_state self_training B T_ctx P H num_steps index_to_latents_fn
      conditioning schedule_k temperature false context_latents rng
  ∧ forward_inference self_training B T_ctx P H num_steps index_to_latents_fn
      conditioning schedule_k temperature true context_latents rng
    = forward_inference self_training B T_ctx P H num_steps index_to_latents_fn
        conditioning schedule_k temperature false context_latents rng.
Proof.
  assert (forward_inference_state' true context_latents rng
          = forward_inference_state' false context_latents rng) as Heq.
  { unfold forward_inference_state.
    destruct (decode_loop' _ _ rng) as [[st1 rng1]|e] eqn:Hloop; [|done].
    cbn [mbind result_bind].
    destruct (final_completion' st1 rng1) as [[st2 rng2]|e] eqn:Hfinal; [|done].
    cbn [mbind result_bind].
    eapply final_completion_effect in Hfinal as [_ Hany].
    - by rewrite Hany.
    - eapply advances_mask_shape; [|apply initial_mask_shape].
      eapply decode_loop_effect; [exact Hloop|apply initial_mask_shape]. }
  split; [done|]. unfold forward_inference. by rewrite Heq.
Qed.

Lemma num_masked_zero_any3 (m : tensor3 bool) :
  has_shape3 B H P m = true → (∀ b, b < B → num_masked m b = 0) → any3 m = false.
Proof.
  intros Hshape Hzero. apply any3_false_get3. intros b h p Hget.
  destruct (get3_Some_lt _ _ _ _ _ _ _ _ Hshape Hget) as (Hb & Hh & Hp).
  specialize (Hzero b Hb). unfold num_masked in Hzero.
  destruct (m !! b) as [m_b|] eqn:Hmb; [|by unfold get3 in Hget; rewrite Hmb in Hget].
  destruct (shape3_row _ _ _ _ _ _ Hshape Hmb) as [HH Hrows].
  rewrite (get3_row _ _ _ _ _ Hmb) in Hget.
  assert (mjoin m_b !! (h * P + p) = Some true) as Hflat.
  { rewrite (join_lookup_div_mod P) by (done || lia).
    replace ((h * P + p) / P) with h by (apply Nat.div_unique with p; lia).
    replace ((h * P + p) mod P) with p by (apply Nat.mod_unique with h; lia).
    done. }
  apply where_true_spec in Hflat.
  destruct (where_true (mjoin m_b)); [by apply elem_of_nil in Hflat|done].
Qed.

(** On the last scheduled step every position still masked is committed. *)
Lemma last_step_clears (m : nat) (st st' : decode_state Latent) (rng rng' : Rng) :
  Z.of_nat m = (num_steps - 1)%Z →
  F_ceil_item (F_of_Z P_total') = Ok P_total' →
  has_shape3 B H P (mask st) = true →
  decode_step' m st rng = Ok (st', rng') →
  any3 (mask st') = false.
Proof.
  intros Hm Hceil Hshape Hstep.
  destruct (decode_step_effect _ _ _ _ _ _ _ _ _ _ _ _ _ _ _ Hstep Hshape) as [Hadv Hcount].
  apply num_masked_zero_any3; [by eapply advances_mask_shape|].
  intros b Hb. destruct (Hcount b Hb) as (k & Hk & Hn).
  specialize (Hn (F_of_Z P_total') P_total').
  unfold exp_schedule_torch in Hn. rewrite py_truediv_divisor, Hm, Z.eqb_refl in Hn.
  specialize (Hn eq_refl Hceil). unfold spec_commit_count in Hn. lia.
Qed.

Lemma decode_loop_ends_unmasked (steps : list nat) (m : nat)
    (st st' : decode_state Latent) (rng rng' : Rng) :
  Z.of_nat m = (num_steps - 1)%Z →
  F_ceil_item (F_of_Z P_total') = Ok P_total' →
  has_shape3 B H P (mask st) = true →
  decode_loop' (steps ++ [m]) st rng = Ok (st', rng') →
  any3 (mask st') = false.
Proof.
  intros Hm Hceil. revert st rng.
  induction steps as [|m0 steps IH]; intros st rng Hshape Hrun;
    cbn [app decode_loop] in Hrun;
    apply bind_Ok in Hrun as ([st1 rng1] & Hstep & Hrun).
  - pose proof (last_step_clears _ _ _ _ _ Hm Hceil Hshape Hstep) as Hany.
    rewrite Hany in Hrun. by injection Hrun as <- <-.
  - destruct (any3 (mask st1)) eqn:Hany; cbn [negb] in Hrun; [|by injection Hrun as <- <-].
    eapply IH; [|exact Hrun]. eapply advances_mask_shape; [|exact Hshape].
    by eapply decode_step_effect.
Qed.

(** X11. With at least one step, and the float of [P_total] rounding up to
    [P_total] itself, the loop alone commits every position: its last step
    asks for all of [P_total] (line 104), so the loop ends with nothing
    masked, the final completion (lines 176-198) makes no scoring pass and
    changes nothing, and the call is the loop. *)
Theorem forward_inference_final_completion_idle (verify_mask : bool)
    (context_latents : tensor3 Latent) (rng : Rng) :
  (1 ≤ num_steps)%Z →
  F_ceil_item (F_of_Z P_total') = Ok P_total' →
  forward_inference_state' verify_mask context_latents rng
    = decode_loop' (seq 0 (Z.to_nat num_steps)) (initial_state' context_latents) rng
  ∧ ∀ st rng',
      decode_loop' (seq 0 (Z.to_nat num_steps)) (initial_state' context_latents) rng
        = Ok (st, rng') →
      any3 (mask st) = false ∧ final_completion' st rng' = Ok (st, rng').
Proof.
  intros Hsteps Hceil.
  assert (∀ st rng',
      decode_loop' (seq 0 (Z.to_nat num_steps)) (initial_state' context_latents) rng
        = Ok (st, rng') →
      any3 (mask st) = false) as Hends.
  { intros st rng' Hloop.
    destruct (Z.to_nat num_steps) as [|n] eqn:Hn; [lia|].
    rewrite seq_S in Hloop. simpl in Hloop.
    eapply (decode_loop_ends_unmasked _ n); [lia|done|apply initial_mask_shape|exact Hloop]. }
  split.
  - unfold forward_inference_state.
    destruct (decode_loop' _ _ rng) as [[st1 rng1]|e] eqn:Hloop; [|done].
    cbn [mbind result_bind]. pose proof (Hends _ _ eq_refl) as Hany.
    rewrite (final_completion_unmasked _ _ Hany). cbn [mbind result_bind].
    by rewrite Hany, andb_false_r.
  - intros st rng' Hloop. pose proof (Hends _ _ Hloop) as Hany.
    split; [done|by apply final_completion_unmasked].
Qed.

(** X12. A decode step makes progress on every batch element that still
    has masked positions, whatever the schedule asks for (lines 143-151): it
    commits at least [min(max(P_total // 16, 1), num_masked_b)] of them, so
    at least one. *)
Theorem decode_step_makes_progress (m : nat) (st st' : decode_state Latent) (rng rng' : Rng)
    (b : nat) (raw : F) (n : Z) :
  has_shape3 B H P (mask st) = true →
  decode_step' m st rng = Ok (st', rng') →
  b < B →
  exp_schedule_torch schedule_k (Z.of_nat m) num_steps P_total' = Ok raw →
  F_ceil_item raw = Ok n →
  0 < num_masked (mask st) b →
  num_masked (mask st') b < num_masked (mask st) b
  ∧ (Z.min (k_floor P_total') (Z.of_nat (num_masked (mask st) b))
     ≤ Z.of_nat (num_masked (mask st) b) - Z.of_nat (num_masked (mask st') b))%Z.
Proof.
  intros Hshape Hstep Hb Hraw Hceil Hpos.
  destruct (decode_step_effect _ _ _ _ _ _ _ _ _ _ _ _ _ _ _ Hstep Hshape) as [_ Hcount].
  destruct (Hcount b Hb) as (k & Hk & Hn). specialize (Hn raw n Hraw Hceil).
  unfold spec_commit_count in Hn. unfold k_floor. lia.
Qed.

End InferenceValues.

Section InferenceConfidence.
Context {F Latent Emb Row Cond Rng : Type}.
Context `{!FloatOps F, !DynamicsModel Latent Emb Row Cond, !RowOps F Row,
          !RandomSource Rng Row}.
Variables (self_training : bool) (B T_ctx P H : nat) (num_steps : Z).
Variables (index_to_latents_fn : nat → Latent) (conditioning : option Cond).
Variables (schedule_k : F) (temperature : Q).

Local Abbreviation commits' := (commits T_ctx).
Local Abbreviation advances' := (advances T_ctx).
Local Abbreviation unmask_batch_element' :=
  (unmask_batch_element T_ctx P index_to_latents_fn).
Local Abbreviation score_pass' :=
  (score_pass self_training B T_ctx P H conditioning temperature).
Local Abbreviation decode_step' :=
  (decode_step self_training B T_ctx P H num_steps index_to_latents_fn conditioning
     schedule_k temperature).

Lemma flat_index (h p : nat) : p < P → (h * P + p) / P = h ∧ (h * P + p) mod P = p.
Proof.
  intros Hp. split.
  - symmetry. apply Nat.div_unique with p; lia.
  - symmetry. apply Nat.mod_unique with h; lia.
Qed.

Lemma unmask_batch_element_confident (Pt : Z) (raw : F) (horizon_probs : tensor3 F)
    (predicted_indices : tensor3 nat) (st st' : decode_state Latent) (b : nat)
    (hp_b : list (list F)) (h p h' p' : nat) (a c : F) :
  unmask_batch_element' Pt raw horizon_probs predicted_indices st b = Ok st' →
  has_shape3 B H P (mask st) = true →
  has_shape3 B H P horizon_probs = true →
  horizon_probs !! b = Some hp_b → comparable (mjoin hp_b) →
  get3 (mask st) b h p = Some true → get3 (mask st') b h p = Some false →
  get3 (mask st') b h' p' = Some true →
  get3 horizon_probs b h p = Some a → get3 horizon_probs b h' p' = Some c →
  F_ltb a c = false.
Proof.
  unfold unmask_batch_element.
  intros Hrun Hshape Hprobs Hhp_b Hcmp Htrue Hfalse Hleft Ha Hc.
  apply bind_Ok in Hrun as (m_b & Hmb%of_option_Ok & Hrun).
  destruct (shape3_row _ _ _ _ _ _ Hshape Hmb) as [_ Hrows].
  destruct (shape3_row _ _ _ _ _ _ Hprobs Hhp_b) as [_ Hprows].
  destruct (length (where_true (mjoin m_b)) =? 0); [injection Hrun as <-; congruence|].
  apply bind_Ok in Hrun as (n0 & Hceil & Hrun).
  apply bind_Ok in Hrun as (hp & Hhp%of_option_Ok & Hrun).
  assert (hp = hp_b) as -> by congruence.
  apply bind_Ok in Hrun as (pos_probs_flat & Hpos & Hrun).
  apply bind_Ok in Hrun as (sel_flat & Hsel & Hrun).
  destruct (Nat.eqb_spec P 0) as [?|HP]; [done|].
  assert (commits' b ((λ s, (s / P, s mod P)) <$> sel_flat)
        (group_writes T_ctx b ((λ s, s / P) <$> sel_flat) ((λ s, s mod P) <$> sel_flat)
           (torch_unique ((λ s, s / P) <$> sel_flat))) st st') as (Hset & Hframe & _).
  { destruct (Nat.eqb_spec (length ((λ s, s / P) <$> sel_flat)) 0) as [Hz|Hnz'].
    - injection Hrun as <-. rewrite length_fmap in Hz. apply nil_length_inv in Hz.
      subst sel_flat. apply commits_refl.
    - apply commit_groups_commits in Hrun. by rewrite zip_fmap_same in Hrun. }
  destruct (select_flat_spec _ _ _ _ Hsel) as (_ & Hsub & _).
  { by apply gather_length in Hpos. }
  { apply where_true_NoDup. }
  { pose proof (k_b_floor Pt n0 (Z.of_nat (length (where_true (mjoin m_b))))). lia. }
  (* the committed cell is selected *)
  destruct (decide ((h, p) ∈ (λ s, (s / P, s mod P)) <$> sel_flat)) as [Hin|Hnin].
  2:{ rewrite Hframe in Hfalse by (by intros [_ ?]). congruence. }
  apply list_elem_of_fmap in Hin as (s & [= -> ->] & Hs).
  (* the cell left masked is not, and was masked *)
  assert ((h', p') ∉ (λ s, (s / P, s mod P)) <$> sel_flat) as Hnin'.
  { intros Hin'%Hset. congruence. }
  rewrite Hframe in Hleft by (by intros [_ ?]).
  destruct (get3_Some_lt _ _ _ _ _ _ _ _ Hshape Hleft) as (_ & _ & Hp').
  destruct (flat_index h' p' Hp') as [Hdiv Hmod].
  set (s' := h' * P + p') in *.
  assert (s' ∉ sel_flat) as Hs'.
  { intros Hin'. apply Hnin'. apply list_elem_of_fmap. exists s'. by rewrite Hdiv, Hmod. }
  assert (s' ∈ where_true (mjoin m_b)) as Hs'm.
  { apply where_true_spec. rewrite (join_lookup_div_mod P) by (done || lia).
    rewrite Hdiv, Hmod. by rewrite <- (get3_row _ b _ _ _ Hmb). }
  apply list_elem_of_lookup in Hs'm as [j Hj].
  pose proof (Hsub _ Hs) as [i Hi]%list_elem_of_lookup.
  apply gather_Ok in Hpos.
  destruct (Forall2_lookup_l _ _ _ _ _ Hpos Hi) as (x & Hx & Hxs).
  destruct (Forall2_lookup_l _ _ _ _ _ Hpos Hj) as (y & Hy & Hys).
  rewrite (join_lookup_div_mod P) in Hxs by (done || lia).
  rewrite (join_lookup_div_mod P) in Hys by (done || lia).
  rewrite Hdiv, Hmod in Hys.
  rewrite <- (get3_row _ b (s / P) (s mod P) _ Hhp_b) in Hxs.
  rewrite <- (get3_row _ b h' p' _ Hhp_b) in Hys.
  assert (x = a) as -> by congruence. assert (y = c) as -> by congruence.
  eapply (select_flat_confident _ _ _ _ i j s s'); try done.
  - eapply comparable_subseteq; [|exact Hcmp]. intros v Hv.
    apply list_elem_of_lookup in Hv as [k Hk].
    destruct (Forall2_lookup_r _ _ _ _ _ Hpos Hk) as (idx & _ & Hidx).
    by eapply list_elem_of_lookup_2.
  - apply where_true_NoDup.
Qed.

Lemma unmask_batches_confident (Pt : Z) (raw : F) (horizon_probs : tensor3 F)
    (predicted_indices : tensor3 nat) (l : list nat) (st st' : decode_state Latent)
    (b : nat) (hp_b : list (list F)) (h p h' p' : nat) (a c : F) :
  foldM (unmask_batch_element' Pt raw horizon_probs predicted_indices) st l = Ok st' →
  has_shape3 B H P (mask st) = true → NoDup l →
  has_shape3 B H P horizon_probs = true →
  horizon_probs !! b = Some hp_b → comparable (mjoin hp_b) →
  b ∈ l →
  get3 (mask st) b h p = Some true → get3 (mask st') b h p = Some false →
  get3 (mask st') b h' p' = Some true →
  get3 horizon_probs b h p = Some a → get3 horizon_probs b h' p' = Some c →
  F_ltb a c = false.
Proof.
  intros Hrun Hshape Hnd Hprobs Hhp_b Hcmp. revert st Hrun Hshape.
  induction l as [|b0 l IH]; intros st Hrun Hshape Hb Htrue Hfalse Hleft Ha Hc;
    [by apply elem_of_nil in Hb|].
  cbn [foldM] in Hrun. apply bind_Ok in Hrun as (st1 & Hstep & Hrest).
  apply NoDup_cons in Hnd as [Hb0 Hnd].
  destruct (unmask_batch_element_effect _ _ _ _ _ _ _ _ _ _ _ _ Hstep Hshape)
    as (Hadv1 & Hother1 & _).
  pose proof (advances_mask_shape _ _ _ _ _ _ Hadv1 Hshape) as Hshape1.
  destruct (unmask_batches_effect _ _ _ _ _ _ _ _ _ _ _ _ Hrest Hshape1 Hnd)
    as (_ & Hother & _).
  destruct (decide (b = b0)) as [->|Hne].
  - rewrite (Hother b0 h p Hb0) in Hfalse. rewrite (Hother b0 h' p' Hb0) in Hleft.
    by eapply (unmask_batch_element_confident _ _ _ _ _ _ _ _ h p h' p' a c Hstep).
  - apply elem_of_cons in Hb as [?|Hb]; [done|].
    eapply (IH Hnd st1 Hrest Hshape1 Hb); try done.
    by rewrite (Hother1 b h p Hne).
Qed.

(** X13. A decode step commits the positions the model is most confident
    about (lines 120, 130 and 146-151): among the masked horizon positions
    of a batch element, one that the step commits has a confidence (the
    maximal probability of its row) not less than one that the step leaves
    masked, when the confidences are comparable (none is a nan). *)
Theorem decode_step_commits_most_confident (m : nat) (st st' : decode_state Latent)
    (rng rng' rng1 : Rng) (max_probs : tensor3 F) (predicted_indices : tensor3 nat)
    (b : nat) (hp_b : list (list F)) (h p h' p' : nat) (a c : F) :
  has_shape3 B H P (mask st) = true →
  decode_step' m st rng = Ok (st', rng') →
  score_pass' (temperature_on temperature) st rng = Ok (max_probs, predicted_indices, rng1) →
  has_shape3 B H P (py_last H <$> max_probs) = true →
  (py_last H <$> max_probs) !! b = Some hp_b → comparable (mjoin hp_b) →
  get3 (mask st) b h p = Some true → get3 (mask st') b h p = Some false →
  get3 (mask st') b h' p' = Some true →
  get3 (py_last H <$> max_probs) b h p = Some a →
  get3 (py_last H <$> max_probs) b h' p' = Some c →
  F_ltb a c = false.
Proof.
  intros Hshape Hstep Hscore Hprobs Hhp_b Hcmp Htrue Hfalse Hleft Ha Hc.
  unfold decode_step in Hstep.
  apply bind_Ok in Hstep as (raw & _ & Hstep). rewrite Hscore in Hstep.
  cbn [mbind result_bind] in Hstep.
  apply bind_Ok in Hstep as (st1 & Hfold & [= <- <-]).
  eapply (unmask_batches_confident _ _ _ _ _ _ _ b hp_b h p h' p' a c Hfold); try done.
  - apply NoDup_seq.
  - apply elem_of_seq. apply (get3_Some_lt _ _ _ _ _ _ _ _ Hshape) in Htrue. lia.
Qed.

End InferenceConfidence.

(** *** Edge values of the temperature and of the horizon *)

Section InferenceEdgeCases.
Context {F Latent Emb Row Cond Rng : Type}.
Context `{!FloatOps F, !DynamicsModel Latent Emb Row Cond, !RowOps F Row,
          !RandomSource Rng Row}.
Variables (self_training : bool) (B T_ctx P H : nat) (num_steps : Z).
Variables (index_to_latents_fn : nat → Latent) (conditioning : option Cond).
Variables (schedule_k : F) (verify_mask : bool).

Lemma temperature_on_nonpositive (t : Q) : (t <= 0)%Q → temperature_on t = false.
Proof.
  intros Ht. unfold temperature_on, Qltb.
  destruct (Qeq_bool t 0); [done|].
  apply Qle_bool_iff in Ht. by rewrite Ht.
Qed.

Lemma decode_step_temperature_off (t1 t2 : Q) (m : nat) (st : decode_state Latent) (rng : Rng) :
  temperature_on t1 = false → temperature_on t2 = false →
  decode_step self_training B T_ctx P H num_steps index_to_latents_fn conditioning
    schedule_k t1 m st rng
  = decode_step self_training B T_ctx P H num_steps index_to_latents_fn conditioning
      schedule_k t2 m st rng.
Proof. intros H1 H2. unfold decode_step, score_pass. by rewrite H1, H2. Qed.

Lemma decode_loop_temperature_off (t1 t2 : Q) (steps : list nat) (st : decode_state Latent)
    (rng : Rng) :
  temperature_on t1 = false → temperature_on t2 = false →
  decode_loop self_training B T_ctx P H num_steps index_to_latents_fn conditioning
    schedule_k t1 steps st rng
  = decode_loop self_training B T_ctx P H num_steps index_to_latents_fn conditioning
      schedule_k t2 steps st rng.
Proof.
  intros H1 H2. revert st rng.
  induction steps as [|m steps IH]; intros st rng; cbn [decode_loop]; [done|].
  rewrite (decode_step_temperature_off t1 t2 m st rng H1 H2).
  destruct (decode_step _ _ _ _ _ _ _ _ _ t2 m st rng) as [[st1 rng1]|e]; [|done].
  cbn [mbind result_bind]. destruct (negb (any3 (mask st1))); [done|apply IH].
Qed.

Lemma final_completion_temperature_off (t1 t2 : Q) (st : decode_state Latent) (rng : Rng) :
  temperature_on t1 = false → temperature_on t2 = false →
  final_completion self_training B T_ctx P H index_to_latents_fn conditioning t1 st rng
  = final_completion self_training B T_ctx P H index_to_latents_fn conditioning t2 st rng.
Proof. intros H1 H2. unfold final_completion, score_pass. by rewrite H1, H2. Qed.

(** X14. A temperature that is not positive is the temperature 0
    ([temperature and temperature > 0], lines 114, 122 and 178): the call
    neither rescales the logits nor samples, and returns what it returns at
    temperature 0. *)
Theorem forward_inference_nonpositive_temperature (t : Q)
    (context_latents : tensor3 Latent) (rng : Rng) :
  (t <= 0)%Q →
  forward_inference self_training B T_ctx P H num_steps index_to_latents_fn conditioning
    schedule_k t verify_mask context_latents rng
  = forward_inference self_training B T_ctx P H num_steps index_to_latents_fn conditioning
      schedule_k 0 verify_mask context_latents rng.
Proof.
  intros Ht%temperature_on_nonpositive.
  assert (temperature_on 0 = false) as H0 by done.
  unfold forward_inference, forward_inference_state.
  rewrite (decode_loop_temperature_off t 0 _ _ _ Ht H0).
  destruct (decode_loop _ _ _ _ _ _ _ _ _ 0 _ _ rng) as [[st1 rng1]|e]; [|done].
  cbn [mbind result_bind].
  by rewrite (final_completion_temperature_off t 0 _ _ Ht H0).
Qed.

(** X15. With a prediction horizon of 0 the call returns the context
    itself: nothing is appended (lines 93-94) and nothing is masked, so no
    cell is assigned. *)
Theorem forward_inference_zero_horizon (temperature : Q)
    (context_latents : tensor3 Latent) (rng : Rng) (out : tensor3 Latent) :
  has_shape3 B T_ctx P context_latents = true →
  forward_inference self_training B T_ctx P 0 num_steps index_to_latents_fn conditioning
    schedule_k temperature verify_mask context_latents rng = Ok out →
  out = context_latents.
Proof.
  intros Hctx Hrun. unfold forward_inference in Hrun.
  apply bind_Ok in Hrun as ([st rng'] & Hstate & [= <-]).
  destruct (forward_inference_state_effect _ _ _ _ _ _ _ _ _ _ _ _ _ _ _ Hstate)
    as [(_ & _ & _ & _ & Hsg & new & _ & _ & Hnew & Hgrid) _].
  assert (input_latents (initial_state B P 0 context_latents) = context_latents) as Hinit.
  { unfold initial_state. simpl. rewrite <- (list_fmap_id context_latents) at 2.
    apply list_fmap_ext. intros _ m _. apply app_nil_r. }
  transitivity (input_latents (initial_state B P 0 context_latents)); [|exact Hinit].
  apply (tensor3_ext B T_ctx P).
  - rewrite Hsg, Hinit. done.
  - by rewrite Hinit.
  - intros b t p. apply Hgrid. intros (h & _ & Htrue & _)%Hnew.
    apply (get3_Some_lt _ _ _ _ _ _ _ _ (initial_mask_shape B P 0 context_latents)) in Htrue.
    lia.
Qed.

End InferenceEdgeCases.

(** ** The training script *)

Lemma get2_fill_block (r0 c0 size : nat) (g : list (list Q)) (y c : nat) :
  (r ← fill_block r0 c0 size g !! y; r !! c)
  = if (r0 <=? y) && (y <? r0 + size) && (c0 <=? c) && (c <? c0 + size)
    then (λ _, 1%Q) <$> (r ← g !! y; r !! c)
    else (r ← g !! y; r !! c).
Proof.
  unfold fill_block. rewrite list_lookup_imap.
  destruct (g !! y) as [row|]; cbn [fmap option_fmap option_map mbind option_bind].
  2:{ by repeat case_match. }
  destruct ((r0 <=? y) && (y <? r0 + size)); cbn [andb]; [|done].
  rewrite list_lookup_imap.
  destruct (row !! c) as [v|]; cbn [fmap option_fmap option_map]; by repeat case_match.
Qed.

Lemma get4_alter {A : Type} (f : list (list A) → list (list A)) (x : tensor4 A)
    (b t b' t' y c : nat) :
  get4 (alter (alter f t) b x) b' t' y c
  = if decide (b' = b ∧ t' = t)
    then m ← x !! b; g ← m !! t; r ← f g !! y; r !! c
    else get4 x b' t' y c.
Proof.
  unfold get4. destruct (decide (b' = b)) as [->|Hb].
  - rewrite list_lookup_alter_eq. destruct (x !! b) as [m|]; simpl; [|by destruct (decide _)].
    destruct (decide (t' = t)) as [->|Ht].
    + rewrite list_lookup_alter_eq. rewrite decide_True by done.
      by destruct (m !! t).
    + rewrite list_lookup_alter_ne by done. rewrite decide_False by (by intros [_ ?]). done.
  - rewrite list_lookup_alter_ne by done. rewrite decide_False by (by intros [? _]). done.
Qed.

Lemma fmap_const_idemp (o : option Q) :
  (λ _, 1%Q) <$> ((λ _, 1%Q) <$> o) = (λ _, 1%Q) <$> o.
Proof. by destruct o. Qed.

Section PixelMask.
Variables (frame_size patch_size : nat) (mask_positions : tensor3 bool).

Local Abbreviation mark_token' := (mark_token frame_size patch_size mask_positions).
Local Abbreviation marked' := (marked frame_size patch_size mask_positions).
Local Abbreviation in_patch' := (in_patch frame_size patch_size).

Lemma mark_token_effect (b t : nat) (pm pm' : tensor4 Q) (p : nat) :
  mark_token' b t pm p = Ok pm' →
  (get3 mask_positions b t p = Some true → 0 < patch_size ∧ 0 < frame_size / patch_size)
  ∧ ∀ b' t' y c,
      get4 pm' b' t' y c
      = if bool_decide (b' = b ∧ t' = t) && marked' [p] b t y c
        then (λ _, 1%Q) <$> get4 pm b' t' y c
        else get4 pm b' t' y c.
Proof.
  unfold mark_token, read3, marked. intros Hrun.
  apply bind_Ok in Hrun as (masked & Hm%of_option_Ok & Hrun).
  destruct masked.
  - unfold py_floordiv, py_mod in Hrun.
    destruct (Nat.eqb_spec patch_size 0) as [?|Hps]; [done|]. cbn [mbind result_bind] in Hrun.
    destruct (Nat.eqb_spec (frame_size / patch_size) 0) as [?|Hn]; [done|].
    cbn [mbind result_bind] in Hrun. injection Hrun as <-.
    split; [lia|]. intros b' t' y c. rewrite get4_alter.
    cbn [existsb]. rewrite (bool_decide_eq_true_2 _ Hm), orb_false_r, andb_true_l.
    case_decide as Hbt.
    + destruct Hbt as [-> ->]. rewrite bool_decide_eq_true_2 by done. rewrite andb_true_l.
      unfold get4, in_patch.
      destruct (pm !! b) as [m|]; simpl; [|by repeat case_match].
      destruct (m !! t) as [g|]; simpl; [|by repeat case_match].
      apply get2_fill_block.
    + by rewrite bool_decide_eq_false_2.
  - injection Hrun as <-. split; [by rewrite Hm|]. intros b' t' y c.
    cbn [existsb]. rewrite (bool_decide_eq_false_2 (get3 mask_positions b t p = Some true))
      by (by rewrite Hm).
    cbn [andb orb]. by rewrite andb_false_r.
Qed.

Lemma mark_tokens_effect (b t : nat) (ps : list nat) (pm pm' : tensor4 Q) :
  foldM (mark_token' b t) pm ps = Ok pm' →
  (∀ p, p ∈ ps → get3 mask_positions b t p = Some true →
     0 < patch_size ∧ 0 < frame_size / patch_size)
  ∧ ∀ b' t' y c,
      get4 pm' b' t' y c
      = if bool_decide (b' = b ∧ t' = t) && marked' ps b t y c
        then (λ _, 1%Q) <$> get4 pm b' t' y c
        else get4 pm b' t' y c.
Proof.
  revert pm. induction ps as [|p ps IH]; intros pm Hrun; cbn [foldM] in Hrun.
  - injection Hrun as <-. split; [by intros p ?%elem_of_nil|].
    intros. unfold marked. cbn [existsb]. by rewrite andb_false_r.
  - apply bind_Ok in Hrun as (pm1 & Hstep & Hrun).
    destruct (mark_token_effect _ _ _ _ _ Hstep) as [Hsz1 Hcell1].
    destruct (IH _ Hrun) as [Hsz Hcell]. split.
    + intros p' [->|Hin]%elem_of_cons; [done|by apply Hsz].
    + intros b' t' y c. rewrite Hcell, Hcell1. unfold marked. cbn [existsb].
      rewrite orb_false_r.
      destruct (bool_decide (b' = b ∧ t' = t)); cbn [andb]; [|done].
      destruct (bool_decide _ && in_patch' p y c); cbn [orb];
        destruct (existsb _ ps); try done.
      apply fmap_const_idemp.
Qed.

Lemma mark_frames_effect (b : nat) (P : nat) (ts : list nat) (pm pm' : tensor4 Q) :
  foldM (λ pm t, foldM (mark_token' b t) pm (seq 0 P)) pm ts = Ok pm' →
  (∀ t p, t ∈ ts → p < P → get3 mask_positions b t p = Some true →
     0 < patch_size ∧ 0 < frame_size / patch_size)
  ∧ ∀ b' t' y c,
      get4 pm' b' t' y c
      = if bool_decide (b' = b ∧ t' ∈ ts) && marked' (seq 0 P) b' t' y c
        then (λ _, 1%Q) <$> get4 pm b' t' y c
        else get4 pm b' t' y c.
Proof.
  revert pm. induction ts as [|t ts IH]; intros pm Hrun; cbn [foldM] in Hrun.
  - injection Hrun as <-. split; [by intros t p ?%elem_of_nil|].
    intros. rewrite bool_decide_eq_false_2; [done|]. by intros [_ ?%elem_of_nil].
  - apply bind_Ok in Hrun as (pm1 & Hstep & Hrun).
    destruct (mark_tokens_effect _ _ _ _ _ Hstep) as [Hsz1 Hcell1].
    destruct (IH _ Hrun) as [Hsz Hcell]. split.
    + intros t' p [->|Hin]%elem_of_cons Hp; [|by apply Hsz].
      apply Hsz1, elem_of_seq. lia.
    + intros b' t' y c. rewrite Hcell, Hcell1.
      destruct (decide (b' = b)) as [->|Hb].
      2:{ rewrite !bool_decide_eq_false_2 by (by intros [? _]). done. }
      destruct (decide (t' = t)) as [->|Ht].
      * rewrite (bool_decide_eq_true_2 (b = b ∧ t = t)) by done.
        rewrite (bool_decide_eq_true_2 (b = b ∧ t ∈ t :: ts)) by (split; [done|left]).
        cbn [andb]. destruct (marked' (seq 0 P) b t y c); [|by destruct (bool_decide _)].
        destruct (bool_decide _); cbn [andb]; [apply fmap_const_idemp|done].
      * rewrite (bool_decide_eq_false_2 (b = b ∧ t' = t)) by (by intros [_ ?]). cbn [andb].
        destruct (decide (t' ∈ ts)) as [Hin|Hnin].
        -- rewrite !bool_decide_eq_true_2; [done|split; [done|by right]|done].
        -- rewrite !bool_decide_eq_false_2; [done| |by intros [_ ?]].
           intros [_ [?|?]%elem_of_cons]; done.
Qed.

Lemma mark_batches_effect (T P : nat) (bs : list nat) (pm pm' : tensor4 Q) :
  foldM (λ pm b, foldM (λ pm t, foldM (mark_token' b t) pm (seq 0 P)) pm (seq 0 T)) pm bs
    = Ok pm' →
  (∀ b t p, b ∈ bs → t < T → p < P → get3 mask_positions b t p = Some true →
     0 < patch_size ∧ 0 < frame_size / patch_size)
  ∧ ∀ b' t' y c,
      get4 pm' b' t' y c
      = if bool_decide (b' ∈ bs ∧ t' < T) && marked' (seq 0 P) b' t' y c
        then (λ _, 1%Q) <$> get4 pm b' t' y c
        else get4 pm b' t' y c.
Proof.
  revert pm. induction bs as [|b bs IH]; intros pm Hrun; cbn [foldM] in Hrun.
  - injection Hrun as <-. split; [by intros b t p ?%elem_of_nil|].
    intros. rewrite bool_decide_eq_false_2; [done|]. by intros [?%elem_of_nil _].
  - apply bind_Ok in Hrun as (pm1 & Hstep & Hrun).
    destruct (mark_frames_effect _ _ _ _ _ Hstep) as [Hsz1 Hcell1].
    destruct (IH _ Hrun) as [Hsz Hcell]. split.
    + intros b' t p [->|Hin]%elem_of_cons Ht Hp; [|by apply Hsz].
      apply Hsz1; [apply elem_of_seq; lia|done].
    + intros b' t' y c. rewrite Hcell, Hcell1.
      destruct (decide (t' < T)) as [Ht|Ht].
      2:{ rewrite !bool_decide_eq_false_2; [done| | |].
          - intros [_ ?]; done.
          - intros [_ ?%elem_of_seq]; lia.
          - intros [_ ?]; done. }
      destruct (decide (b' = b)) as [->|Hb].
      * rewrite (bool_decide_eq_true_2 (b = b ∧ t' ∈ seq 0 T))
          by (split; [done|apply elem_of_seq; lia]).
        rewrite (bool_decide_eq_true_2 (b ∈ b :: bs ∧ t' < T)) by (split; [left|done]).
        cbn [andb]. destruct (marked' (seq 0 P) b t' y c); [|by destruct (bool_decide _)].
        destruct (bool_decide _); cbn [andb]; [apply fmap_const_idemp|done].
      * rewrite (bool_decide_eq_false_2 (b' = b ∧ _)) by (by intros [? _]). cbn [andb].
        destruct (decide (b' ∈ bs)) as [Hin|Hnin].
        -- rewrite !bool_decide_eq_true_2; [done|split; [by right|done]|done].
        -- rewrite !bool_decide_eq_false_2; [done| |by intros [? _]].
           intros [[?|?]%elem_of_cons _]; done.
Qed.

Lemma get4_zeros (B T H W : nat) (b t y c : nat) :
  b < B → t < T → y < H → c < W →
  get4 (replicate B (replicate T (replicate H (replicate W 0%Q)))) b t y c = Some 0%Q.
Proof.
  intros Hb Ht Hy Hc. unfold get4.
  rewrite lookup_replicate_2 by done. simpl.
  rewrite lookup_replicate_2 by done. simpl.
  rewrite lookup_replicate_2 by done. simpl.
  by rewrite lookup_replicate_2.
Qed.

(** The block of token [p] holds pixel [(y, c)] exactly when [p] is the
    token of the pixel's patch. *)
Lemma in_patch_spec (p y c : nat) :
  0 < patch_size → 0 < frame_size / patch_size →
  in_patch' p y c = true
  ↔ c / patch_size < frame_size / patch_size
    ∧ p = y / patch_size * (frame_size / patch_size) + c / patch_size.
Proof.
  intros Hps Hn. unfold in_patch. set (n := frame_size / patch_size) in *.
  rewrite !andb_true_iff, !Nat.leb_le, !Nat.ltb_lt.
  pose proof (Nat.div_mod_eq p n) as Hp.
  pose proof (Nat.mod_upper_bound p n ltac:(lia)) as Hr.
  pose proof (Nat.div_mod_eq y patch_size) as Hy.
  pose proof (Nat.mod_upper_bound y patch_size ltac:(lia)) as Hyr.
  pose proof (Nat.div_mod_eq c patch_size) as Hc.
  pose proof (Nat.mod_upper_bound c patch_size ltac:(lia)) as Hcr.
  split.
  - intros [[[H1 H2] H3] H4].
    assert (y / patch_size = p / n) as Hq.
    { symmetry. apply Nat.div_unique with (y - p / n * patch_size); lia. }
    assert (c / patch_size = p mod n) as Hq'.
    { symmetry. apply Nat.div_unique with (c - p mod n * patch_size); lia. }
    rewrite Hq, Hq'. split; [done|]. lia.
  - intros [Hlt ->].
    set (qy := y / patch_size) in *. set (qc := c / patch_size) in *.
    assert ((qy * n + qc) / n = qy) as ->.
    { symmetry. apply Nat.div_unique with qc; lia. }
    assert ((qy * n + qc) mod n = qc) as ->.
    { symmetry. apply Nat.mod_unique with qy; lia. }
    nia.
Qed.

Lemma marked_spec (B T P : nat) (b t y c : nat) :
  has_shape3 B T P mask_positions = true →
  (∀ p, p < P → get3 mask_positions b t p = Some true →
     0 < patch_size ∧ 0 < frame_size / patch_size) →
  marked' (seq 0 P) b t y c = true
  ↔ c / patch_size < frame_size / patch_size
    ∧ get3 mask_positions b t (y / patch_size * (frame_size / patch_size) + c / patch_size)
      = Some true.
Proof.
  intros Hshape Hsz. unfold marked. rewrite existsb_exists. split.
  - intros (p & Hp%list_elem_of_In%elem_of_seq & [Hm%bool_decide_eq_true Hin]%andb_true_iff).
    destruct (Hsz p ltac:(lia) Hm) as [Hps Hn].
    apply in_patch_spec in Hin as [Hlt ->]; done.
  - intros [Hlt Hm].
    destruct (get3_Some_lt _ _ _ _ _ _ _ _ Hshape Hm) as (_ & _ & Hp).
    destruct (Hsz _ Hp Hm) as [Hps Hn].
    eexists. split; [apply list_elem_of_In, elem_of_seq; split; [lia|exact Hp]|].
    apply andb_true_iff. split; [by apply bool_decide_eq_true|].
    by apply in_patch_spec.
Qed.

End PixelMask.

(** X16. The pixel mask of the visualisation (lines 202-213) marks the
    patches of the masked tokens and nothing else: when the loop returns,
    pixel [(y, c)] of frame [(b, t)] is 1 if the token
    [p = (y // patch_size) * (W // patch_size) + c // patch_size] of its
    patch is masked, with [c // patch_size < W // patch_size], and it is 0
    otherwise; so the pixels right of the last whole patch column are never
    marked. *)
Theorem pixel_mask_marks_masked_patches (frame_size patch_size B T P : nat)
    (mask_positions : tensor3 bool) (pixel_mask : tensor4 Q) (b t y c : nat) :
  has_shape3 B T P mask_positions = true →
  pixel_mask_of frame_size patch_size B T P mask_positions = Ok pixel_mask →
  b < B → t < T → y < frame_size → c < frame_size →
  let n := frame_size / patch_size in
  let p := y / patch_size * n + c / patch_size in
  get4 pixel_mask b t y c
  = Some (if bool_decide (c / patch_size < n ∧ get3 mask_positions b t p = Some true)
          then 1%Q else 0%Q).
Proof.
  intros Hshape Hrun Hb Ht Hy Hc n p. unfold pixel_mask_of in Hrun.
  destruct (mark_batches_effect _ _ _ _ _ _ _ _ Hrun) as [Hsz Hcell].
  rewrite Hcell, get4_zeros by done.
  rewrite bool_decide_eq_true_2 by (split; [apply elem_of_seq; lia|done]). cbn [andb].
  pose proof (marked_spec frame_size patch_size mask_positions B T P b t y c Hshape) as Hspec.
  destruct (marked frame_size patch_size mask_positions (seq 0 P) b t y c) eqn:Hmarked.
  - rewrite bool_decide_eq_true_2; [done|]. apply Hspec; [|done].
    intros p' Hp'. apply Hsz; [apply elem_of_seq; lia|done..].
  - rewrite bool_decide_eq_false_2; [done|]. intros Hcov. apply Hspec in Hcov; [done|].
    intros p' Hp'. apply Hsz; [apply elem_of_seq; lia|done..].
Qed.

(** *** A patch that does not fit the frame *)

Lemma foldM_skip_or_raise {A S : Type} (f : S → A → result S) (e : exn) (c : A → bool)
    (l : list A) (s : S) :
  (∀ s a, a ∈ l → f s a = if c a then Raise e else Ok s) →
  foldM f s l = if existsb c l then Raise e else Ok s.
Proof.
  induction l as [|a l IH]; intros Hf; cbn [foldM existsb]; [done|].
  rewrite Hf by left. destruct (c a); cbn [orb mbind result_bind]; [done|].
  apply IH. intros s' a' Ha'. apply Hf. by right.
Qed.

Lemma existsb_seq_get3 (B T P : nat) (m : tensor3 bool) :
  has_shape3 B T P m = true →
  existsb (λ b, existsb (λ t, existsb (λ p, bool_decide (get3 m b t p = Some true))
                                (seq 0 P)) (seq 0 T)) (seq 0 B)
  = any3 m.
Proof.
  intros Hshape. destruct (any3 m) eqn:Hany.
  - apply not_false_iff_true. intros Hex. apply not_false_iff_true in Hany. apply Hany.
    apply any3_false_get3. intros b t p Hget.
    destruct (get3_Some_lt _ _ _ _ _ _ _ _ Hshape Hget) as (Hb & Ht & Hp).
    apply not_true_iff_false in Hex. apply Hex.
    apply existsb_exists. exists b. split; [apply list_elem_of_In, elem_of_seq; lia|].
    apply existsb_exists. exists t. split; [apply list_elem_of_In, elem_of_seq; lia|].
    apply existsb_exists. exists p. split; [apply list_elem_of_In, elem_of_seq; lia|].
    by apply bool_decide_eq_true.
  - apply not_true_iff_false. intros Hex.
    apply existsb_exists in Hex as (b & _ & Hex).
    apply existsb_exists in Hex as (t & _ & Hex).
    apply existsb_exists in Hex as (p & _ & Hex%bool_decide_eq_true).
    by apply (proj1 (any3_false_get3 m) Hany b t p).
Qed.

(** X17. When the patch does not fit the frame ([patch_size] is 0 or
    exceeds [frame_size], so that [W // patch_size] is undefined or 0), the
    pixel-mask loop (lines 207-213) raises [ZeroDivisionError] at the first
    masked token, and returns the all-zero mask if no token is masked. *)
Theorem pixel_mask_patch_not_fitting (frame_size patch_size B T P : nat)
    (mask_positions : tensor3 bool) :
  has_shape3 B T P mask_positions = true →
  patch_size = 0 ∨ frame_size < patch_size →
  pixel_mask_of frame_size patch_size B T P mask_positions
  = if any3 mask_positions then Raise ZeroDivisionError
    else Ok (replicate B (replicate T (replicate frame_size (replicate frame_size 0%Q)))).
Proof.
  intros Hshape Hsize. unfold pixel_mask_of.
  rewrite <- (existsb_seq_get3 B T P) by done.
  apply (foldM_skip_or_raise _ ZeroDivisionError
           (λ b, existsb (λ t, existsb (λ p, bool_decide (get3 mask_positions b t p = Some true))
                                 (seq 0 P)) (seq 0 T))).
  intros pm b Hb%elem_of_seq.
  apply (foldM_skip_or_raise _ ZeroDivisionError
           (λ t, existsb (λ p, bool_decide (get3 mask_positions b t p = Some true)) (seq 0 P))).
  intros pm1 t Ht%elem_of_seq.
  apply (foldM_skip_or_raise _ ZeroDivisionError
           (λ p, bool_decide (get3 mask_positions b t p = Some true))).
  intros pm2 p Hp%elem_of_seq. unfold mark_token, read3.
  destruct (get3_is_Some _ _ _ mask_positions b t p Hshape) as [v Hv]; [lia..|].
  rewrite Hv. cbn [of_option mbind result_bind]. destruct v.
  - rewrite bool_decide_eq_true_2 by done. unfold py_floordiv.
    destruct (Nat.eqb_spec patch_size 0) as [?|Hps]; [done|]. cbn [mbind result_bind].
    rewrite Nat.div_small by lia. done.
  - by rewrite bool_decide_eq_false_2.
Qed.

(** *** The batches of the training loop *)

Section BatchFacts.
Context {Batch : Type}.
Variable training_loader : nat → list Batch.

Local Abbreviation py_iter' := (py_iter training_loader).
Local Abbreviation next_batch' := (next_batch training_loader).
Local Abbreviation fetch_batches' := (fetch_batches training_loader).
Local Abbreviation training_batches' := (training_batches training_loader).
Local Abbreviation yielded' := (yielded training_loader).

Lemma next_batch_yielded (st st' : batch_stream Batch) (x : Batch) (seen : list Batch) :
  next_batch' st = Fetched (x, st') →
  seen ++ train_iter st = yielded' st →
  (seen ++ [x]) ++ train_iter st' = yielded' st'.
Proof.
  unfold next_batch, py_next, py_iter, yielded. destruct st as [e it].
  cbn [passes train_iter]. destruct it as [|y rest].
  - destruct (training_loader e) as [|y rest] eqn:He; [done|].
    intros [= <- <-] Hseen. cbn [passes train_iter].
    rewrite seq_S, fmap_app, join_app, <- Hseen. cbn [fmap list_fmap mjoin list_join].
    rewrite Nat.add_0_l, He, !app_nil_r. by rewrite <- app_assoc.
  - intros [= <- <-] Hseen. cbn [passes train_iter]. by rewrite <- Hseen, <- app_assoc.
Qed.

Lemma fetch_batches_yielded (n : nat) (st st' : batch_stream Batch) (xs seen : list Batch) :
  fetch_batches' n st = Fetched (xs, st') →
  seen ++ train_iter st = yielded' st →
  length xs = n ∧ (seen ++ xs) ++ train_iter st' = yielded' st'.
Proof.
  revert st xs seen. induction n as [|n IH]; intros st xs seen Hrun Hseen; cbn in Hrun.
  - injection Hrun as <- <-. by rewrite app_nil_r.
  - destruct (next_batch' st) as [[x st1]|] eqn:Hnext; [|done].
    destruct (fetch_batches' n st1) as [[xs1 st2]|] eqn:Hrest; [|done].
    injection Hrun as <- <-.
    destruct (IH _ _ (seen ++ [x]) Hrest) as [Hlen Hall].
    { by eapply next_batch_yielded. }
    split; [by rewrite <- Hlen|]. rewrite <- Hall. by rewrite <- (app_assoc seen [x] xs1).
Qed.

Lemma fetch_batches_returns (n : nat) (st : batch_stream Batch) :
  (∀ e, training_loader e ≠ []) →
  ∃ xs st', fetch_batches' n st = Fetched (xs, st').
Proof.
  intros Hne. revert st. induction n as [|n IH]; intros st; cbn; [by eexists _, _|].
  assert (∃ x st1, next_batch' st = Fetched (x, st1)) as (x & st1 & ->).
  { unfold next_batch, py_next, py_iter. destruct st as [e [|y rest]]; simpl.
    - specialize (Hne e). destruct (training_loader e); [done|by eexists _, _].
    - by eexists _, _. }
  destruct (IH st1) as (xs & st2 & ->). by eexists _, _.
Qed.

(** X18. The updates of the training loop consume the loader's passes in
    order (lines 144-151): after [n_updates] updates the batches used,
    followed by what the current iterator has left, are the batches of the
    iterators made so far, so no batch is skipped or used twice within a
    pass; with passes that are never empty the loop always gets its batch;
    and with a loader that yields no batch the first update lets
    [StopIteration] escape, the second [next] being outside the [try]. *)
Theorem training_batches_follow_passes (n_updates : nat) :
  (∀ xs st, training_batches training_loader n_updates = Fetched (xs, st) →
     length xs = n_updates ∧ xs ++ train_iter st = yielded training_loader st)
  ∧ ((∀ e, training_loader e ≠ []) →
       ∃ xs st, training_batches training_loader n_updates = Fetched (xs, st))
  ∧ ((∀ e, training_loader e = []) → 0 < n_updates →
       training_batches training_loader n_updates = StopIteration).
Proof.
  split_and!.
  - intros xs st Hrun. apply (fetch_batches_yielded n_updates _ _ _ [] Hrun).
    unfold yielded, py_iter. cbn. by rewrite app_nil_r.
  - intros Hne. by apply fetch_batches_returns.
  - intros Hempty Hn. unfold training_batches.
    destruct n_updates as [|n]; [lia|]. cbn.
    unfold next_batch, py_next, py_iter. simpl. by rewrite !Hempty.
Qed.

End BatchFacts.

(** ** The theorems on the executable instance *)

Import Example.

(** The decode call of the instance at temperature 0 returns, with nothing
    left masked. *)
Lemma forward_inference_leaves_nothing_masked_witness :
  forward_inference_state true 2 2 4 3 4 index_to_latents None 5%Q 0 true context 1%Z
    = Ok decoded
  ∧ forward_inference true 2 2 4 3 4 index_to_latents None 5%Q 0 true context 1%Z
    = Ok (input_latents decoded.1)
  ∧ any3 (mask decoded.1) = false
  ∧ ∀ b h p, b < 2 → h < 3 → p < 4 →
      get3 (mask decoded.1) b h p = Some false ∧ (b, 2 + h, p) ∈ writes decoded.1.
Proof.
  assert (forward_inference_state true 2 2 4 3 4 index_to_latents None 5%Q 0 true context 1%Z
          = Ok (decoded.1, decoded.2)) as Hrun by (vm_compute; reflexivity).
  split; [exact Hrun|].
  exact (forward_inference_leaves_nothing_masked true 2 2 4 3 4 index_to_latents None 5%Q 0
           true context 1%Z decoded.2 decoded.1 Hrun).
Defined.

(** Step 3 of the sampling run of the instance: 9 positions of batch element
    0 are masked, 3 resolved, the schedule asks for 12, and 9 are committed. *)
Lemma decode_step_commit_count_witness :
  (has_shape3 2 3 4 (mask after_three_steps.1) = true
   ∧ decode_step true 2 2 4 3 4 index_to_latents None 5%Q 1 3
       after_three_steps.1 after_three_steps.2 = Ok after_four_steps
   ∧ exp_schedule_torch 5%Q 3 4 (P_total 4 3) = Ok 12%Q
   ∧ F_ceil_item 12%Q = Ok 12%Z
   ∧ num_masked (mask after_three_steps.1) 0 = 9
   ∧ num_masked (mask after_four_steps.1) 0 = 0)
  ∧ let numMasked := Z.of_nat (num_masked (mask after_three_steps.1) 0) in
    let committed := (numMasked - Z.of_nat (num_masked (mask after_four_steps.1) 0))%Z in
    committed = spec_commit_count 12 (P_total 4 3) numMasked
    ∧ committed = Z.min (k_b (P_total 4 3) 12 numMasked) numMasked
    ∧ (0 ≤ committed ≤ numMasked)%Z.
Proof.
  assert (has_shape3 2 3 4 (mask after_three_steps.1) = true) as Hshape by reflexivity.
  assert (decode_step true 2 2 4 3 4 index_to_latents None 5%Q 1 3
            after_three_steps.1 after_three_steps.2
          = Ok (after_four_steps.1, after_four_steps.2)) as Hstep by (vm_compute; reflexivity).
  assert (exp_schedule_torch 5%Q (Z.of_nat 3) 4 (P_total 4 3) = Ok 12%Q) as Hraw
    by (vm_compute; reflexivity).
  assert (F_ceil_item 12%Q = Ok 12%Z) as Hceil by reflexivity.
  split.
  - split_and!; [exact Hshape|exact Hstep|exact Hraw|exact Hceil|..];
      vm_compute; reflexivity.
  - exact (decode_step_commit_count true 2 2 4 3 4 index_to_latents None 5%Q 1 3
             after_three_steps.1 after_four_steps.1 after_three_steps.2 after_four_steps.2
             0 12%Q 12%Z Hshape Hstep (le_S 1 1 (le_n 1)) Hraw Hceil).
Defined.

(** The training pass of the instance returns a mask with an anchor for
    every position. *)
Lemma forward_training_anchor_invariant_witness :
  forward true 2 2 4 context true None (Some targets) 7%Z = Ok trained
  ∧ ∃ m, trained.1.1.2 = Some m
       ∧ ∀ b p, b < 2 → p < 4 → ∃ t, t < 2 ∧ get3 m b t p = Some false.
Proof.
  assert (forward true 2 2 4 context true None (Some targets) 7%Z
          = Ok (trained.1.1.1, trained.1.1.2, trained.1.2, trained.2)) as Hrun
    by (vm_compute; reflexivity).
  split; [exact Hrun|].
  exact (forward_training_anchor_invariant 2 2 4 context None (Some targets) 7%Z
           trained.2 trained.1.1.1 trained.1.1.2 trained.1.2 Hrun).
Defined.

(** The loss of the training pass of the instance. *)
Lemma forward_loss_is_masked_mean_witness :
  forward true 2 2 4 context true None (Some targets) 7%Z = Ok trained
  ∧ ∃ m l, trained.1.1.2 = Some m ∧ trained.1.2 = Some l
      ∧ xeq l (spec_masked_loss (flatten3 trained.1.1.1) (flatten3 targets) (flatten3 m))
      ∧ (any3 m = false →
           Qmax (Qsum ((λ v : bool, if v then 1%Q else 0%Q) <$> flatten3 m)) 1 == 1
           ∧ (Forall xfinite
                (zip_with cross_entropy_value (flatten3 trained.1.1.1) (flatten3 targets)) →
                xeq l (Finite 0))
           ∧ (Exists (λ ce, ¬ xfinite ce)
                (zip_with cross_entropy_value (flatten3 trained.1.1.1) (flatten3 targets)) →
                l = NaN)).
Proof.
  assert (forward true 2 2 4 context true None (Some targets) 7%Z
          = Ok (trained.1.1.1, trained.1.1.2, trained.1.2, trained.2)) as Hrun
    by (vm_compute; reflexivity).
  split; [exact Hrun|].
  exact (forward_loss_is_masked_mean 2 2 4 context None targets 7%Z
           trained.2 trained.1.1.1 trained.1.1.2 trained.1.2 Hrun).
Defined.

(** The state after step 0 of the sampling run of the instance. *)
Lemma decode_mask_shrinks_and_cells_written_once_witness :
  let st := after_one_step.1 in
  NoDup (writes st)
  ∧ (∀ b t p, (b, t, p) ∈ writes st ↔ ∃ h, t = 2 + h ∧ get3 (mask st) b h p = Some false)
  ∧ ∀ st',
      (∃ m rng rng', decode_step true 2 2 4 3 4 index_to_latents None 5%Q 1 m st rng
                     = Ok (st', rng'))
      ∨ (∃ rng rng', final_completion true 2 2 4 3 index_to_latents None 1 st rng
                     = Ok (st', rng')) →
      (∀ b h p, get3 (mask st) b h p = Some false → get3 (mask st') b h p = Some false)
      ∧ (∀ b, num_masked (mask st') b ≤ num_masked (mask st) b)
      ∧ ∃ new, writes st' = writes st ++ new
          ∧ NoDup new
          ∧ (∀ b t p, (b, t, p) ∈ new
               ↔ ∃ h, t = 2 + h
                    ∧ get3 (mask st) b h p = Some true
                    ∧ get3 (mask st') b h p = Some false)
          ∧ (∀ b t p, (b, t, p) ∉ new →
               get3 (input_latents st') b t p = get3 (input_latents st) b t p).
Proof.
  apply (decode_mask_shrinks_and_cells_written_once true 2 2 4 3 4 index_to_latents None
           5%Q 1 context after_one_step.1).
  apply (reachable_step true 2 2 4 3 4 index_to_latents None 5%Q 1 context
           0 (initial_state 2 4 3 context) 1%Z after_one_step.1 after_one_step.2).
  - apply reachable_init.
  - vm_compute. reflexivity.
Defined.

(** The grid the decode call of the instance returns starts with the
    context. *)
Lemma forward_inference_keeps_context_witness :
  has_shape3 2 2 4 context = true
  ∧ forward_inference true 2 2 4 3 4 index_to_latents None 5%Q 0 true context 1%Z
    = Ok (input_latents decoded.1)
  ∧ (∀ b t p, t < 2 → get3 (input_latents decoded.1) b t p = get3 context b t p)
  ∧ take 2 <$> input_latents decoded.1 = context
  ∧ ∃ st rng',
      forward_inference_state true 2 2 4 3 4 index_to_latents None 5%Q 0 true context 1%Z
      = Ok (st, rng')
      ∧ input_latents decoded.1 = input_latents st
      ∧ ∀ b t p, (b, t, p) ∈ writes st → 2 ≤ t < 2 + 3.
Proof.
  assert (has_shape3 2 2 4 context = true) as Hshape by reflexivity.
  assert (forward_inference true 2 2 4 3 4 index_to_latents None 5%Q 0 true context 1%Z
          = Ok (input_latents decoded.1)) as Hrun by (vm_compute; reflexivity).
  split; [exact Hshape|]. split; [exact Hrun|].
  exact (forward_inference_keeps_context true 2 2 4 3 4 index_to_latents None 5%Q 0 true
           context 1%Z (input_latents decoded.1) Hshape Hrun).
Defined.



(** The draws of the instance have the shapes asked for. *)
Lemma lcg_draws_length (n : nat) (s : Z) : length (lcg_draws n s).1 = n.
Proof.
  revert s. induction n as [|n IH]; intros s; [done|]. cbn [lcg_draws].
  specialize (IH (lcg_next s)). destruct (lcg_draws n (lcg_next s)) as [l s'].
  simpl in *. by rewrite IH.
Qed.

Lemma reshape_Forall {A : Type} (Q : A → Prop) (szs : list nat) (l : list A) :
  Forall Q l → Forall (Forall Q) (reshape szs l).
Proof.
  revert l. induction szs as [|k szs IH]; intros l Hl; cbn [reshape]; [done|].
  constructor; [by apply Forall_take|]. by apply IH, Forall_drop.
Qed.

Lemma reshape_replicate_rows {A : Type} (n k : nat) (l : list A) :
  length l = n * k → Forall (λ r, length r = k) (reshape (replicate n k) l).
Proof.
  revert l. induction n as [|n IH]; intros l Hl; cbn [replicate reshape]; [done|].
  constructor; [rewrite length_take; lia|]. apply IH. rewrite length_drop. lia.
Qed.

Lemma reshape_shape3 {A : Type} (B T P : nat) (l : list A) :
  length l = B * T * P →
  has_shape3 B T P (reshape (replicate B T) (reshape (replicate (B * T) P) l)) = true.
Proof.
  intros Hl. apply has_shape3_spec. rewrite length_reshape, length_replicate.
  split; [done|].
  pose proof (reshape_replicate_rows (B * T) P l Hl) as Hrows.
  pose proof (reshape_Forall _ (replicate B T) _ Hrows) as Hall.
  pose proof (reshape_replicate_rows B T (reshape (replicate (B * T) P) l)) as Hlen.
  rewrite length_reshape, length_replicate in Hlen. specialize (Hlen eq_refl).
  rewrite Forall_forall in Hall. rewrite Forall_forall in Hlen.
  apply Forall_forall. intros m Hm. split; [by apply Hlen|by apply Hall].
Qed.

Lemma lcg_rand3_shape (B T P : nat) (s : Z) :
  has_shape3 B T P (lcg_rand3 B T P s).1 = true.
Proof.
  unfold lcg_rand3. pose proof (lcg_draws_length (B * T * P) s) as Hlen.
  destruct (lcg_draws (B * T * P) s) as [l s']. simpl in *.
  apply reshape_shape3. by rewrite length_fmap.
Qed.

Lemma lcg_randint2_range (high B P : nat) (s : Z) (b p : nat) :
  0 < high → b < B → p < P →
  ∃ t, (row ← (lcg_randint2 high B P s).1 !! b; row !! p) = Some t ∧ t < high.
Proof.
  intros Hhigh Hb Hp. unfold lcg_randint2.
  pose proof (lcg_draws_length (B * P) s) as Hlen.
  destruct (lcg_draws (B * P) s) as [l s']. simpl in *.
  set (v := (λ z, Z.to_nat (z mod Z.of_nat high)) <$> l).
  assert (length v = B * P) as Hv by (unfold v; by rewrite length_fmap).
  assert (Forall (λ t, t < high) v) as Hbound.
  { unfold v. apply Forall_fmap, Forall_forall. intros z _. simpl.
    pose proof (Z.mod_pos_bound z (Z.of_nat high)). lia. }
  pose proof (reshape_replicate_rows B P v Hv) as Hrows.
  pose proof (reshape_Forall _ (replicate B P) _ Hbound) as Hall.
  destruct (lookup_lt_is_Some_2 (reshape (replicate B P) v) b) as [row Hrow].
  { by rewrite length_reshape, length_replicate. }
  rewrite Hrow. simpl.
  rewrite Forall_forall in Hrows. rewrite Forall_forall in Hall.
  pose proof (Hrows row (list_elem_of_lookup_2 _ _ _ Hrow)) as Hlr.
  destruct (lookup_lt_is_Some_2 row p) as [t Ht]; [lia|].
  exists t. split; [done|].
  pose proof (Hall row (list_elem_of_lookup_2 _ _ _ Hrow)) as Hbr.
  rewrite Forall_forall in Hbr. apply Hbr. by eapply list_elem_of_lookup_2.
Qed.

(** The grid the decode call of the instance returns has the shape [2, 5, 4]. *)
Lemma forward_inference_output_shape_witness :
  has_shape3 2 2 4 context = true
  ∧ forward_inference true 2 2 4 3 4 index_to_latents None 5%Q 0 true context 1%Z
    = Ok (input_latents decoded.1)
  ∧ has_shape3 2 (2 + 3) 4 (input_latents decoded.1) = true.
Proof.
  assert (has_shape3 2 2 4 context = true) as Hshape by reflexivity.
  assert (forward_inference true 2 2 4 3 4 index_to_latents None 5%Q 0 true context 1%Z
          = Ok (input_latents decoded.1)) as Hrun by (vm_compute; reflexivity).
  split; [exact Hshape|]. split; [exact Hrun|].
  exact (forward_inference_output_shape true 2 2 4 3 4 index_to_latents None 5%Q 0 true
           context 1%Z (input_latents decoded.1) Hshape Hrun).
Defined.

(** The last horizon cell of the grid the decode call of the instance returns
    is a codebook latent. *)
Lemma forward_inference_horizon_is_codebook_witness :
  forward_inference true 2 2 4 3 4 index_to_latents None 5%Q 0 true context 1%Z
    = Ok (input_latents decoded.1)
  ∧ ∃ i, get3 (input_latents decoded.1) 1 (2 + 2) 3 = Some (index_to_latents i).
Proof.
  assert (forward_inference true 2 2 4 3 4 index_to_latents None 5%Q 0 true context 1%Z
          = Ok (input_latents decoded.1)) as Hrun by (vm_compute; reflexivity).
  split; [exact Hrun|].
  exact (forward_inference_horizon_is_codebook true 2 2 4 3 4 index_to_latents None 5%Q 0
           true context 1%Z (input_latents decoded.1) 1 2 3 Hrun
           (le_n 2) (le_n 3) (le_n 4)).
Defined.

(** The decode call of the instance with no step, at temperature 1: a cell
    of the horizon holds the latent of the argmax class of the one pass. *)
Lemma forward_inference_without_steps_witness :
  (0 ≤ 0)%Z
  ∧ forward_inference true 2 2 4 3 0 index_to_latents None 5%Q 1 true context 1%Z
    = Ok (input_latents decoded_without_steps.1)
  ∧ ∃ row,
      get3 (scaled_logits_of None 1 (input_latents (initial_state 2 4 3 context))) 0 (2 + 1) 2
        = Some row
      ∧ get3 (input_latents decoded_without_steps.1) 0 (2 + 1) 2
        = Some (index_to_latents (row_max (softmax row)).2).
Proof.
  assert (0 ≤ 0)%Z as Hsteps by reflexivity.
  assert (forward_inference true 2 2 4 3 0 index_to_latents None 5%Q 1 true context 1%Z
          = Ok (input_latents decoded_without_steps.1)) as Hrun by (vm_compute; reflexivity).
  split; [exact Hsteps|]. split; [exact Hrun|].
  exact (forward_inference_without_steps true 2 2 4 3 0 index_to_latents None 5%Q 1
           true context 1%Z (input_latents decoded_without_steps.1) 0 1 2 Hsteps Hrun
           (le_S 1 1 (le_n 1)) (le_S 2 2 (le_n 2)) (le_S 3 3 (le_n 3))).
Defined.

(** The sampling run of the instance, 4 steps on 12 positions: the call is
    its loop. *)
Lemma forward_inference_final_completion_idle_witness :
  ((1 ≤ 4)%Z ∧ F_ceil_item (F_of_Z (P_total 4 3)) = Ok (P_total 4 3))
  ∧ forward_inference_state true 2 2 4 3 4 index_to_latents None 5%Q 1 true context 1%Z
    = decode_loop true 2 2 4 3 4 index_to_latents None 5%Q 1 (seq 0 (Z.to_nat 4))
        (initial_state 2 4 3 context) 1%Z
  ∧ ∀ st rng',
      decode_loop true 2 2 4 3 4 index_to_latents None 5%Q 1 (seq 0 (Z.to_nat 4))
        (initial_state 2 4 3 context) 1%Z = Ok (st, rng') →
      any3 (mask st) = false
      ∧ final_completion true 2 2 4 3 index_to_latents None 1 st rng' = Ok (st, rng').
Proof.
  assert (1 ≤ 4)%Z as Hsteps by (vm_compute; discriminate).
  assert (F_ceil_item (F_of_Z (P_total 4 3)) = Ok (P_total 4 3)) as Hceil by reflexivity.
  split; [exact (conj Hsteps Hceil)|].
  exact (forward_inference_final_completion_idle true 2 2 4 3 4 index_to_latents None 5%Q 1
           true context 1%Z Hsteps Hceil).
Defined.

(** Step 0 of the sampling run of the instance: the schedule asks for 0
    positions, and one of the 12 masked positions of batch element 1 is
    committed. *)
Lemma decode_step_makes_progress_witness :
  (has_shape3 2 3 4 (mask (initial_state 2 4 3 context)) = true
   ∧ decode_step true 2 2 4 3 4 index_to_latents None 5%Q 1 0
       (initial_state 2 4 3 context) 1%Z = Ok after_one_step
   ∧ exp_schedule_torch 5%Q 0 4 (P_total 4 3) = Ok schedule_at_step_0
   ∧ F_ceil_item schedule_at_step_0 = Ok 0%Z
   ∧ num_masked (mask (initial_state 2 4 3 context)) 1 = 12
   ∧ num_masked (mask after_one_step.1) 1 = 11)
  ∧ num_masked (mask after_one_step.1) 1 < num_masked (mask (initial_state 2 4 3 context)) 1
  ∧ (Z.min (k_floor (P_total 4 3))
           (Z.of_nat (num_masked (mask (initial_state 2 4 3 context)) 1))
     ≤ Z.of_nat (num_masked (mask (initial_state 2 4 3 context)) 1)
       - Z.of_nat (num_masked (mask after_one_step.1) 1))%Z.
Proof.
  assert (has_shape3 2 3 4 (mask (initial_state 2 4 3 context)) = true) as Hshape
    by reflexivity.
  assert (decode_step true 2 2 4 3 4 index_to_latents None 5%Q 1 0
            (initial_state 2 4 3 context) 1%Z
          = Ok (after_one_step.1, after_one_step.2)) as Hstep by (vm_compute; reflexivity).
  assert (exp_schedule_torch 5%Q (Z.of_nat 0) 4 (P_total 4 3) = Ok schedule_at_step_0) as Hraw
    by (vm_compute; reflexivity).
  assert (F_ceil_item schedule_at_step_0 = Ok 0%Z) as Hceil by reflexivity.
  assert (num_masked (mask (initial_state 2 4 3 context)) 1 = 12) as Hbefore
    by (vm_compute; reflexivity).
  split.
  - split_and!; [exact Hshape|exact Hstep|exact Hraw|exact Hceil|exact Hbefore|];
      vm_compute; reflexivity.
  - exact (decode_step_makes_progress true 2 2 4 3 4 index_to_latents None 5%Q 1 0
             (initial_state 2 4 3 context) after_one_step.1 1%Z after_one_step.2
             1 schedule_at_step_0 0%Z Hshape Hstep (le_n 2) Hraw Hceil
             (eq_ind_r (λ n, 0 < n) (le_n_S 0 11 (le_0_n 11)) Hbefore)).
Defined.

(** The decode call of the instance at temperature -1. *)
Lemma forward_inference_nonpositive_temperature_witness :
  (-1 <= 0)%Q
  ∧ forward_inference true 2 2 4 3 4 index_to_latents None 5%Q (-1) true context 1%Z
    = forward_inference true 2 2 4 3 4 index_to_latents None 5%Q 0 true context 1%Z.
Proof.
  assert (-1 <= 0)%Q as Ht by (vm_compute; discriminate).
  split; [exact Ht|].
  exact (forward_inference_nonpositive_temperature true 2 2 4 3 4 index_to_latents None 5%Q
           true (-1) context 1%Z Ht).
Defined.

(** The decode call of the instance with horizon 0 returns the context. *)
Lemma forward_inference_zero_horizon_witness :
  has_shape3 2 2 4 context = true
  ∧ forward_inference true 2 2 4 0 4 index_to_latents None 5%Q 1 true context 1%Z = Ok context.
Proof.
  assert (has_shape3 2 2 4 context = true) as Hshape by reflexivity.
  assert (∃ out, forward_inference true 2 2 4 0 4 index_to_latents None 5%Q 1 true context 1%Z
                 = Ok out) as [out Hrun] by (eexists; vm_compute; reflexivity).
  split; [exact Hshape|].
  rewrite Hrun. f_equal.
  exact (forward_inference_zero_horizon true 2 2 4 4 index_to_latents None 5%Q true 1
           context 1%Z out Hshape Hrun).
Defined.

(** The training pass of the instance. *)
Lemma forward_training_network_input_witness :
  forward true 2 2 4 context true None (Some targets) 7%Z = Ok trained
  ∧ ∃ m x',
      trained.1.1.2 = Some m
      ∧ trained.1.1.1 = predict_logits x' None
      ∧ has_shape3 2 2 4 m = true
      ∧ (∀ b t p, get3 m b t p = Some true → get3 x' b t p = Some mask_token)
      ∧ (∀ b t p, get3 m b t p = Some false →
           ∃ v, get3 context b t p = Some v ∧ get3 x' b t p = Some (to_float32 v))
      ∧ (∀ b p, b < 2 → p < 4 →
           ∃ t v, t < 2 ∧ get3 context b t p = Some v
                ∧ get3 x' b t p = Some (to_float32 v)).
Proof.
  assert (forward true 2 2 4 context true None (Some targets) 7%Z
          = Ok (trained.1.1.1, trained.1.1.2, trained.1.2, trained.2)) as Hrun
    by (vm_compute; reflexivity).
  split; [exact Hrun|].
  exact (forward_training_network_input 2 2 4 context None (Some targets) 7%Z
           trained.2 trained.1.1.1 trained.1.1.2 trained.1.2 Hrun).
Defined.

(** The training pass of the instance on one frame: nothing is masked, and
    the loss is 0 as the cross-entropies of the instance's rows are finite. *)
Lemma forward_training_single_frame_loss_witness :
  forward true 2 1 4 context_one_frame true None (Some targets_one_frame) 7%Z
    = Ok trained_one_frame
  ∧ ∃ m l, trained_one_frame.1.1.2 = Some m ∧ trained_one_frame.1.2 = Some l
         ∧ any3 m = false
         ∧ (Forall xfinite
              (zip_with cross_entropy_value (flatten3 trained_one_frame.1.1.1)
                 (flatten3 targets_one_frame)) →
              xeq l (Finite 0))
         ∧ (Exists (λ ce, ¬ xfinite ce)
              (zip_with cross_entropy_value (flatten3 trained_one_frame.1.1.1)
                 (flatten3 targets_one_frame)) →
              l = NaN).
Proof.
  assert (forward true 2 1 4 context_one_frame true None (Some targets_one_frame) 7%Z
          = Ok (trained_one_frame.1.1.1, trained_one_frame.1.1.2, trained_one_frame.1.2,
                trained_one_frame.2)) as Hrun by (vm_compute; reflexivity).
  split; [exact Hrun|].
  exact (forward_training_single_frame_loss 2 4 context_one_frame None targets_one_frame 7%Z
           trained_one_frame.2 trained_one_frame.1.1.1 trained_one_frame.1.1.2
           trained_one_frame.1.2 Hrun).
Defined.

(** Frames of 4 x 4 pixels in patches of 2 x 2, tokens 1 and 2 masked: pixel
    (1, 3) lies in the patch of token 1. *)
Lemma pixel_mask_marks_masked_patches_witness :
  (has_shape3 1 1 4 token_mask = true
   ∧ pixel_mask_of 4 2 1 1 4 token_mask = Ok pixel_mask_example)
  ∧ get4 pixel_mask_example 0 0 1 3
    = Some (if bool_decide (3 / 2 < 4 / 2
                            ∧ get3 token_mask 0 0 (1 / 2 * (4 / 2) + 3 / 2) = Some true)
            then 1%Q else 0%Q).
Proof.
  assert (has_shape3 1 1 4 token_mask = true) as Hshape by reflexivity.
  assert (pixel_mask_of 4 2 1 1 4 token_mask = Ok pixel_mask_example) as Hrun
    by (vm_compute; reflexivity).
  split; [exact (conj Hshape Hrun)|].
  exact (pixel_mask_marks_masked_patches 4 2 1 1 4 token_mask pixel_mask_example 0 0 1 3
           Hshape Hrun (le_n 1) (le_n 1) (le_S 2 3 (le_S 2 2 (le_n 2))) (le_n 4)).
Defined.

(** Patches of 5 x 5 on frames of 4 x 4 pixels. *)
Lemma pixel_mask_patch_not_fitting_witness :
  (has_shape3 1 1 4 token_mask = true ∧ (5 = 0 ∨ 4 < 5))
  ∧ pixel_mask_of 4 5 1 1 4 token_mask
    = if any3 token_mask then Raise ZeroDivisionError
      else Ok (replicate 1 (replicate 1 (replicate 4 (replicate 4 0%Q)))).
Proof.
  assert (has_shape3 1 1 4 token_mask = true) as Hshape by reflexivity.
  assert (5 = 0 ∨ 4 < 5) as Hsize by (right; exact (le_n 5)).
  split; [exact (conj Hshape Hsize)|].
  exact (pixel_mask_patch_not_fitting 4 5 1 1 4 token_mask Hshape Hsize).
Defined.





(** On the executable instance the masking of a training pass returns, and
    the loss returns on logits of 3 classes. *)
Lemma forward_training_stages_return_witness :
  (0 < 2 ∧ has_shape3 2 2 4 context = true)
  ∧ ∃ x m rng',
      random_masking 2 2 4 context 7%Z = Ok (x, m, rng')
      ∧ has_shape3 2 2 4 x = true
      ∧ has_shape3 2 2 4 m = true
      ∧ ∀ (logits : tensor3 (list Q)) (targets : tensor3 nat),
          has_shape3 2 2 4 logits = true →
          has_shape3 2 2 4 targets = true →
          Forall (λ r, num_classes r = 3) (flatten3 logits) →
          Forall (λ c, c < 3) (flatten3 targets) →
          ∃ l, masked_cross_entropy logits targets m = Ok l.
Proof.
  assert (0 < 2) as HT by exact (le_S 1 1 (le_n 1)).
  assert (has_shape3 2 2 4 context = true) as Hshape by reflexivity.
  split; [exact (conj HT Hshape)|].
  exact (forward_training_stages_return (F:=Q) lcg_rand3_shape lcg_randint2_range
           2 2 4 3 context 7%Z HT Hshape).
Defined.

(** The order of the instance's rationals is total and transitive. *)
Lemma comparable_Q (values : list Q) : comparable values.
Proof.
  split.
  - intros x y _ _. simpl. unfold Qltb.
    destruct (Qlt_le_dec x y) as [Hlt%Qlt_le_weak|Hle].
    + right. apply Qle_bool_iff in Hlt. by rewrite Hlt.
    + left. apply Qle_bool_iff in Hle. by rewrite Hle.
  - intros x y z _ _ _. simpl. unfold Qltb.
    intros Hyx%negb_false_iff%Qle_bool_iff Hzy%negb_false_iff%Qle_bool_iff.
    apply negb_false_iff, Qle_bool_iff. by apply Qle_trans with y.
Qed.

(** Step 0 of the sampling run of the instance commits cell [(1, 2)] of
    batch element 0, of confidence 5/7, and leaves cell [(0, 0)], of
    confidence 3/8, masked. *)
Lemma decode_step_commits_most_confident_witness :
  (has_shape3 2 3 4 (mask (initial_state 2 4 3 context)) = true
   ∧ decode_step true 2 2 4 3 4 index_to_latents None 5%Q 1 0
       (initial_state 2 4 3 context) 1%Z = Ok after_one_step
   ∧ score_pass true 2 2 4 3 None 1 (temperature_on 1) (initial_state 2 4 3 context) 1%Z
     = Ok scores_at_step_0
   ∧ has_shape3 2 3 4 (py_last 3 <$> scores_at_step_0.1.1) = true
   ∧ get3 (mask (initial_state 2 4 3 context)) 0 1 2 = Some true
   ∧ get3 (mask after_one_step.1) 0 1 2 = Some false
   ∧ get3 (mask after_one_step.1) 0 0 0 = Some true
   ∧ get3 (py_last 3 <$> scores_at_step_0.1.1) 0 1 2 = Some (5 # 7)%Q
   ∧ get3 (py_last 3 <$> scores_at_step_0.1.1) 0 0 0 = Some (3 # 8)%Q)
  ∧ F_ltb (5 # 7)%Q (3 # 8)%Q = false.
Proof.
  assert (has_shape3 2 3 4 (mask (initial_state 2 4 3 context)) = true) as Hshape
    by reflexivity.
  assert (decode_step true 2 2 4 3 4 index_to_latents None 5%Q 1 0
            (initial_state 2 4 3 context) 1%Z
          = Ok (after_one_step.1, after_one_step.2)) as Hstep by (vm_compute; reflexivity).
  assert (score_pass true 2 2 4 3 None 1 (temperature_on 1) (initial_state 2 4 3 context) 1%Z
          = Ok (scores_at_step_0.1.1, scores_at_step_0.1.2, scores_at_step_0.2)) as Hscore
    by (vm_compute; reflexivity).
  assert (has_shape3 2 3 4 (py_last 3 <$> scores_at_step_0.1.1) = true) as Hprobs
    by (vm_compute; reflexivity).
  assert ((py_last 3 <$> scores_at_step_0.1.1) !! 0
          = Some (default [] ((py_last 3 <$> scores_at_step_0.1.1) !! 0))) as Hrow
    by (vm_compute; reflexivity).
  assert (get3 (mask (initial_state 2 4 3 context)) 0 1 2 = Some true) as Htrue
    by reflexivity.
  assert (get3 (mask after_one_step.1) 0 1 2 = Some false) as Hfalse by reflexivity.
  assert (get3 (mask after_one_step.1) 0 0 0 = Some true) as Hleft by reflexivity.
  assert (get3 (py_last 3 <$> scores_at_step_0.1.1) 0 1 2 = Some (5 # 7)%Q) as Ha
    by (vm_compute; reflexivity).
  assert (get3 (py_last 3 <$> scores_at_step_0.1.1) 0 0 0 = Some (3 # 8)%Q) as Hc
    by (vm_compute; reflexivity).
  split; [by split_and!|].
  exact (decode_step_commits_most_confident true 2 2 4 3 4 index_to_latents None 5%Q 1 0
           (initial_state 2 4 3 context) after_one_step.1 1%Z after_one_step.2
           scores_at_step_0.2 scores_at_step_0.1.1 scores_at_step_0.1.2 0
           (default [] ((py_last 3 <$> scores_at_step_0.1.1) !! 0)) 1 2 0 0 (5 # 7)%Q (3 # 8)%Q
           Hshape Hstep Hscore Hprobs Hrow (comparable_Q _) Htrue Hfalse Hleft Ha Hc).
Defined.

(** Two calls of the loss whose logits and targets differ at the unmasked
    position only, where both cross-entropies are finite. *)
Lemma masked_cross_entropy_ignores_unmasked_witness :
  (masked_cross_entropy loss_logits loss_targets loss_mask = Ok loss_value
   ∧ masked_cross_entropy loss_logits_other loss_targets_other loss_mask = Ok loss_value_other
   ∧ (∀ i, flatten3 loss_mask !! i = Some true →
        flatten3 loss_logits !! i = flatten3 loss_logits_other !! i
        ∧ flatten3 loss_targets !! i = flatten3 loss_targets_other !! i)
   ∧ (∀ i r t, flatten3 loss_mask !! i = Some false →
        flatten3 loss_logits !! i = Some r → flatten3 loss_targets !! i = Some t →
        xfinite (cross_entropy_value r t))
   ∧ (∀ i r t, flatten3 loss_mask !! i = Some false →
        flatten3 loss_logits_other !! i = Some r →
        flatten3 loss_targets_other !! i = Some t →
        xfinite (cross_entropy_value r t)))
  ∧ xeq loss_value loss_value_other.
Proof.
  assert (masked_cross_entropy loss_logits loss_targets loss_mask = Ok loss_value) as H1
    by (vm_compute; reflexivity).
  assert (masked_cross_entropy loss_logits_other loss_targets_other loss_mask
          = Ok loss_value_other) as H2 by (vm_compute; reflexivity).
  assert (∀ i, flatten3 loss_mask !! i = Some true →
            flatten3 loss_logits !! i = flatten3 loss_logits_other !! i
            ∧ flatten3 loss_targets !! i = flatten3 loss_targets_other !! i) as Hagree.
  { intros [|[|i]] Hi; [split; reflexivity|discriminate Hi|discriminate Hi]. }
  assert (∀ i r t, flatten3 loss_mask !! i = Some false →
            flatten3 loss_logits !! i = Some r → flatten3 loss_targets !! i = Some t →
            xfinite (cross_entropy_value r t)) as Hfin1.
  { intros [|[|i]] r t Hi Hr Ht; [discriminate Hi| |discriminate Hi].
    injection Hr as <-. injection Ht as <-. exact I. }
  assert (∀ i r t, flatten3 loss_mask !! i = Some false →
            flatten3 loss_logits_other !! i = Some r →
            flatten3 loss_targets_other !! i = Some t →
            xfinite (cross_entropy_value r t)) as Hfin2.
  { intros [|[|i]] r t Hi Hr Ht; [discriminate Hi| |discriminate Hi].
    injection Hr as <-. injection Ht as <-. exact I. }
  split; [by split_and!|].
  exact (masked_cross_entropy_ignores_unmasked (F:=Q) loss_logits loss_logits_other
           loss_targets loss_targets_other loss_mask loss_value loss_value_other
           H1 H2 Hagree Hfin1 Hfin2).
Defined.

(** Five updates on a loader of two batches per pass: the passes 0, 1 and 2
    are started, and batch 5 is left in the third. *)
Lemma training_batches_follow_passes_witness :
  (training_batches two_batches 5 = Fetched ([0; 1; 2; 3; 4], BatchStream 3 [5])
   ∧ ∀ e, two_batches e ≠ [])
  ∧ (∀ xs st, training_batches two_batches 5 = Fetched (xs, st) →
       length xs = 5 ∧ xs ++ train_iter st = yielded two_batches st)
  ∧ ((∀ e, two_batches e ≠ []) → ∃ xs st, training_batches two_batches 5 = Fetched (xs, st))
  ∧ ((∀ e, two_batches e = []) → 0 < 5 → training_batches two_batches 5 = StopIteration).
Proof.
  split; [split; [reflexivity|intros e; discriminate]|].
  exact (training_batches_follow_passes two_batches 5).
Defined.

(** C9, as stated, fails on a module in evaluation mode: called with
    [training=True] and [targets=None] it raises nothing and returns the
    logits with no mask and no loss. *)
Lemma forward_with_training_argument_alone_skips_loss :
  forward false 2 2 4 context true None None 7%Z
  = Ok (predict_logits (map3 to_float32 context) None, None, None, 7%Z).
Proof. reflexivity. Qed.

(** C5, as stated, fails on logits that have overflowed: in a training pass
    on one frame nothing is masked, the second row has an infinite
    cross-entropy (its target has the logit minus infinity), and the loss is
    nan. *)
Lemma forward_unmasked_loss_is_nan :
  forward (F:=Q) (DynamicsModel0:=Overflow.dynamics_model) (RowOps0:=Overflow.row_ops)
    (RandomSource0:=Overflow.random_source)
    true 1 1 2 Overflow.latents true None (Some Overflow.targets) 7%Z
  = Ok (Overflow.logits, Some Overflow.mask, Some NaN, 2131988640%Z)
  ∧ any3 Overflow.mask = false
  ∧ cross_entropy (RowOps0:=Overflow.row_ops) (Overflow.HotRow 2 0) 1 = Ok PosInf.
Proof. split_and!; reflexivity. Qed.

